(** * dataset_generator.py: inventory ledger, behaviour simulator,
      transaction synthesizer, streaming writer and orchestrator

    A shallow embedding of [src/dataset_generator.py].

    Conventions of the embedding.
    - Python [int] is [Z]. Python [str] is [string].
    - The product dictionaries are mutable objects shared between the list
      [products] and the dictionary [Inventory.products]. They live in a heap
      ([list product]); a location is an index of that list, so the Python list
      [products] is the heap itself read in order, and [Inventory.products] is
      a finite map from product ids to locations.
    - The module [random] is an oracle [rng : nat -> nat] read at a cursor;
      every call of [random.*] reads the next values. [random.random()] is a
      value in hundredths (0..99), and the probabilities and weights of the
      source are written in hundredths as well.
    - Prices are amounts in cents. The price history (floating-point factors
      and Faker dates) is summarised by its draws.
    - Fields filled by Faker (names, geo data, dates, IP addresses) are left
      out of the records; Faker has a generator of its own and its calls read
      nothing from [random].
    - Exceptions are a result [Raise]. A [while] loop takes fuel and yields
      [Timeout] when the fuel is used up before the loop condition fails.
      Failures of the file system ([os.makedirs], [open], [write]) and the
      progress lines printed on the way are left out.
    - A Python [dict] is an insertion-ordered association list with one
      entry per key ([PyDict]); a Python [set] is a [gset].
    - A file is the sequence of the [write] calls it received, each a literal
      or [json.dumps] of a record. *)

From Stdlib Require Import Ascii.
From stdpp Require Import base numbers option list gmap sets strings pretty sorting.

Open Scope Z_scope.

(** ** Results, exceptions and the generator monad *)

Inductive exn := IndexError | ValueError | KeyError.

Inductive result (A : Type) :=
  | Ok (a : A)
  | Raise (e : exn)
  | Timeout.
Arguments Ok {A} a.
Arguments Raise {A} e.
Arguments Timeout {A}.

Module Product.
Record t := mk {
  product_id : string;
  category_id : string;
  subcategory_id : string;
  base_price : Z;
  current_stock : Z;
  is_active : bool;
  price_history : list Z
}.
End Product.
Abbreviation product := Product.t.

Record world := World {
  rng : nat → nat;
  pos : nat;
  heap : list product
}.

Definition M (A : Type) : Type := world → result (A * world).

#[export] Instance M_ret : MRet M := λ A a w, Ok (a, w).
#[export] Instance M_bind : MBind M := λ A B k m w,
  match m w with
  | Ok (a, w1) => k a w1
  | Raise e => Raise e
  | Timeout => Timeout
  end.

Definition raise {A} (e : exn) : M A := λ _, Raise e.
Definition timeout {A} : M A := λ _, Timeout.

Definition get_heap : M (list product) := λ w, Ok (heap w, w).
Definition set_heap (h : list product) : M unit :=
  λ w, Ok (tt, World (rng w) (pos w) h).

(** [for x in xs: acc = body(x, acc)] *)
Fixpoint for_each {A S} (xs : list A) (body : A → S → M S) (acc : S) : M S :=
  match xs with
  | [] => mret acc
  | x :: xs' => acc' ← body x acc; for_each xs' body acc'
  end.

(** [range(n)] *)
Definition range (n : Z) : list nat := seq 0 (Z.to_nat n).

(** ** The module [random] *)

Definition draw : M nat :=
  λ w, Ok (rng w (pos w), World (rng w) (S (pos w)) (heap w)).

(** [random.random()], in hundredths *)
Definition random_random : M Z :=
  d ← draw; mret (Z.of_nat d `mod` 100).

(** [random.randint(a, b)] *)
Definition random_randint (a b : Z) : M Z :=
  if decide (b < a) then raise ValueError
  else d ← draw; mret (a + Z.of_nat d `mod` (b - a + 1)).

(** [random.choice(seq)] *)
Definition random_choice {A} (xs : list A) : M A :=
  match xs with
  | [] => raise IndexError
  | x0 :: _ => d ← draw; mret (default x0 (xs !! (d `mod` length xs)%nat))
  end.

(** [random.uniform(a, b)] rounded to two places, in hundredths *)
Definition random_uniform (a b : Z) : M Z :=
  d ← draw; mret (a + Z.of_nat d `mod` (b - a + 1)).

(** ** Helpers *)

Definition hex_digits : list ascii :=
  ["0"; "1"; "2"; "3"; "4"; "5"; "6"; "7"; "8"; "9";
   "a"; "b"; "c"; "d"; "e"; "f"]%char.

Fixpoint rand_hex (n : nat) : M string :=
  match n with
  | O => mret ""
  | S n' => c ← random_choice hex_digits; s ← rand_hex n'; mret (String c s)
  end.

(** [f"{n:0{w}d}"] for a natural number *)
Fixpoint zeros (k : nat) : string :=
  match k with O => "" | S k' => String "0" (zeros k') end.
Definition zfill (w : nat) (s : string) : string :=
  zeros (w - String.length s) +:+ s.
Definition fmt_id (prefix : string) (w : nat) (n : nat) : string :=
  prefix +:+ zfill w (pretty n).

Fixpoint weighted_choice_go {A} (r total : Z) (choices : list (A * Z)) : option A :=
  match choices with
  | [] => None
  | (v, wt) :: rest =>
      let total := total + wt in
      if decide (r ≤ total) then Some v else weighted_choice_go r total rest
  end.

Definition weighted_choice {A} (choices : list (A * Z)) : M A :=
  r ← random_random;
  match weighted_choice_go r 0 choices with
  | Some v => mret v
  | None =>
      match last choices with
      | Some (v, _) => mret v
      | None => raise IndexError
      end
  end.

(** ** Files and [write_json_array] *)

Definition NL : string := String "010" "".

Inductive chunk (A : Type) :=
  | Lit (s : string)
  | Dumps (item : A).
Arguments Lit {A} s.
Arguments Dumps {A} item.

Definition file (A : Type) := list (chunk A).

Record writer (A : Type) := Writer {
  wr_file : file A;
  wr_first : bool;
  wr_count : Z
}.
Arguments Writer {A}.
Arguments wr_file {A}.
Arguments wr_first {A}.
Arguments wr_count {A}.

Definition write_item {A} (st : writer A) (item : A) : writer A :=
  let f := if wr_first st then wr_file st else wr_file st ++ [Lit ("," +:+ NL)] in
  Writer (f ++ [Dumps item]) false (wr_count st + 1).

Definition write_json_array {A} (items_iter : list A) : file A * Z :=
  let st := foldl write_item (Writer [Lit ("[" +:+ NL)] true 0) items_iter in
  (wr_file st ++ [Lit (NL +:+ "]" +:+ NL)], wr_count st).
Arguments write_json_array {A} items_iter : simpl never.

(** The text of a file, given [json.dumps]. *)
Definition render {A} (dumps : A → string) (f : file A) : string :=
  foldr (λ c s, match c with Lit t => t +:+ s | Dumps x => dumps x +:+ s end) "" f.

(** ** Python dictionaries: one entry per key, in insertion order *)

Module PyDict.
Definition t (V : Type) := list (string * V).

Fixpoint get {V} (d : t V) (k : string) : option V :=
  match d with
  | [] => None
  | (k', v) :: d' => if decide (k' = k) then Some v else get d' k
  end.

(** [d[k] = v] *)
Fixpoint set {V} (d : t V) (k : string) (v : V) : t V :=
  match d with
  | [] => [(k, v)]
  | (k', v') :: d' =>
      if decide (k' = k) then (k', v) :: d' else (k', v') :: set d' k v
  end.

Definition contains {V} (d : t V) (k : string) : bool := bool_decide (is_Some (get d k)).
Definition items {V} (d : t V) : list (string * V) := d.
Definition values {V} (d : t V) : list V := d.*2.
Definition keys {V} (d : t V) : list string := d.*1.
End PyDict.

(** ** Inventory manager *)

Module Inventory.
(** [self.products]: product id to the location of the product object *)
Record t := mk { products : PyDict.t nat }.

(** [{p["product_id"]: p for p in products}], the objects being the
    locations [start], [start + 1], ... *)
Fixpoint init_go (d : PyDict.t nat) (start : nat) (ps : list product) : PyDict.t nat :=
  match ps with
  | [] => d
  | p :: ps' => init_go (PyDict.set d (Product.product_id p) start) (S start) ps'
  end.

Definition init (ps : list product) : t := mk (init_go [] 0 ps).

(** [self.products.get(pid)], the object read in the heap *)
Definition get (self : t) (h : list product) (pid : string) : option product :=
  l ← PyDict.get (products self) pid; h !! l.

Definition in_stock_at (self : t) (h : list product) (pid : string) (qty : Z) : bool :=
  match get self h pid with
  | Some p => bool_decide (qty ≤ Product.current_stock p) && Product.is_active p
  | None => false
  end.

Definition in_stock (self : t) (pid : string) (qty : Z) : M bool :=
  h ← get_heap; mret (in_stock_at self h pid qty).

Definition set_stock (p : product) (s : Z) : product :=
  Product.mk (Product.product_id p) (Product.category_id p)
    (Product.subcategory_id p) (Product.base_price p) s
    (Product.is_active p) (Product.price_history p).

Definition set_active (p : product) (b : bool) : product :=
  Product.mk (Product.product_id p) (Product.category_id p)
    (Product.subcategory_id p) (Product.base_price p)
    (Product.current_stock p) b (Product.price_history p).

Definition reserve (self : t) (pid : string) (qty : Z) : M bool :=
  ok ← in_stock self pid qty;
  if negb ok then mret false
  else
    h ← get_heap;
    match PyDict.get (products self) pid with
    | None => raise KeyError
    | Some l =>
        match h !! l with
        | None => raise KeyError
        | Some p =>
            let p := set_stock p (Product.current_stock p - qty) in
            let p :=
              if decide (Product.current_stock p ≤ 0)
              then set_active (set_stock p 0) false
              else p in
            _ ← set_heap (<[l := p]> h);
            mret true
        end
    end.
End Inventory.

(** ** Generators for entities *)

Module Subcategory.
Record t := mk { subcategory_id : string; profit_margin : Z }.
End Subcategory.

Module Category.
Record t := mk { category_id : string; subcategories : list Subcategory.t }.
End Category.
Abbreviation category := Category.t.

Module User.
Record t := mk { user_id : string }.
End User.
Abbreviation user := User.t.

Definition gen_categories (num_categories : Z) (subcats_per_cat : Z * Z) :
    M (list category) :=
  for_each (range num_categories) (λ cat_id categories,
    n_sub ← random_randint subcats_per_cat.1 subcats_per_cat.2;
    subs ← for_each (range n_sub) (λ sub_id subs,
      margin ← random_uniform 10 40;
      mret (subs ++ [Subcategory.mk
        ("sub_" +:+ zfill 3 (pretty cat_id) +:+ "_" +:+ zfill 2 (pretty sub_id))
        margin])) [];
    mret (categories ++ [Category.mk (fmt_id "cat_" 3 cat_id) subs])) [].

(** One price change: the last price times a factor in [0.8, 1.2], rounded
    to cents (the model rounds half up). *)
Definition price_change (_ : nat) (price_history : list Z) : M (list Z) :=
  factor ← random_uniform 80 120;
  let last_price := default 0 (last price_history) in
  mret (price_history ++ [(last_price * factor + 50) `div` 100]).

Definition gen_product (categories : list category) (prod_id : nat)
    (products : list product) : M (list product) :=
  cat ← random_choice categories;
  sub ← random_choice (Category.subcategories cat);
  base_price0 ← random_uniform 500 50000;
  n_changes ← random_randint 0 2;
  price_history ← for_each (range n_changes) price_change [base_price0];
  let current_price := default 0 (last price_history) in
  stock ← random_randint 10 1000;
  r ← random_random;
  let is_active := bool_decide (r < 95) in
  stock ← (if is_active then mret stock
           else r ← random_random;
                mret (if decide (r < 70) then 0 else stock));
  mret (products ++ [Product.mk
    (fmt_id "prod_" 5 prod_id)
    (Category.category_id cat)
    (Subcategory.subcategory_id sub)
    current_price
    stock
    (is_active && bool_decide (0 < stock))
    price_history]).

Definition gen_products (categories : list category) (num_products : Z) :
    M (list product) :=
  for_each (range num_products) (gen_product categories) [].

Definition gen_users (num_users : Z) : list user :=
  (λ user_id, User.mk (fmt_id "user_" 6 user_id)) <$> range num_users.

(** ** Session and transaction synthesis *)

Inductive page_type :=
  | home | search | category_listing | product_detail | cart | checkout.

#[export] Instance page_type_eq_dec : EqDecision page_type.
Proof. solve_decision. Defined.

Definition DEVICE_TYPES : list string := ["mobile"; "desktop"; "tablet"].
Definition OS_TYPES : list string := ["iOS"; "Android"; "Windows"; "macOS"; "Linux"].
Definition BROWSERS : list string := ["Chrome"; "Safari"; "Firefox"; "Edge"].

Definition REFERRERS : list (string * Z) :=
  [("direct", 35); ("search_engine", 35); ("social_media", 20); ("email_campaign", 10)]%string.

Definition PAYMENT_METHODS : list string :=
  ["credit_card"; "paypal"; "bank_transfer"; "gift_card"].
Definition TX_STATUSES : list string :=
  ["completed"; "processing"; "shipped"; "delivered"].

(** [sorted(s)] for a set of integers and for a set of strings *)
Definition sorted_Z (s : gset Z) : list Z := merge_sort Z.le (elements s).
Definition sorted_str (s : gset string) : list string := merge_sort String.le (elements s).

Definition make_page_flow (session_duration : Z) : M (list Z) :=
  n_views ← random_randint 4 14;
  cuts ← for_each (range (n_views - 1)) (λ _ cuts,
    c ← random_randint 1 (session_duration - 1);
    mret (cuts ∪ {[c]})) (∅ : gset Z);
  mret (sorted_Z ({[0; session_duration]} ∪ cuts)).

Module PageView.
(** [offset] stands for [timestamp]: the page view is stamped
    [start + offset] seconds. *)
Record t := mk {
  offset : Z;
  page_type_ : page_type;
  product_id : option string;
  category_id : option string;
  view_duration : Z
}.
End PageView.
Abbreviation page_view := PageView.t.

Definition choose_page_type (i : nat) (prev : list page_view) : M page_type :=
  if decide (i = 0%nat) then mret home
  else if decide (PageView.page_type_ <$> last prev = Some cart) then
    weighted_choice [(checkout, 35); (product_detail, 40); (search, 25)]
  else if decide (PageView.page_type_ <$> last prev = Some checkout) then
    weighted_choice [(checkout, 20); (cart, 30); (product_detail, 50)]
  else
    weighted_choice
      [(search, 20); (category_listing, 25); (product_detail, 40); (cart, 15)].

Module CartEntry.
Record t := mk { quantity : Z; price : Z }.
End CartEntry.

Inductive conversion := converted | abandoned_cart | browsing.

#[export] Instance conversion_eq_dec : EqDecision conversion.
Proof. solve_decision. Defined.

Module Device.
Record t := mk { type : string; os : string; browser : string }.
End Device.

Module Session.
Record t := mk {
  session_id : string;
  user_id : string;
  duration_seconds : Z;
  device_profile : Device.t;
  viewed_products : list string;
  page_views : list page_view;
  cart_contents : PyDict.t CartEntry.t;
  conversion_status : conversion;
  referrer : string
}.

Definition set_conversion_status (s : t) (c : conversion) : t :=
  mk (session_id s) (user_id s) (duration_seconds s) (device_profile s)
     (viewed_products s) (page_views s) (cart_contents s) c (referrer s).
End Session.
Abbreviation session := Session.t.

Module Item.
Record t := mk {
  product_id : string;
  quantity : Z;
  unit_price : Z;
  subtotal : Z
}.
End Item.
Abbreviation item := Item.t.

Module Transaction.
Record t := mk {
  transaction_id : string;
  session_id : option string;
  user_id : string;
  items : list item;
  subtotal : Z;
  discount : Z;
  total : Z;
  payment_method : string;
  status : string
}.
End Transaction.
Abbreviation transaction := Transaction.t.

Definition available (cand : product) : bool :=
  Product.is_active cand && bool_decide (0 < Product.current_stock cand).

(** The [for _ in range(5)] loop of the product_detail branch, with its
    [break]; [n] is the number of iterations left. *)
Fixpoint try_picks (n : nat) : M (option product) :=
  match n with
  | O => mret None
  | S n' =>
      products ← get_heap;
      cand ← random_choice products;
      if available cand then mret (Some cand) else try_picks n'
  end.

Definition choose_product : M product :=
  chosen ← try_picks 5;
  match chosen with
  | Some cand => mret cand
  | None => products ← get_heap; random_choice products
  end.

(** The local variables of the page-view loop of [session_record] *)
Record views := Views {
  page_views : list page_view;
  viewed_products : gset string;
  cart_contents : PyDict.t CartEntry.t
}.

Definition add_to_cart (inv : Inventory.t) (chosen : product)
    (cart_contents : PyDict.t CartEntry.t) : M (PyDict.t CartEntry.t) :=
  let product_id := Product.product_id chosen in
  let cart_contents :=
    if PyDict.contains cart_contents product_id then cart_contents
    else PyDict.set cart_contents product_id
           (CartEntry.mk 0 (Product.base_price chosen)) in
  h ← get_heap;
  match Inventory.get inv h product_id, PyDict.get cart_contents product_id with
  | Some p, Some entry =>
      let remaining := Product.current_stock p - CartEntry.quantity entry in
      if decide (0 < remaining) then
        add_qty ← random_randint 1 (Z.min 3 remaining);
        mret (PyDict.set cart_contents product_id
                (CartEntry.mk (CartEntry.quantity entry + add_qty)
                              (CartEntry.price entry)))
      else mret cart_contents
  | _, _ => raise KeyError
  end.

Definition page_view_step (categories : list category) (inv : Inventory.t)
    (slots : list Z) (i : nat) (st : views) : M views :=
  let view_duration := default 0 (slots !! S i) - default 0 (slots !! i) in
  ptype ← choose_page_type i (page_views st);
  '(product_id, category_id, viewed, new_cart) ←
    match ptype with
    | category_listing =>
        cat ← random_choice categories;
        mret (None, Some (Category.category_id cat),
              viewed_products st, cart_contents st)
    | product_detail =>
        chosen ← choose_product;
        let product_id := Product.product_id chosen in
        let viewed := viewed_products st ∪ {[product_id]} in
        r ← random_random;
        new_cart ← (if decide (r < 30)
                    then add_to_cart inv chosen (cart_contents st)
                    else mret (cart_contents st));
        mret (Some product_id, Some (Product.category_id chosen), viewed, new_cart)
    | _ => mret (None, None, viewed_products st, cart_contents st)
    end;
  mret (Views
    (page_views st ++
       [PageView.mk (default 0 (slots !! i)) ptype product_id category_id view_duration])
    viewed new_cart).

(** One line of the cart at commit time: reserve, then keep or drop. *)
Definition commit_line (inv : Inventory.t) (line : string * CartEntry.t)
    (acc : list item * Z) : M (list item * Z) :=
  let '(pid, entry) := line in
  let qty := CartEntry.quantity entry in
  if decide (qty ≤ 0) then mret acc
  else
    ok ← Inventory.reserve inv pid qty;
    if ok : bool then
      let unit_price := CartEntry.price entry in
      let line_sub := qty * unit_price in
      mret (acc.1 ++ [Item.mk pid qty unit_price line_sub], acc.2 + line_sub)
    else mret acc.

(** The discount of a transaction, rounded to cents (the model rounds half up). *)
Definition draw_discount (subtotal : Z) : M Z :=
  r ← random_random;
  if decide (r < 20) then
    discount_rate ← random_choice [5; 10; 15; 20];
    mret ((subtotal * discount_rate + 50) `div` 100)
  else mret 0.

Definition make_transaction (session_id : option string) (u : user)
    (items : list item) (subtotal : Z) : M transaction :=
  discount ← draw_discount subtotal;
  let total := subtotal - discount in
  hex ← rand_hex 12;
  payment_method ← random_choice PAYMENT_METHODS;
  status ← random_choice TX_STATUSES;
  mret (Transaction.mk ("txn_" +:+ hex) session_id (User.user_id u)
          items subtotal discount total payment_method status).

Definition positive_quantity (line : string * CartEntry.t) : bool :=
  bool_decide (0 < CartEntry.quantity line.2).

Definition session_record (u : user) (categories : list category)
    (inv : Inventory.t) : M (session * option transaction) :=
  hex ← rand_hex 10;
  let session_id := "sess_" +:+ hex in
  duration ← random_randint 30 3600;
  dev_type ← random_choice DEVICE_TYPES;
  dev_os ← random_choice OS_TYPES;
  dev_browser ← random_choice BROWSERS;
  let device := Device.mk dev_type dev_os dev_browser in
  slots ← make_page_flow duration;
  st ← for_each (range (Z.of_nat (length slots) - 1))
         (page_view_step categories inv slots) (Views [] ∅ []);
  let did_checkout :=
    existsb (λ pv, bool_decide (PageView.page_type_ pv = checkout)) (page_views st) in
  let has_cart := existsb positive_quantity (PyDict.items (cart_contents st)) in
  let convert_prob :=
    if did_checkout && has_cart then 45 else if has_cart then 20 else 5 in
  r ← random_random;
  let is_converted := bool_decide (r < convert_prob) && has_cart in
  referrer ← weighted_choice REFERRERS;
  let session_doc := Session.mk session_id (User.user_id u) duration device
    (sorted_str (viewed_products st))
    (page_views st)
    (filter (λ line, positive_quantity line) (cart_contents st))
    (if is_converted then converted
     else if has_cart then abandoned_cart else browsing)
    referrer in
  if is_converted then
    '(items, subtotal) ←
      for_each (PyDict.items (Session.cart_contents session_doc))
        (commit_line inv) ([], 0);
    match items with
    | _ :: _ =>
        tx_doc ← make_transaction (Some session_id) u items subtotal;
        mret (session_doc, Some tx_doc)
    | [] =>
        mret (Session.set_conversion_status session_doc abandoned_cart, None)
    end
  else mret (session_doc, None).

(** The [for _ in range(n_items * 3)] loop of [gen_orphan_transaction];
    [k] is the number of iterations left. *)
Fixpoint orphan_picks (inv : Inventory.t) (n_items : Z) (k : nat)
    (acc : list item * Z) : M (list item * Z) :=
  match k with
  | O => mret acc
  | S k' =>
      if decide (n_items ≤ Z.of_nat (length acc.1)) then mret acc
      else
        products ← get_heap;
        p ← random_choice products;
        if negb (Product.is_active p) || bool_decide (Product.current_stock p ≤ 0)
        then orphan_picks inv n_items k' acc
        else
          let pid := Product.product_id p in
          qty ← random_randint 1 3;
          ok ← Inventory.reserve inv pid qty;
          if ok : bool then
            let unit_price := Product.base_price p in
            let line_sub := qty * unit_price in
            orphan_picks inv n_items k'
              (acc.1 ++ [Item.mk pid qty unit_price line_sub], acc.2 + line_sub)
          else orphan_picks inv n_items k' acc
  end.

Definition gen_orphan_transaction (u : user) (inv : Inventory.t) :
    M (option transaction) :=
  n_items ← random_randint 1 3;
  '(items, subtotal) ← orphan_picks inv n_items (Z.to_nat (n_items * 3)) ([], 0);
  match items with
  | [] => mret None
  | _ :: _ => tx_doc ← make_transaction None u items subtotal; mret (Some tx_doc)
  end.

(** ** Main *)

Record config := Config {
  num_users : Z;
  num_products : Z;
  num_categories : Z;
  num_transactions : Z;
  num_sessions : Z;
  sessions_chunk_size : Z;
  subcats_min : Z;
  subcats_max : Z
}.

(** The variables of [main] while sessions and transactions are streamed:
    the open file [transactions.json], the counters and the chunk files
    [sessions_0.json], [sessions_1.json], ... written so far. *)
Record stream := Stream {
  txf : file transaction;
  tx_first : bool;
  tx_written : Z;
  sess_written : Z;
  chunk_idx : Z;
  sessions_files : list (file session)
}.

(** [if not tx_first: txf.write(",\n")]; [tx_first = False];
    [txf.write(json.dumps(tx_doc))] *)
Definition write_tx (f : file transaction * bool) (tx_doc : transaction) :
    file transaction * bool :=
  let f1 := if f.2 then f.1 else f.1 ++ [Lit ("," +:+ NL)] in
  (f1 ++ [Dumps tx_doc], false).

(** The generator [iter_sessions_for_chunk(n)], run to its end: the sessions
    it yields, and [tx_buffer] and [tx_written] as it leaves them. *)
Definition iter_sessions_step (users : list user) (categories : list category)
    (inv : Inventory.t) (tx_target : Z) (_ : nat)
    (acc : list session * list transaction * Z) :
    M (list session * list transaction * Z) :=
  let '(yielded, tx_buffer, tx_written) := acc in
  u ← random_choice users;
  '(sess_doc, tx_doc) ← session_record u categories inv;
  match tx_doc with
  | Some tx_doc =>
      if decide (tx_written < tx_target)
      then mret (yielded ++ [sess_doc], tx_buffer ++ [tx_doc], tx_written + 1)
      else mret (yielded ++ [sess_doc], tx_buffer, tx_written)
  | None => mret (yielded ++ [sess_doc], tx_buffer, tx_written)
  end.

Definition iter_sessions_for_chunk (users : list user) (categories : list category)
    (inv : Inventory.t) (tx_target : Z) (n : Z) (tx_written : Z) :
    M (list session * list transaction * Z) :=
  for_each (range n) (iter_sessions_step users categories inv tx_target)
    ([], [], tx_written).

(** [while sess_written < sess_target: ...] *)
Fixpoint session_chunks (fuel : nat) (users : list user) (categories : list category)
    (inv : Inventory.t) (tx_target sess_target chunk_size : Z) (st : stream) :
    M stream :=
  if decide (sess_written st < sess_target) then
    match fuel with
    | O => timeout
    | S fuel' =>
        let remaining := sess_target - sess_written st in
        let this_chunk := Z.min chunk_size remaining in
        '(yielded, tx_buffer, tx_written') ←
          iter_sessions_for_chunk users categories inv tx_target this_chunk
            (tx_written st);
        let '(sessions_file, wrote) := write_json_array yielded in
        let '(txf', tx_first') := foldl write_tx (txf st, tx_first st) tx_buffer in
        session_chunks fuel' users categories inv tx_target sess_target chunk_size
          (Stream txf' tx_first' tx_written' (sess_written st + wrote)
             (chunk_idx st + 1) (sessions_files st ++ [sessions_file]))
    end
  else mret st.

(** [while tx_written < tx_target: ...] *)
Fixpoint orphan_transactions (fuel : nat) (users : list user) (inv : Inventory.t)
    (tx_target : Z) (st : stream) : M stream :=
  if decide (tx_written st < tx_target) then
    match fuel with
    | O => timeout
    | S fuel' =>
        u ← random_choice users;
        tx_doc ← gen_orphan_transaction u inv;
        match tx_doc with
        | None => orphan_transactions fuel' users inv tx_target st
        | Some tx_doc =>
            let '(txf', tx_first') := write_tx (txf st, tx_first st) tx_doc in
            orphan_transactions fuel' users inv tx_target
              (Stream txf' tx_first' (tx_written st + 1) (sess_written st)
                 (chunk_idx st) (sessions_files st))
        end
    end
  else mret st.

(** What a run leaves behind: the files, and the two counts of the closing
    report. [products_json] is the file as rewritten at the end. *)
Record outputs := Outputs {
  categories_json : file category;
  users_json : file user;
  products_json : file product;
  sessions_json : list (file session);
  transactions_json : file transaction;
  report_sessions : Z;
  report_transactions : Z
}.

Definition main (fuel : nat) (args : config) : M outputs :=
  categories ← gen_categories (num_categories args) (subcats_min args, subcats_max args);
  let categories_file := (write_json_array categories).1 in
  products ← gen_products categories (num_products args);
  _ ← set_heap products;
  let inv := Inventory.init products in
  let users := gen_users (num_users args) in
  let users_file := (write_json_array users).1 in
  let tx_target := num_transactions args in
  let sess_target := num_sessions args in
  let chunk_size := sessions_chunk_size args in
  st ← session_chunks fuel users categories inv tx_target sess_target chunk_size
         (Stream [Lit ("[" +:+ NL)] true 0 0 0 []);
  st ← orphan_transactions fuel users inv tx_target st;
  let transactions_file := txf st ++ [Lit (NL +:+ "]" +:+ NL)] in
  h ← get_heap;
  let final := omap (λ l, h !! l) (PyDict.values (Inventory.products inv)) in
  mret (Outputs categories_file users_file (write_json_array final).1
          (sessions_files st) transactions_file (sess_written st) (tx_written st)).

(** * Specification vocabulary *)

(** [reserve(pid, qty)] can succeed in heap [h]: the ledger knows [pid], at
    location [l], and the product [p] there is active with enough stock. *)
Definition reservable (inv : Inventory.t) (h : list product) (pid : string)
    (qty : Z) (l : nat) (p : product) : Prop :=
  PyDict.get (Inventory.products inv) pid = Some l ∧ h !! l = Some p ∧
  Product.is_active p = true ∧ qty ≤ Product.current_stock p.

(** Two states of the same product object: everything but stock and
    activity is equal. *)
Definition same_product (p p' : product) : Prop :=
  Product.product_id p' = Product.product_id p ∧
  Product.category_id p' = Product.category_id p ∧
  Product.subcategory_id p' = Product.subcategory_id p ∧
  Product.base_price p' = Product.base_price p ∧
  Product.price_history p' = Product.price_history p.

(** The product object returned by the [i]-th next call of
    [random.choice(products)], and the state after [k] calls of [random]. *)
Definition cand (w : world) (i : nat) : option product :=
  heap w !! (rng w (pos w + i) `mod` length (heap w))%nat.
Definition advance (w : world) (k : nat) : world :=
  World (rng w) (pos w + k) (heap w).

(** The product_detail pick as the specification words it: when none of
    the five draws is active and in stock, the fifth draw is recorded and no
    further draw is made. *)
Definition last_of_five_recorded : Prop :=
  ∀ w chosen w',
    choose_product w = Ok (chosen, w') →
    (∀ i c, (i < 5)%nat → cand w i = Some c → available c = false) →
    cand w 4 = Some chosen ∧ w' = advance w 5.

Definition inactive_product (pid : string) : product :=
  Product.mk pid "cat_000" "sub_000_00" 999 0 false [999].

(** Two products, neither active, and a generator whose sixth value differs
    from the first five. *)
Definition w_sixth_draw : world :=
  World (λ i, if decide (i = 5%nat) then 1%nat else 0%nat) 0
    [inactive_product "prod_00000"; inactive_product "prod_00001"].

(** A generator that always returns 0, one product, one category, one user. *)
Definition stocked_product (pid : string) (stock : Z) : product :=
  Product.mk pid "cat_000" "sub_000_00" 999 stock true [999].
Definition one_category : list category :=
  [Category.mk "cat_000" [Subcategory.mk "sub_000_00" 10]].
Definition first_user : user := User.mk "user_000000".
Definition w_zero : world := World (λ _, 0%nat) 0 [stocked_product "prod_00000" 2].

(** The product ids recorded on product_detail page views, in order. *)
Definition detail_products (pvs : list page_view) : list string :=
  omap (λ pv, if decide (PageView.page_type_ pv = product_detail)
              then PageView.product_id pv else None) pvs.

(** The records a file holds, in the order they were written. *)
Definition written {A} (f : file A) : list A :=
  omap (λ c, match c with Dumps x => Some x | Lit _ => None end) f.

(** All sessions of a run, chunk file after chunk file. *)
Definition emitted_sessions (out : outputs) : list session :=
  concat (written <$> sessions_json out).

(** The ids of the sessions whose status is "converted", in order. *)
Definition converted_ids (ss : list session) : list string :=
  Session.session_id <$> filter (λ s, Session.conversion_status s = converted) ss.

(** The conversion/transaction correspondence as the specification words it. *)
Definition conversion_matches_transactions : Prop :=
  ∀ fuel args w out w',
    main fuel args w = Ok (out, w') →
    ∀ s, s ∈ emitted_sessions out →
      Session.conversion_status s = converted ↔
      length (filter (λ t, Transaction.session_id t = Some (Session.session_id s))
                (written (transactions_json out))) = 1%nat.

(** One user, one product, one category and one session; a generator under
    which that session views the product, puts two units in its cart and
    converts. *)
Definition cfg_one_session (tx_target : Z) : config :=
  Config 1 1 1 tx_target 1 1 1 1.
Definition rng_converting : nat → nat :=
  λ i, if decide (i = 27%nat) then 50%nat
       else if decide (i = 30%nat) then 1%nat
       else if decide (i = 33%nat) then 50%nat else 0%nat.

(** The ledger [inv] indexes the objects of heap [h]: each object is found
    under its own id, and each key leads to an object with that id. *)
Definition ledger_ok (inv : Inventory.t) (h : list product) : Prop :=
  (∀ l p, h !! l = Some p →
     PyDict.get (Inventory.products inv) (Product.product_id p) = Some l) ∧
  (∀ pid l, PyDict.get (Inventory.products inv) pid = Some l →
     ∃ p, h !! l = Some p ∧ Product.product_id p = pid).

(** A product as [gen_products] leaves it: stock is not negative, a
    product is active only with stock, and stock is at most 1000. *)
Definition well_stocked (p : product) : Prop :=
  0 ≤ Product.current_stock p ∧
  (Product.is_active p = true → 0 < Product.current_stock p) ∧
  Product.current_stock p ≤ 1000.

(** The quantity of product [pid] on a list of transaction lines. *)
Definition sum_Z (l : list Z) : Z := foldr Z.add 0 l.
Definition quantity_sold (pid : string) (items : list item) : Z :=
  sum_Z (Item.quantity <$> filter (λ it, Item.product_id it = pid) items).

(** The item lines of a list of transactions. *)
Definition committed_lines (txs : list transaction) : list item :=
  concat (Transaction.items <$> txs).

(** A line with a positive quantity of a product of heap [h]. *)
Definition line_of (h : list product) (it : item) : Prop :=
  0 < Item.quantity it ∧ Item.product_id it ∈ Product.product_id <$> h.

(** Heap [h'] is heap [h] after the lines [items] were reserved: every line
    has a positive quantity of a product of the heap, and every product lost
    at least what the lines say of it, without going below 0. *)
Definition debited (h : list product) (items : list item) (h' : list product) : Prop :=
  Forall (line_of h) items ∧
  length h' = length h ∧
  ∀ l p, h !! l = Some p →
    ∃ p', h' !! l = Some p' ∧
      Product.product_id p' = Product.product_id p ∧
      Product.current_stock p' + quantity_sold (Product.product_id p) items
        ≤ Product.current_stock p ∧
      (0 ≤ Product.current_stock p → 0 ≤ Product.current_stock p').

(** The products of a run as [gen_products] creates them. *)
Definition initial_products (args : config) (w : world) : option (list product) :=
  match (categories ← gen_categories (num_categories args)
                         (subcats_min args, subcats_max args);
         gen_products categories (num_products args)) w with
  | Ok (products, _) => Some products
  | _ => None
  end.

(** One call of [Inventory.reserve], by anyone and with any arguments, seen
    from the heap; and any number of such calls. *)
Definition ledger_step (h h' : list product) : Prop :=
  ∃ inv pid qty b w w',
    Inventory.reserve inv pid qty w = Ok (b, w') ∧ heap w = h ∧ heap w' = h'.
Definition ledger_steps : relation (list product) := rtc ledger_step.

(** A computation that changes the heap by calls of [reserve] only. *)
Definition moves {A} (m : M A) : Prop :=
  ∀ w a w', m w = Ok (a, w') → ledger_steps (heap w) (heap w').

(** No product of the heap is out of stock and active. *)
Definition deactivated (h : list product) : Prop :=
  ∀ p, p ∈ h → Product.current_stock p = 0 → Product.is_active p = false.

(** A product that is inactive in [h] is inactive in [h']. *)
Definition never_reactivated (h h' : list product) : Prop :=
  ∀ l p, h !! l = Some p → Product.is_active p = false →
    ∃ p', h' !! l = Some p' ∧ Product.is_active p' = false.

(** A generator under which the first product of a run is created inactive
    and out of stock (its activity draw, the eighth value read, is 99), and
    a configuration with that single product, no session and one transaction
    to write. *)
Definition rng_inactive : nat → nat :=
  λ i, if decide (i = 7%nat) then 99%nat else 0%nat.
Definition cfg_orphans_only : config := Config 1 1 1 1 0 1 1 1.

(** Invalid configuration is fatal, as the specification words it: a
    non-positive chunk size or target makes the run end with an exception. *)
Definition invalid_configuration_aborts : Prop :=
  ∀ fuel args w,
    sessions_chunk_size args ≤ 0 ∨ num_sessions args ≤ 0 ∨ num_transactions args ≤ 0 →
    ∃ e, main fuel args w = Raise e.

(** One user, product and category; targets and chunk size all 0. *)
Definition cfg_all_zero : config := Config 1 1 1 0 0 0 1 1.

(** ** JSON texts (RFC 8259) *)

Definition quote : ascii := "034"%char.
Definition backslash : ascii := "092"%char.

Definition json_ws_char (c : ascii) : Prop :=
  c = " "%char ∨ c = "009"%char ∨ c = "010"%char ∨ c = "013"%char.

Inductive json_ws : string → Prop :=
  | jws_nil : json_ws ""
  | jws_cons c s : json_ws_char c → json_ws s → json_ws (String c s).

Definition json_digit (c : ascii) : Prop :=
  (48 ≤ nat_of_ascii c ≤ 57)%nat.

Inductive json_digits : string → Prop :=
  | jd_one c : json_digit c → json_digits (String c "")
  | jd_cons c s : json_digit c → json_digits s → json_digits (String c s).

Inductive json_int : string → Prop :=
  | ji_zero : json_int "0"
  | ji_digit c : json_digit c → c ≠ "0"%char → json_int (String c "")
  | ji_digits c s :
      json_digit c → c ≠ "0"%char → json_digits s → json_int (String c s).

Inductive json_frac : string → Prop :=
  | jf_none : json_frac ""
  | jf_some s : json_digits s → json_frac ("." +:+ s).

Inductive json_exp : string → Prop :=
  | jx_none : json_exp ""
  | jx_some e sign s :
      e = "e" ∨ e = "E" → sign = "" ∨ sign = "+" ∨ sign = "-" →
      json_digits s → json_exp (e +:+ sign +:+ s).

Inductive json_number : string → Prop :=
  | jn_number minus i f x :
      minus = "" ∨ minus = "-" → json_int i → json_frac f → json_exp x →
      json_number (minus +:+ i +:+ f +:+ x).

Definition json_hex (c : ascii) : Prop :=
  json_digit c ∨ (97 ≤ nat_of_ascii c ≤ 102)%nat ∨ (65 ≤ nat_of_ascii c ≤ 70)%nat.

Definition json_escape (c : ascii) : Prop :=
  c = quote ∨ c = backslash ∨ c = "/"%char ∨ c = "b"%char ∨ c = "f"%char ∨
  c = "n"%char ∨ c = "r"%char ∨ c = "t"%char.

Inductive json_chars : string → Prop :=
  | jc_nil : json_chars ""
  | jc_plain c s :
      (32 ≤ nat_of_ascii c)%nat → c ≠ quote → c ≠ backslash →
      json_chars s → json_chars (String c s)
  | jc_escape c s :
      json_escape c → json_chars s → json_chars (String backslash (String c s))
  | jc_unicode h1 h2 h3 h4 s :
      json_hex h1 → json_hex h2 → json_hex h3 → json_hex h4 → json_chars s →
      json_chars (String backslash (String "u"
                    (String h1 (String h2 (String h3 (String h4 s)))))).

Inductive json_string : string → Prop :=
  | js_string s : json_chars s → json_string (String quote (s +:+ String quote "")).

(** Values; [json_elements vs s]: [s] is the non-empty comma-separated list
    of the values [vs], each between white space; [json_members s] likewise
    for the members of an object. *)
Inductive json_value : string → Prop :=
  | jv_null : json_value "null"
  | jv_true : json_value "true"
  | jv_false : json_value "false"
  | jv_number s : json_number s → json_value s
  | jv_string s : json_string s → json_value s
  | jv_array_empty w : json_ws w → json_value ("[" +:+ w +:+ "]")
  | jv_array vs s : json_elements vs s → json_value ("[" +:+ s +:+ "]")
  | jv_object_empty w : json_ws w → json_value ("{" +:+ w +:+ "}")
  | jv_object s : json_members s → json_value ("{" +:+ s +:+ "}")
with json_elements : list string → string → Prop :=
  | je_one w1 v w2 :
      json_ws w1 → json_value v → json_ws w2 →
      json_elements [v] (w1 +:+ v +:+ w2)
  | je_cons w1 v w2 vs s :
      json_ws w1 → json_value v → json_ws w2 → json_elements vs s →
      json_elements (v :: vs) (w1 +:+ v +:+ w2 +:+ "," +:+ s)
with json_members : string → Prop :=
  | jm_one w1 k w2 w3 v w4 :
      json_ws w1 → json_string k → json_ws w2 →
      json_ws w3 → json_value v → json_ws w4 →
      json_members (w1 +:+ k +:+ w2 +:+ ":" +:+ w3 +:+ v +:+ w4)
  | jm_cons w1 k w2 w3 v w4 s :
      json_ws w1 → json_string k → json_ws w2 →
      json_ws w3 → json_value v → json_ws w4 → json_members s →
      json_members (w1 +:+ k +:+ w2 +:+ ":" +:+ w3 +:+ v +:+ w4 +:+ "," +:+ s).

(** A JSON text: a value between white space. *)
Definition json_text (s : string) : Prop :=
  ∃ w1 v w2, json_ws w1 ∧ json_value v ∧ json_ws w2 ∧ s = w1 +:+ v +:+ w2.

(** [s] is a JSON text that is an array, and [vs] are its elements in order. *)
Definition json_array_of (vs : list string) (s : string) : Prop :=
  ∃ w1 body w2,
    json_ws w1 ∧ json_ws w2 ∧ s = w1 +:+ "[" +:+ body +:+ "]" +:+ w2 ∧
    match vs with [] => json_ws body | _ :: _ => json_elements vs body end.

(** [json.dumps] of [None], [True] and [False]. *)
Definition dumps_option_bool (x : option bool) : string :=
  match x with
  | None => "null"
  | Some true => "true"
  | Some false => "false"
  end.

(** The text written after the first element: each further element behind
    a comma and a line break. *)
Fixpoint joined {A} (dumps : A → string) (items : list A) : string :=
  match items with
  | [] => ""
  | x :: xs => "," +:+ NL +:+ dumps x +:+ joined dumps xs
  end.

(** A decimal numeral is "0" or starts with another digit. *)
Definition numeral (s : string) : Prop :=
  s = "0" ∨ ∃ c s', s = String c s' ∧ c ≠ "0"%char.

(** A generator under which the second page view of a session is a
    product_detail view (the nineteenth value read is 50). *)
Definition rng_viewing : nat → nat :=
  λ i, if decide (i = 18%nat) then 50%nat else 0%nat.

(** The computation does not end with an exception from state [w]. *)
Definition no_raise {A} (m : M A) (w : world) : Prop := ∀ e, m w ≠ Raise e.

(** One product and a transaction target above any stock a product is
    created with; no session. *)
Definition cfg_sold_out : config := Config 1 1 1 1001 0 1 1 1.

(** A computation that leaves the heap and the generator as they are, and
    at most moves the cursor. *)
Definition keeps_heap {A} (m : M A) : Prop :=
  ∀ w a w', m w = Ok (a, w') → heap w' = heap w ∧ rng w' = rng w.

(** ** Vocabulary of the further properties *)

(** The value [random.random()] returns next from state [w], in hundredths. *)
Definition next_random (w : world) : Z := Z.of_nat (rng w (pos w)) `mod` 100.

(** All characters of [s] are lower-case hexadecimal digits. *)
Fixpoint hex_string (s : string) : Prop :=
  match s with
  | "" => True
  | String c s' => c ∈ hex_digits ∧ hex_string s'
  end.

(** The differences between consecutive elements of a list. *)
Fixpoint gaps (l : list Z) : list Z :=
  match l with
  | x :: (y :: _) as l' => (y - x) :: gaps l'
  | _ => []
  end.

(** The page types [choose_page_type] can return after a page of type
    [prev] (lines 232-241). *)
Definition allowed_after (prev pt : page_type) : Prop :=
  match prev with
  | cart => pt = checkout ∨ pt = product_detail ∨ pt = search
  | checkout => pt = checkout ∨ pt = cart ∨ pt = product_detail
  | _ => pt = search ∨ pt = category_listing ∨ pt = product_detail ∨ pt = cart
  end.

(** What the page-view loop records at index [i], given the list [slots]
    and the page view [before] it, if any. *)
Definition page_view_ok (slots : list Z) (i : nat) (before : option page_view)
    (pv : page_view) : Prop :=
  PageView.offset pv = default 0 (slots !! i) ∧
  PageView.view_duration pv = default 0 (slots !! S i) - default 0 (slots !! i) ∧
  (PageView.page_type_ pv = home ↔ i = 0%nat) ∧
  (is_Some (PageView.product_id pv) ↔ PageView.page_type_ pv = product_detail) ∧
  (is_Some (PageView.category_id pv) ↔
     PageView.page_type_ pv = category_listing ∨
     PageView.page_type_ pv = product_detail) ∧
  (∀ prev, before = Some prev →
     allowed_after (PageView.page_type_ prev) (PageView.page_type_ pv)).

(** One product with two units in stock; the generator [rng_viewing]. *)
Definition heap_viewing : list product := [stocked_product "prod_00000" 2].
Definition w_viewing : world := World rng_viewing 0 heap_viewing.

(** A product as [gen_products] builds it at index [prod_id] from
    [categories] (lines 133-177): its id, its category and subcategory, its
    stock and its prices, in cents. *)
Definition product_of_catalogue (categories : list category) (prod_id : nat)
    (p : product) : Prop :=
  Product.product_id p = fmt_id "prod_" 5 prod_id ∧
  (∃ cat sub, cat ∈ categories ∧ sub ∈ Category.subcategories cat ∧
     Product.category_id p = Category.category_id cat ∧
     Product.subcategory_id p = Subcategory.subcategory_id sub) ∧
  (Product.current_stock p = 0 ∨ 10 ≤ Product.current_stock p ≤ 1000) ∧
  (Product.is_active p = true → 10 ≤ Product.current_stock p) ∧
  (1 ≤ length (Product.price_history p) ≤ 3)%nat ∧
  (∃ first, head (Product.price_history p) = Some first ∧ 500 ≤ first ≤ 50000) ∧
  Forall (λ price, 0 < price) (Product.price_history p) ∧
  last (Product.price_history p) = Some (Product.base_price p).

(** A category as [gen_categories] builds it at index [cat_id] with
    [subcats_per_cat = (lo, hi)] (lines 112-125); margins are in hundredths. *)
Definition category_of_catalogue (lo hi : Z) (cat_id : nat) (c : category) : Prop :=
  Category.category_id c = fmt_id "cat_" 3 cat_id ∧
  (∃ n_sub, lo ≤ n_sub ≤ hi ∧
     length (Category.subcategories c) = Z.to_nat n_sub) ∧
  ∀ sub_id sub, Category.subcategories c !! sub_id = Some sub →
    Subcategory.subcategory_id sub
      = "sub_" +:+ zfill 3 (pretty cat_id) +:+ "_" +:+ zfill 2 (pretty sub_id) ∧
    10 ≤ Subcategory.profit_margin sub ≤ 40.

(** The stream [transactions.json] once the transactions [txs] are written
    to it (lines 541-542, 566-570, 583-586): the file so far and the flag
    [tx_first]. *)
Definition streamed (txs : list transaction) : file transaction * bool :=
  foldl write_tx ([Lit ("[" +:+ NL)], true) txs.

(** Three sessions in chunks of two, and one session with a chunk size of 0;
    one user, one product, one category, no transaction. *)
Definition cfg_three_sessions : config := Config 1 1 1 0 3 2 1 1.
Definition cfg_chunk_zero : config := Config 1 1 1 0 1 0 1 1.

(** A configuration without categories and one without users; one session
    each. *)
Definition cfg_no_category : config := Config 1 1 0 1 1 1 1 1.
Definition cfg_no_user : config := Config 0 1 1 0 1 1 1 1.

(** A product of the final products.json, [p'], against the product [p] as
    it was created: the same product, with a stock that is not negative and
    not above the stock at creation, and active only if it was created
    active and has stock left. *)
Definition restocked_never (p p' : product) : Prop :=
  same_product p p' ∧
  0 ≤ Product.current_stock p' ≤ Product.current_stock p ∧
  (Product.is_active p' = true →
     Product.is_active p = true ∧ 0 < Product.current_stock p').

(** The cart of the page-view loop, seen from the ledger [inv] and the heap
    [h]: no product twice, and every line is for a product viewed in the
    session and known to the ledger, at that product's base price, with a
    quantity that is 0 or between 1 and the product's stock. *)
Definition cart_ok (inv : Inventory.t) (h : list product) (viewed : gset string)
    (c : PyDict.t CartEntry.t) : Prop :=
  NoDup (PyDict.keys c) ∧
  ∀ pid entry, (pid, entry) ∈ PyDict.items c →
    pid ∈ viewed ∧
    ∃ p, Inventory.get inv h pid = Some p ∧
         0 ≤ CartEntry.quantity entry ∧
         (CartEntry.quantity entry = 0 ∨
          CartEntry.quantity entry ≤ Product.current_stock p) ∧
         CartEntry.price entry = Product.base_price p.

(** The transaction line a cart line gives when it is reserved (lines
    372-379). *)
Definition item_of_line (line : string * CartEntry.t) : item :=
  Item.mk line.1 (CartEntry.quantity line.2) (CartEntry.price line.2)
    (CartEntry.quantity line.2 * CartEntry.price line.2).

(** A line of an orphan transaction, seen from the heap [h] the transaction
    is generated in: one to three units of a product of the heap at its base
    price (lines 423-431). *)
Definition orphan_line (h : list product) (it : item) : Prop :=
  1 ≤ Item.quantity it ≤ 3 ∧
  Item.subtotal it = Item.quantity it * Item.unit_price it ∧
  ∃ p, p ∈ h ∧ Product.product_id p = Item.product_id it ∧
       Product.base_price p = Item.unit_price it.

(** Two users, two products and two categories; three sessions in chunks of
    two and one transaction. *)
Definition cfg_small : config := Config 2 2 2 1 3 2 1 2.

(** What a page view refers to, against the product list [h] and the
    categories [cats]: a product id is the id of a product of the list and
    the category id beside it is that product's category; a category id
    without a product id is the id of a category of [cats]. *)
Definition page_view_refs (h : list product) (cats : list category)
    (pv : page_view) : Prop :=
  match PageView.product_id pv with
  | Some pid =>
      ∃ p, p ∈ h ∧ Product.product_id p = pid ∧
           PageView.category_id pv = Some (Product.category_id p)
  | None =>
      ∀ cid, PageView.category_id pv = Some cid → cid ∈ Category.category_id <$> cats
  end.

(** The same for the variables of the page-view loop. *)
Definition views_refs (h : list product) (cats : list category) (st : views) : Prop :=
  (∀ pid, pid ∈ viewed_products st → pid ∈ Product.product_id <$> h) ∧
  (∀ pid, pid ∈ PyDict.keys (cart_contents st) → pid ∈ Product.product_id <$> h) ∧
  Forall (page_view_refs h cats) (page_views st).

(** The ids a session, a transaction and a product refer to are found in
    the lists of user ids [uids], product ids [pids] and category ids [cids],
    respectively in the categories [cats]. *)
Definition session_refs (uids pids cids : list string) (s : session) : Prop :=
  Session.user_id s ∈ uids ∧
  (∀ pid, pid ∈ Session.viewed_products s → pid ∈ pids) ∧
  (∀ pid, pid ∈ PyDict.keys (Session.cart_contents s) → pid ∈ pids) ∧
  ∀ pv, pv ∈ Session.page_views s →
    (∀ pid, PageView.product_id pv = Some pid → pid ∈ pids) ∧
    (∀ cid, PageView.category_id pv = Some cid → cid ∈ cids).

Definition transaction_refs (uids pids : list string) (t : transaction) : Prop :=
  Transaction.user_id t ∈ uids ∧
  ∀ it, it ∈ Transaction.items t → Item.product_id it ∈ pids.

Definition product_refs (cats : list category) (p : product) : Prop :=
  ∃ c, c ∈ cats ∧ Product.category_id p = Category.category_id c ∧
       Product.subcategory_id p
         ∈ Subcategory.subcategory_id <$> Category.subcategories c.

(** Every reference in the files of a run resolves in the files of the
    same run. *)
Definition references_resolve (out : outputs) : Prop :=
  let uids := User.user_id <$> written (users_json out) in
  let pids := Product.product_id <$> written (products_json out) in
  let cids := Category.category_id <$> written (categories_json out) in
  Forall (product_refs (written (categories_json out))) (written (products_json out)) ∧
  Forall (session_refs uids pids cids) (emitted_sessions out) ∧
  Forall (transaction_refs uids pids) (written (transactions_json out)).



(** The product of a cart line is known to the ledger and active in heap
    [h]. *)
Definition line_active (inv : Inventory.t) (h : list product)
    (line : string * CartEntry.t) : bool :=
  match Inventory.get inv h line.1 with
  | Some p => Product.is_active p
  | None => false
  end.

(** * Properties *)

(** ** Reasoning about the monad *)

Lemma bind_Ok {A B} (m : M A) (k : A → M B) w b w' :
  (m ≫= k) w = Ok (b, w') ↔ ∃ a w1, m w = Ok (a, w1) ∧ k a w1 = Ok (b, w').
Proof.
  unfold mbind, M_bind. split.
  - destruct (m w) as [[a w1]| |]; [eauto|discriminate..].
  - intros (a & w1 & -> & ?). done.
Qed.

Lemma ret_Ok {A} (a b : A) w w' : (mret a : M A) w = Ok (b, w') ↔ a = b ∧ w = w'.
Proof. unfold mret, M_ret. split; [by intros [= -> ->]|by intros [-> ->]]. Qed.

(** Splits a successful run into the successful runs of its parts. *)
Ltac inv_run :=
  repeat match goal with
  | H : (_ ≫= _) _ = Ok _ |- _ =>
      let a := fresh "a" in let w := fresh "w" in
      apply bind_Ok in H as (a & w & ? & H)
  | H : mret _ _ = Ok _ |- _ => apply ret_Ok in H as [? ?]
  | H : raise _ _ = Ok _ |- _ => discriminate H
  | H : timeout _ = Ok _ |- _ => discriminate H
  | H : get_heap _ = Ok _ |- _ => injection H as ? ?
  | H : set_heap _ _ = Ok _ |- _ => injection H as ?
  | H : draw _ = Ok _ |- _ => injection H as ? ?
  end.

Lemma keeps_heap_ret {A} (a : A) : keeps_heap (mret a : M A).
Proof. intros w b w' [_ <-]%ret_Ok. done. Qed.

Lemma keeps_heap_bind {A B} (m : M A) (k : A → M B) :
  keeps_heap m → (∀ a, keeps_heap (k a)) → keeps_heap (m ≫= k).
Proof.
  intros Hm Hk w b w' (a & w1 & H1 & H2)%bind_Ok.
  destruct (Hm _ _ _ H1) as [E1 E2], (Hk _ _ _ _ H2) as [E3 E4].
  split; congruence.
Qed.

Lemma keeps_heap_raise {A} e : keeps_heap (@raise A e).
Proof. intros w a w' [=]. Qed.

Lemma keeps_heap_timeout {A} : keeps_heap (@timeout A).
Proof. intros w a w' [=]. Qed.

Lemma keeps_heap_draw : keeps_heap draw.
Proof. intros w a w' [= _ <-]. done. Qed.

Lemma keeps_heap_get_heap : keeps_heap get_heap.
Proof. intros w a w' [= _ <-]. done. Qed.

Lemma keeps_heap_for_each {A S} (xs : list A) (body : A → S → M S) acc :
  (∀ x acc, keeps_heap (body x acc)) → keeps_heap (for_each xs body acc).
Proof.
  intros Hbody. revert acc. induction xs as [|x xs IH]; intros acc; simpl.
  - apply keeps_heap_ret.
  - apply keeps_heap_bind; auto.
Qed.

Create HintDb keeps.
#[local] Hint Resolve keeps_heap_ret keeps_heap_raise keeps_heap_timeout
  keeps_heap_draw keeps_heap_get_heap : keeps.

Ltac keeps_step :=
  match goal with
  | |- keeps_heap (_ ≫= _) => apply keeps_heap_bind; [|intros ?]
  | |- keeps_heap (for_each _ _ _) => apply keeps_heap_for_each; intros ? ?
  | |- keeps_heap (if ?c then _ else _) => destruct c
  | |- keeps_heap (match ?c with _ => _ end) => destruct c
  | |- keeps_heap (let '(_, _) := ?c in _) => destruct c
  | |- keeps_heap _ => solve [auto with keeps]
  end.
Ltac keeps := repeat keeps_step.

Lemma keeps_heap_random_random : keeps_heap random_random.
Proof. unfold random_random. keeps. Qed.
Lemma keeps_heap_random_randint a b : keeps_heap (random_randint a b).
Proof. unfold random_randint. keeps. Qed.
Lemma keeps_heap_random_uniform a b : keeps_heap (random_uniform a b).
Proof. unfold random_uniform. keeps. Qed.
Lemma keeps_heap_random_choice {A} (xs : list A) : keeps_heap (random_choice xs).
Proof. unfold random_choice. keeps. Qed.
#[local] Hint Resolve keeps_heap_random_random keeps_heap_random_randint
  keeps_heap_random_uniform keeps_heap_random_choice : keeps.

Lemma keeps_heap_rand_hex n : keeps_heap (rand_hex n).
Proof. induction n; simpl; keeps. Qed.
Lemma keeps_heap_weighted_choice {A} (cs : list (A * Z)) : keeps_heap (weighted_choice cs).
Proof. unfold weighted_choice. keeps. Qed.
#[local] Hint Resolve keeps_heap_rand_hex keeps_heap_weighted_choice : keeps.

Lemma keeps_heap_make_page_flow d : keeps_heap (make_page_flow d).
Proof. unfold make_page_flow. keeps. Qed.
Lemma keeps_heap_choose_page_type i prev : keeps_heap (choose_page_type i prev).
Proof. unfold choose_page_type. keeps. Qed.
Lemma keeps_heap_try_picks n : keeps_heap (try_picks n).
Proof. induction n; simpl; keeps. Qed.
#[local] Hint Resolve keeps_heap_make_page_flow keeps_heap_choose_page_type
  keeps_heap_try_picks : keeps.

Lemma keeps_heap_choose_product : keeps_heap choose_product.
Proof. unfold choose_product. keeps. Qed.
Lemma keeps_heap_add_to_cart inv chosen c : keeps_heap (add_to_cart inv chosen c).
Proof. unfold add_to_cart. keeps. Qed.
#[local] Hint Resolve keeps_heap_choose_product keeps_heap_add_to_cart : keeps.

Lemma keeps_heap_page_view_step cats inv slots i st :
  keeps_heap (page_view_step cats inv slots i st).
Proof. unfold page_view_step. keeps. Qed.
Lemma keeps_heap_draw_discount s : keeps_heap (draw_discount s).
Proof. unfold draw_discount. keeps. Qed.
#[local] Hint Resolve keeps_heap_page_view_step keeps_heap_draw_discount : keeps.

Lemma keeps_heap_make_transaction sid u items s :
  keeps_heap (make_transaction sid u items s).
Proof. unfold make_transaction. keeps. Qed.
#[local] Hint Resolve keeps_heap_make_transaction : keeps.

(** ** The inventory ledger *)

Lemma reserve_fail inv pid qty w :
  Inventory.in_stock_at inv (heap w) pid qty = false →
  Inventory.reserve inv pid qty w = Ok (false, w).
Proof.
  intros H. unfold Inventory.reserve, Inventory.in_stock, mbind, M_bind, get_heap, mret, M_ret.
  by rewrite H.
Qed.

Lemma reserve_success inv pid qty w l p :
  reservable inv (heap w) pid qty l p →
  let s := Product.current_stock p - qty in
  let p' := if decide (s ≤ 0)
            then Inventory.set_active (Inventory.set_stock p 0) false
            else Inventory.set_stock p s in
  Inventory.reserve inv pid qty w
  = Ok (true, World (rng w) (pos w) (<[l := p']> (heap w))).
Proof.
  intros (Hl & Hp & Hact & Hqty) s p'.
  unfold Inventory.reserve, Inventory.in_stock, Inventory.in_stock_at, Inventory.get,
    mbind, M_bind, get_heap, set_heap, mret, M_ret.
  rewrite Hl. simpl. rewrite Hp, Hact, bool_decide_true by done. simpl.
  rewrite Hp. subst p' s. by destruct (decide _).
Qed.

Lemma in_stock_at_true inv h pid qty :
  Inventory.in_stock_at inv h pid qty = true → ∃ l p, reservable inv h pid qty l p.
Proof.
  unfold Inventory.in_stock_at, Inventory.get, reservable.
  destruct (PyDict.get _ pid) as [l|] eqn:Hl; simpl; [|done].
  destruct (h !! l) as [p|] eqn:Hp; [|done].
  intros [Hq%bool_decide_eq_true Ha]%andb_true_iff. eauto 10.
Qed.

(** What a call of [reserve] does, whatever its outcome. *)
Lemma reserve_cases inv pid qty w b w' :
  Inventory.reserve inv pid qty w = Ok (b, w') →
  (b = false ∧ w' = w) ∨
  (b = true ∧ ∃ l p, reservable inv (heap w) pid qty l p ∧
     w' = World (rng w) (pos w)
            (<[l := if decide (Product.current_stock p - qty ≤ 0)
                    then Inventory.set_active (Inventory.set_stock p 0) false
                    else Inventory.set_stock p (Product.current_stock p - qty)]>
               (heap w))).
Proof.
  intros H. destruct (Inventory.in_stock_at inv (heap w) pid qty) eqn:E.
  - apply in_stock_at_true in E as (l & p & Hr). right.
    rewrite (reserve_success _ _ _ _ _ _ Hr) in H. injection H as <- <-. eauto.
  - rewrite reserve_fail in H by done. injection H as <- <-. by left.
Qed.

(** C3. [Inventory.reserve(pid, qty)]: when [pid] is in the ledger and its
    product is active with [current_stock >= qty], the call returns true,
    takes exactly [qty] off that product's stock and leaves it inactive exactly
    when the stock left is 0; in every other case it returns false and changes
    nothing. A call never makes a stock negative. *)
Theorem reserve_contract (inv : Inventory.t) (pid : string) (qty : Z) (w : world) :
  (∀ l p, reservable inv (heap w) pid qty l p →
     ∃ p', Inventory.reserve inv pid qty w
           = Ok (true, World (rng w) (pos w) (<[l := p']> (heap w))) ∧
       Product.current_stock p' = Product.current_stock p - qty ∧
       (Product.is_active p' = false ↔ Product.current_stock p' = 0) ∧
       same_product p p') ∧
  ((¬ ∃ l p, reservable inv (heap w) pid qty l p) →
     Inventory.reserve inv pid qty w = Ok (false, w)) ∧
  (∀ b w', Inventory.reserve inv pid qty w = Ok (b, w') →
     ∀ l p', heap w' !! l = Some p' → Product.current_stock p' < 0 →
       heap w !! l = Some p').
Proof.
  split_and!.
  - intros l p Hr. pose proof Hr as (Hl & Hp & Hact & Hqty).
    eexists. split; [by apply reserve_success|].
    destruct (decide (Product.current_stock p - qty ≤ 0)); simpl.
    + split_and!; [lia|done|done].
    + split_and!; [done| |done]. rewrite Hact. split; [done|lia].
  - intros Hno. apply reserve_fail.
    destruct (Inventory.in_stock_at _ _ _ _) eqn:E; [|done].
    apply in_stock_at_true in E. by destruct Hno.
  - intros b w' [[_ ->]|(_ & l & p & (Hl & Hp & Hact & Hqty) & ->)]%reserve_cases l' p' Hp' Hneg;
      [done|]. simpl in Hp'.
    destruct (decide (l = l')) as [<-|Hne].
    + rewrite list_lookup_insert_eq in Hp' by (by eapply lookup_lt_Some).
      injection Hp' as <-. destruct (decide _); simpl in Hneg; lia.
    + by rewrite list_lookup_insert_ne in Hp'.
Qed.

(** ** The product_detail pick *)

Lemma advance_0 w : advance w 0 = w.
Proof. destruct w. unfold advance. simpl. by rewrite Nat.add_0_r. Qed.

Lemma advance_advance w j k : advance (advance w j) k = advance w (j + k).
Proof. unfold advance. simpl. f_equal. lia. Qed.

Lemma cand_advance w i : cand (advance w 1) i = cand w (S i).
Proof. unfold cand, advance. simpl. do 3 f_equal. lia. Qed.

Lemma random_choice_products w c :
  cand w 0 = Some c → random_choice (heap w) w = Ok (c, advance w 1).
Proof.
  unfold cand, random_choice, advance. rewrite Nat.add_0_r. intros Hc.
  destruct (heap w) as [|x0 xs] eqn:Hh; [done|].
  unfold mbind, M_bind, draw, mret, M_ret. rewrite Hh, Hc. simpl.
  by rewrite Nat.add_1_r.
Qed.

Lemma cand_is_Some w i : heap w ≠ [] → is_Some (cand w i).
Proof.
  intros Hne. apply lookup_lt_is_Some_2, Nat.mod_upper_bound.
  by destruct (heap w).
Qed.

Lemma try_picks_step n w c :
  cand w 0 = Some c →
  try_picks (S n) w
  = if available c then Ok (Some c, advance w 1) else try_picks n (advance w 1).
Proof.
  intros Hc. simpl. unfold mbind at 1, M_bind at 1, get_heap.
  unfold mbind, M_bind. rewrite (random_choice_products _ _ Hc).
  by destruct (available c).
Qed.

Lemma try_picks_found n w k c :
  (k < n)%nat → cand w k = Some c → available c = true →
  (∀ i c', (i < k)%nat → cand w i = Some c' → available c' = false) →
  try_picks n w = Ok (Some c, advance w (S k)).
Proof.
  revert w k. induction n as [|n IH]; intros w k Hk Hc Hav Hbefore; [lia|].
  destruct k as [|k].
  - by rewrite (try_picks_step _ _ _ Hc), Hav.
  - destruct (cand_is_Some w 0) as [c0 Hc0].
    { intros Hnil. unfold cand in Hc. by rewrite Hnil in Hc. }
    rewrite (try_picks_step _ _ _ Hc0), (Hbefore 0%nat c0) by (done || lia).
    rewrite (IH (advance w 1) k), advance_advance; [done|lia| |done|].
    + by rewrite cand_advance.
    + intros i c' Hi. rewrite cand_advance. apply Hbefore. lia.
Qed.

Lemma try_picks_none n w :
  heap w ≠ [] →
  (∀ i c', (i < n)%nat → cand w i = Some c' → available c' = false) →
  try_picks n w = Ok (None, advance w n).
Proof.
  revert w. induction n as [|n IH]; intros w Hne Hall.
  - by rewrite advance_0.
  - destruct (cand_is_Some w 0 Hne) as [c0 Hc0].
    rewrite (try_picks_step _ _ _ Hc0), (Hall 0%nat c0) by (done || lia).
    rewrite IH, advance_advance; [done|done|].
    intros i c' Hi. rewrite cand_advance. apply Hall. lia.
Qed.

(** C9, as the code has it. For a non-empty product list, the
    product_detail pick draws up to five products and records the first one
    that is active and in stock; when none of the five is, it makes a sixth
    draw and records that one unconditionally. *)
Theorem choose_product_draws (w : world) :
  heap w ≠ [] →
  (∀ k c, (k < 5)%nat → cand w k = Some c → available c = true →
     (∀ i c', (i < k)%nat → cand w i = Some c' → available c' = false) →
     choose_product w = Ok (c, advance w (S k))) ∧
  (∀ c, (∀ i c', (i < 5)%nat → cand w i = Some c' → available c' = false) →
     cand w 5 = Some c →
     choose_product w = Ok (c, advance w 6)).
Proof.
  intros Hne. split.
  - intros k c Hk Hc Hav Hbefore. unfold choose_product, mbind, M_bind.
    by rewrite (try_picks_found 5 w k c).
  - intros c Hall Hc. unfold choose_product, mbind, M_bind.
    rewrite try_picks_none by done. unfold get_heap. simpl.
    rewrite <-cand_advance in Hc.
    change (heap w) with (heap (advance w 5)) at 1.
    replace (cand (advance w 1) 4) with (cand (advance w 5) 0) in Hc.
    + by rewrite (random_choice_products _ _ Hc), advance_advance.
    + unfold cand, advance. simpl. do 3 f_equal. lia.
Qed.

Lemma choose_product_draws_witness :
  choose_product w_sixth_draw
  = Ok (inactive_product "prod_00001", advance w_sixth_draw 6).
Proof.
  apply (choose_product_draws w_sixth_draw); [done| |reflexivity].
  intros i c' Hi. do 5 (destruct i as [|i]; [by intros [= <-]|]). lia.
Defined.

(** C9, as the specification words it, fails: with two inactive products
    the pick records the sixth draw, not the fifth. *)
Lemma last_of_five_recorded_fails : ¬ last_of_five_recorded.
Proof.
  intros H.
  destruct (H w_sixth_draw (inactive_product "prod_00001") (advance w_sixth_draw 6))
    as [Hc _]; [by vm_compute| |by vm_compute in Hc].
  intros i c' Hi. do 5 (destruct i as [|i]; [by intros [= <-]|]). lia.
Qed.

(** ** Page views of a session *)

(** C6 at a failing input. The duration drawn is 30, [n_views] is 4 and
    the three cut points drawn are all 1: the set of points is {0, 1, 30} and
    the session has two page views, not four. *)
Theorem page_views_fewer_than_four :
  make_page_flow 30 w_zero = Ok ([0; 1; 30], advance w_zero 4) ∧
  ∃ s tx w',
    session_record first_user one_category (Inventory.init (heap w_zero)) w_zero
    = Ok ((s, tx), w') ∧
    Session.duration_seconds s = 30 ∧
    PageView.view_duration <$> Session.page_views s = [1; 29] ∧
    length (Session.page_views s) = 2%nat.
Proof. split; [by vm_compute|]. do 3 eexists. by vm_compute. Qed.

Lemma for_each_inv {A S} (I : S → world → Prop) (xs : list A)
    (body : A → S → M S) acc w acc' w' :
  I acc w →
  (∀ x acc w acc' w', x ∈ xs → I acc w → body x acc w = Ok (acc', w') → I acc' w') →
  for_each xs body acc w = Ok (acc', w') → I acc' w'.
Proof.
  revert acc w. induction xs as [|x xs IH]; intros acc w HI Hbody H; simpl in H.
  - by apply ret_Ok in H as [<- <-].
  - apply bind_Ok in H as (acc1 & w1 & H1 & H2).
    eapply IH; [|intros; eapply Hbody; [by right|..]|]; [|done..].
    eapply Hbody; [by left|done..].
Qed.

Lemma elem_of_detail_products pid pvs :
  pid ∈ detail_products pvs ↔
  ∃ pv, pv ∈ pvs ∧ PageView.page_type_ pv = product_detail ∧
        PageView.product_id pv = Some pid.
Proof.
  unfold detail_products. rewrite list_elem_of_omap. split.
  - intros (pv & Hpv & H). exists pv. by destruct (decide _).
  - intros (pv & Hpv & Ht & Hp). exists pv. by rewrite decide_True.
Qed.

Lemma detail_products_app pvs1 pvs2 :
  detail_products (pvs1 ++ pvs2) = detail_products pvs1 ++ detail_products pvs2.
Proof. apply omap_app. Qed.

Lemma page_view_step_viewed cats inv slots i st w st' w' :
  (∀ pid, pid ∈ viewed_products st ↔ pid ∈ detail_products (page_views st)) →
  page_view_step cats inv slots i st w = Ok (st', w') →
  ∀ pid, pid ∈ viewed_products st' ↔ pid ∈ detail_products (page_views st').
Proof.
  intros HI H pid. unfold page_view_step in H.
  apply bind_Ok in H as (ptype & w1 & _ & H).
  apply bind_Ok in H as ([[[product_id category_id] viewed] new_cart] & w2 & Hbr & H).
  apply ret_Ok in H as [<- _]. simpl.
  rewrite detail_products_app. unfold detail_products at 2. simpl.
  destruct ptype; inv_run; simplify_eq/=; rewrite ?app_nil_r; try apply HI.
  rewrite elem_of_union, elem_of_singleton, elem_of_app, list_elem_of_singleton.
  by rewrite HI.
Qed.

Lemma session_record_views u cats inv w s tx w' :
  session_record u cats inv w = Ok ((s, tx), w') →
  ∃ st, Session.viewed_products s = sorted_str (viewed_products st) ∧
        Session.page_views s = page_views st ∧
        ∀ pid, pid ∈ viewed_products st ↔ pid ∈ detail_products (page_views st).
Proof.
  intros H. unfold session_record in H.
  do 6 (apply bind_Ok in H as (? & ? & _ & H)).
  apply bind_Ok in H as (st & w1 & Hloop & H).
  exists st. split_and!.
  3:{ eapply (for_each_inv (λ st _, ∀ pid, pid ∈ viewed_products st ↔
                                     pid ∈ detail_products (page_views st)));
        [|intros ????? _; apply page_view_step_viewed|exact Hloop].
      intros pid. simpl. unfold detail_products. simpl. set_solver. }
  all: do 2 (apply bind_Ok in H as (? & ? & _ & H));
    destruct (_ && _); inv_run; [|by simplify_eq];
    repeat case_match; inv_run; by simplify_eq.
Qed.

(** C10. [viewed_products] of an emitted session is sorted in ascending
    (string) order, has no duplicates, and holds exactly the product ids
    recorded on the session's product_detail page views. *)
Theorem viewed_products_sorted_exact (u : user) (cats : list category)
    (inv : Inventory.t) (w : world) (s : session) (tx : option transaction)
    (w' : world) :
  session_record u cats inv w = Ok ((s, tx), w') →
  StronglySorted String.le (Session.viewed_products s) ∧
  NoDup (Session.viewed_products s) ∧
  ∀ pid, pid ∈ Session.viewed_products s ↔
    ∃ pv, pv ∈ Session.page_views s ∧
          PageView.page_type_ pv = product_detail ∧
          PageView.product_id pv = Some pid.
Proof.
  intros (st & -> & -> & Hst)%session_record_views. unfold sorted_str. split_and!.
  - apply StronglySorted_merge_sort; apply _.
  - rewrite merge_sort_Permutation. apply NoDup_elements.
  - intros pid. rewrite merge_sort_Permutation, elem_of_elements, Hst.
    apply elem_of_detail_products.
Qed.

Lemma viewed_products_sorted_exact_witness :
  ∃ s tx w',
    session_record first_user one_category
      (Inventory.init [stocked_product "prod_00000" 2])
      (World rng_viewing 0 [stocked_product "prod_00000" 2]) = Ok ((s, tx), w') ∧
    StronglySorted String.le (Session.viewed_products s) ∧
    NoDup (Session.viewed_products s) ∧
    ∀ pid, pid ∈ Session.viewed_products s ↔
      ∃ pv, pv ∈ Session.page_views s ∧
            PageView.page_type_ pv = product_detail ∧
            PageView.product_id pv = Some pid.
Proof.
  destruct (session_record first_user one_category
              (Inventory.init [stocked_product "prod_00000" 2])
              (World rng_viewing 0 [stocked_product "prod_00000" 2]))
    as [[[s tx] w']| |] eqn:E; [|by vm_compute in E..].
  exists s, tx, w'. split; [done|].
  exact (viewed_products_sorted_exact _ _ _ _ _ _ _ E).
Defined.

(** ** Files *)

Lemma written_app {A} (f g : file A) : written (f ++ g) = written f ++ written g.
Proof. apply omap_app. Qed.

Lemma foldl_write_item {A} (items : list A) (st : writer A) :
  written (wr_file (foldl write_item st items)) = written (wr_file st) ++ items ∧
  wr_count (foldl write_item st items) = wr_count st + Z.of_nat (length items).
Proof.
  revert st. induction items as [|x items IH]; intros st; simpl.
  - rewrite app_nil_r. split; [done|lia].
  - destruct (IH (write_item st x)) as [-> ->]. simpl.
    destruct (wr_first st); rewrite !written_app; simpl;
      rewrite ?app_nil_r, <-?app_assoc; split; (done || lia).
Qed.

Lemma written_write_json_array {A} (items : list A) :
  written (write_json_array items).1 = items ∧
  (write_json_array items).2 = Z.of_nat (length items).
Proof.
  unfold write_json_array. simpl. rewrite written_app.
  destruct (foldl_write_item items (Writer [Lit ("[" +:+ NL)] true 0)) as [-> ->].
  simpl. by rewrite app_nil_r.
Qed.

Lemma written_write_tx f tx : written (write_tx f tx).1 = written f.1 ++ [tx].
Proof.
  unfold write_tx. destruct f as [f []]; simpl; rewrite !written_app; simpl;
    by rewrite ?app_nil_r.
Qed.

Lemma written_foldl_write_tx buf f :
  written (foldl write_tx f buf).1 = written f.1 ++ buf.
Proof.
  revert f. induction buf as [|tx buf IH]; intros f; simpl.
  - by rewrite app_nil_r.
  - by rewrite IH, written_write_tx, <-app_assoc.
Qed.

(** ** Invariants of the loops of [main] *)

Lemma iter_sessions_for_chunk_inv
    (I : list session * list transaction * Z → world → Prop)
    users cats inv tx_target n tx_written w acc' w' :
  I ([], [], tx_written) w →
  (∀ ys buf txw w0 u w1 s tx w2,
     I (ys, buf, txw) w0 →
     random_choice users w0 = Ok (u, w1) →
     session_record u cats inv w1 = Ok ((s, tx), w2) →
     I (match tx with
        | Some t => if decide (txw < tx_target)
                    then (ys ++ [s], buf ++ [t], txw + 1) else (ys ++ [s], buf, txw)
        | None => (ys ++ [s], buf, txw)
        end) w2) →
  iter_sessions_for_chunk users cats inv tx_target n tx_written w = Ok (acc', w') →
  I acc' w'.
Proof.
  intros H0 Hstep. unfold iter_sessions_for_chunk.
  apply for_each_inv; [done|].
  intros k [[ys buf] txw] w0 acc1 w1 _ HI H. unfold iter_sessions_step in H.
  apply bind_Ok in H as (u & w2 & Hu & H).
  apply bind_Ok in H as ([s tx] & w3 & Hs & H).
  specialize (Hstep _ _ _ _ _ _ _ _ _ HI Hu Hs).
  destruct tx as [t|]; [destruct (decide _)|]; by apply ret_Ok in H as [<- <-].
Qed.

Lemma session_chunks_inv (I : stream → world → Prop)
    fuel users cats inv tx_target sess_target chunk_size st w st' w' :
  I st w →
  (∀ st w ys buf txw w1,
     I st w → sess_written st < sess_target →
     iter_sessions_for_chunk users cats inv tx_target
       (Z.min chunk_size (sess_target - sess_written st)) (tx_written st) w
     = Ok ((ys, buf, txw), w1) →
     I (Stream (foldl write_tx (txf st, tx_first st) buf).1
          (foldl write_tx (txf st, tx_first st) buf).2 txw
          (sess_written st + (write_json_array ys).2) (chunk_idx st + 1)
          (sessions_files st ++ [(write_json_array ys).1])) w1) →
  session_chunks fuel users cats inv tx_target sess_target chunk_size st w
  = Ok (st', w') →
  I st' w'.
Proof.
  intros HI Hstep. revert st w HI.
  induction fuel as [|fuel IH]; intros st w HI H; simpl in H;
    destruct (decide _); try done; try by apply ret_Ok in H as [<- <-].
  apply bind_Ok in H as ([[ys buf] txw] & w1 & Hchunk & H).
  specialize (Hstep _ _ _ _ _ _ HI ltac:(done) Hchunk).
  destruct (foldl write_tx _ buf) as [f b].
  eapply IH; [exact Hstep|exact H].
Qed.

Lemma orphan_transactions_inv (I : stream → world → Prop)
    fuel users inv tx_target st w st' w' :
  I st w →
  (∀ st w u w1 w2,
     I st w → tx_written st < tx_target →
     random_choice users w = Ok (u, w1) →
     gen_orphan_transaction u inv w1 = Ok (None, w2) → I st w2) →
  (∀ st w u w1 tx w2,
     I st w → tx_written st < tx_target →
     random_choice users w = Ok (u, w1) →
     gen_orphan_transaction u inv w1 = Ok (Some tx, w2) →
     I (Stream (write_tx (txf st, tx_first st) tx).1 false (tx_written st + 1)
          (sess_written st) (chunk_idx st) (sessions_files st)) w2) →
  orphan_transactions fuel users inv tx_target st w = Ok (st', w') →
  I st' w'.
Proof.
  intros HI Hnone Hsome. revert st w HI.
  induction fuel as [|fuel IH]; intros st w HI H; simpl in H;
    destruct (decide _); try done; try by apply ret_Ok in H as [<- <-].
  apply bind_Ok in H as (u & w1 & Hu & H).
  apply bind_Ok in H as ([tx|] & w2 & Htx & H).
  - eapply IH; [|done]. by eapply Hsome.
  - eapply IH; [|done]. by eapply Hnone.
Qed.

(** A successful run of [main], phase by phase. *)
Lemma main_Ok fuel args w out w' :
  main fuel args w = Ok (out, w') →
  ∃ cats w1 ps w2 st1 w3 st2,
    gen_categories (num_categories args) (subcats_min args, subcats_max args) w
      = Ok (cats, w1) ∧
    gen_products cats (num_products args) w1 = Ok (ps, w2) ∧
    session_chunks fuel (gen_users (num_users args)) cats (Inventory.init ps)
      (num_transactions args) (num_sessions args) (sessions_chunk_size args)
      (Stream [Lit ("[" +:+ NL)] true 0 0 0 []) (World (rng w2) (pos w2) ps)
      = Ok (st1, w3) ∧
    orphan_transactions fuel (gen_users (num_users args)) (Inventory.init ps)
      (num_transactions args) st1 w3 = Ok (st2, w') ∧
    sessions_json out = sessions_files st2 ∧
    transactions_json out = txf st2 ++ [Lit (NL +:+ "]" +:+ NL)] ∧
    report_sessions out = sess_written st2 ∧
    report_transactions out = tx_written st2 ∧
    written (products_json out)
      = omap (λ l, heap w' !! l) (PyDict.values (Inventory.products (Inventory.init ps))).
Proof.
  intros H. unfold main in H.
  apply bind_Ok in H as (cats & w1 & Hcats & H).
  apply bind_Ok in H as (ps & w2 & Hps & H).
  apply bind_Ok in H as ([] & w2' & Hset & H). injection Hset as <-.
  apply bind_Ok in H as (st1 & w3 & Hsess & H).
  apply bind_Ok in H as (st2 & w4 & Horph & H).
  apply bind_Ok in H as (h & w5 & Hh & H). injection Hh as <- <-.
  apply ret_Ok in H as [<- <-].
  exists cats, w1, ps, w2, st1, w3, st2. split_and!; try done.
  apply written_write_json_array.
Qed.

(** ** Conversion status and transactions *)

Lemma make_transaction_fields sid u items subtotal w t w' :
  make_transaction sid u items subtotal w = Ok (t, w') →
  Transaction.session_id t = sid ∧ Transaction.items t = items.
Proof. unfold make_transaction. intros H. inv_run. by simplify_eq. Qed.

Lemma session_record_conversion u cats inv w s tx w' :
  session_record u cats inv w = Ok ((s, tx), w') →
  (Session.conversion_status s = converted ↔ is_Some tx) ∧
  (∀ t, tx = Some t → Transaction.session_id t = Some (Session.session_id s)).
Proof.
  intros H. unfold session_record in H.
  do 9 (apply bind_Ok in H as (? & ? & _ & H)).
  destruct (_ && _) eqn:Hconv.
  - apply bind_Ok in H as ([items subtotal] & ? & _ & H).
    destruct items as [|it items].
    + apply ret_Ok in H as [[= <- <-] _]. simpl. split; [|done].
      split; [done|by intros []].
    + apply bind_Ok in H as (t & ? & [Hsid _]%make_transaction_fields & H).
      apply ret_Ok in H as [[= <- <-] _]. simpl.
      split; [by split|by intros ? [= <-]].
  - apply ret_Ok in H as [[= <- <-] _]. simpl. split; [|done].
    split; [by destruct (existsb positive_quantity _)|by intros [? [=]]].
Qed.

Lemma converted_ids_app ss1 ss2 :
  converted_ids (ss1 ++ ss2) = converted_ids ss1 ++ converted_ids ss2.
Proof. unfold converted_ids. by rewrite filter_app, fmap_app. Qed.

Lemma converted_ids_snoc ss s :
  converted_ids (ss ++ [s])
  = converted_ids ss ++
    (if decide (Session.conversion_status s = converted)
     then [Session.session_id s] else []).
Proof.
  rewrite converted_ids_app. f_equal. unfold converted_ids.
  rewrite filter_cons, filter_nil. by destruct (decide _).
Qed.

(** The transactions buffered by a chunk are those of its first converted
    sessions, as many as the transaction target still allows. *)
Lemma iter_sessions_for_chunk_buffer users cats inv tx_target n tx_written w
    ys buf txw w' :
  iter_sessions_for_chunk users cats inv tx_target n tx_written w
    = Ok ((ys, buf, txw), w') →
  Transaction.session_id <$> buf
    = Some <$> take (Z.to_nat (tx_target - tx_written)) (converted_ids ys) ∧
  txw = tx_written + Z.of_nat (length buf).
Proof.
  intros H.
  apply (iter_sessions_for_chunk_inv (λ acc _,
    Transaction.session_id <$> acc.1.2
      = Some <$> take (Z.to_nat (tx_target - tx_written)) (converted_ids acc.1.1) ∧
    acc.2 = tx_written + Z.of_nat (length acc.1.2))) in H; [done| |].
  { simpl. change (converted_ids []) with (@nil string).
    split; [by rewrite take_nil|lia]. }
  clear. intros ys buf txw w0 u w1 s tx w2 [Hbuf Htxw] _ Hs. simpl in Hbuf, Htxw.
  subst txw.
  apply session_record_conversion in Hs as [Hconv Hsid].
  assert (length buf = length (take (Z.to_nat (tx_target - tx_written)) (converted_ids ys)))
    as Hlen by (by rewrite <-(length_fmap Transaction.session_id), Hbuf, length_fmap).
  rewrite length_take in Hlen.
  destruct tx as [t|]; [destruct (decide _) as [Hlt|Hge]|]; simpl;
    rewrite converted_ids_snoc.
  - rewrite decide_True by (by apply Hconv).
    rewrite fmap_app, Hbuf, length_app. simpl. split; [|lia].
    rewrite (Hsid t eq_refl), !take_ge by (rewrite ?length_app; simpl; lia).
    by rewrite fmap_app.
  - rewrite decide_True by (by apply Hconv).
    split; [|done]. rewrite Hbuf, take_app_le by lia. done.
  - rewrite decide_False, app_nil_r; [done|].
    intros Hc%Hconv. by destruct Hc.
Qed.

Lemma gen_orphan_transaction_fields u inv w t w' :
  gen_orphan_transaction u inv w = Ok (Some t, w') →
  Transaction.session_id t = None.
Proof.
  unfold gen_orphan_transaction. intros H.
  apply bind_Ok in H as (n_items & ? & _ & H).
  apply bind_Ok in H as ([items subtotal] & ? & _ & H).
  destruct items; [by apply ret_Ok in H as [[=] _]|].
  apply bind_Ok in H as (t' & ? & [Hsid _]%make_transaction_fields & H).
  by apply ret_Ok in H as [[= <-] _].
Qed.

Lemma omap_fmap_Some {A B} (f : A → option B) (l : list A) (k : list B) :
  f <$> l = Some <$> k → omap f l = k.
Proof.
  revert k. induction l as [|x l IH]; intros [|y k] [=]; simpl; [done|].
  rewrite H0. simpl. f_equal. by apply IH.
Qed.

Lemma session_chunks_transactions fuel users cats inv tx_target sess_target
    chunk_size w st' w' :
  session_chunks fuel users cats inv tx_target sess_target chunk_size
    (Stream [Lit ("[" +:+ NL)] true 0 0 0 []) w = Ok (st', w') →
  Transaction.session_id <$> written (txf st')
    = Some <$> take (Z.to_nat tx_target)
                 (converted_ids (concat (written <$> sessions_files st'))) ∧
  tx_written st' = Z.of_nat (length (written (txf st'))).
Proof.
  apply (session_chunks_inv (λ st _,
    Transaction.session_id <$> written (txf st)
      = Some <$> take (Z.to_nat tx_target)
                   (converted_ids (concat (written <$> sessions_files st))) ∧
    tx_written st = Z.of_nat (length (written (txf st))))).
  { simpl. change (converted_ids []) with (@nil string). by rewrite take_nil. }
  clear. intros st w ys buf txw w1 [HT Hn] _ [Hbuf ->]%iter_sessions_for_chunk_buffer.
  pose proof (written_write_json_array ys) as [Hw _].
  destruct (write_json_array ys) as [sf wrote]. simpl in Hw.
  simpl. rewrite written_foldl_write_tx. simpl.
  rewrite !fmap_app, concat_app, converted_ids_app. simpl.
  rewrite app_nil_r, Hw.
  assert (length (written (txf st))
          = length (take (Z.to_nat tx_target)
              (converted_ids (concat (written <$> sessions_files st))))) as Hlen
    by (by rewrite <-(length_fmap Transaction.session_id), HT, length_fmap).
  rewrite length_take in Hlen.
  split; [|rewrite length_app; lia].
  rewrite HT, Hbuf, take_app, fmap_app. do 3 f_equal. lia.
Qed.

Lemma orphan_transactions_linked fuel users inv tx_target st w st' w' :
  orphan_transactions fuel users inv tx_target st w = Ok (st', w') →
  omap Transaction.session_id (written (txf st'))
    = omap Transaction.session_id (written (txf st)) ∧
  sessions_files st' = sessions_files st.
Proof.
  apply (orphan_transactions_inv (λ st' _,
    omap Transaction.session_id (written (txf st'))
      = omap Transaction.session_id (written (txf st)) ∧
    sessions_files st' = sessions_files st)); [done|done|].
  clear. intros st0 w u w1 tx w2 [HT Hs] _ _ Htx%gen_orphan_transaction_fields.
  cbn [txf sessions_files]. split; [|done].
  rewrite written_write_tx, omap_app. simpl. by rewrite Htx, app_nil_r.
Qed.

(** C2, as the code has it. The transactions of the stream that carry a
    session id are, in order, those of the first [num_transactions] sessions
    emitted with status "converted", one each and with that session's id.
    A session that converts once [num_transactions] transactions are written
    stays "converted" and its transaction is not written; a session with
    another status has none. *)
Theorem written_transactions_of_converted_sessions (fuel : nat) (args : config)
    (w : world) (out : outputs) (w' : world) :
  main fuel args w = Ok (out, w') →
  omap Transaction.session_id (written (transactions_json out))
  = take (Z.to_nat (num_transactions args)) (converted_ids (emitted_sessions out)).
Proof.
  intros (cats & w1 & ps & w2 & st1 & w3 & st2 & _ & _ & Hsess & Horph &
          Hsj & Htj & _)%main_Ok.
  apply session_chunks_transactions in Hsess as [HT _].
  apply orphan_transactions_linked in Horph as [HT' Hs].
  unfold emitted_sessions. rewrite Hsj, Htj, Hs, written_app. simpl.
  rewrite app_nil_r, HT'. by apply omap_fmap_Some.
Qed.

Lemma written_transactions_of_converted_sessions_witness :
  ∃ out w',
    main 1 (cfg_one_session 1) (World rng_converting 0 []) = Ok (out, w') ∧
    omap Transaction.session_id (written (transactions_json out))
    = take 1 (converted_ids (emitted_sessions out)).
Proof.
  destruct (main 1 (cfg_one_session 1) (World rng_converting 0 [])) as [[out w']| |] eqn:E;
    [|by vm_compute in E..].
  exists out, w'. split; [done|].
  exact (written_transactions_of_converted_sessions _ _ _ _ _ E).
Defined.

(** C2, as the specification words it, fails: with a transaction target of
    0 the only session of the run converts, and no transaction is written. *)
Lemma conversion_matches_transactions_fails : ¬ conversion_matches_transactions.
Proof.
  intros H.
  destruct (main 1 (cfg_one_session 0) (World rng_converting 0 [])) as [[out w']| |] eqn:E;
    [|by vm_compute in E..].
  specialize (H _ _ _ _ _ E).
  assert (∃ s, emitted_sessions out = [s] ∧
               Session.conversion_status s = converted ∧
               written (transactions_json out) = []) as (s & Hs & Hc & Ht).
  { vm_compute in E. injection E as <- _. eexists. by vm_compute. }
  destruct (H s) as [Hlen _]; [rewrite Hs; apply list_elem_of_singleton; done|].
  specialize (Hlen Hc). by rewrite Ht in Hlen.
Qed.

(** ** Product ids and the ledger index *)

Lemma pretty_N_go_head x s :
  (0 < x)%N → ∃ c s', pretty_N_go x s = String c s' ∧ c ≠ "0"%char.
Proof.
  revert s. induction (N.lt_wf_0 x) as [x _ IH]; intros s Hx.
  rewrite pretty_N_go_step by done.
  destruct (decide (x `div` 10 = 0)%N) as [Hd|Hd].
  - rewrite Hd, pretty_N_go_0. eexists _, _. split; [done|].
    assert (x < 10)%N by (by apply N.div_small_iff in Hd).
    rewrite N.mod_small by done.
    intros Heq. apply (pretty_N_char_inj x 0) in Heq; lia.
  - apply IH; [apply N.div_lt; lia|by apply N.neq_0_lt_0].
Qed.

Lemma pretty_nat_numeral (n : nat) : numeral (pretty n).
Proof.
  unfold pretty, pretty_nat, pretty, pretty_N.
  destruct (decide _); [by left|right].
  apply pretty_N_go_head. lia.
Qed.

Lemma zeros_app_inj k1 k2 s1 s2 :
  numeral s1 → numeral s2 → zeros k1 +:+ s1 = zeros k2 +:+ s2 → s1 = s2.
Proof.
  intros H1 H2. revert k2. induction k1 as [|k1 IH]; intros [|k2] H.
  - done.
  - change (s1 = String "0" (zeros k2 +:+ s2)) in H.
    destruct H1 as [->|(c & s' & -> & Hc)]; [|by simplify_eq].
    injection H as H. destruct k2; [|done].
    change ("" = s2) in H. subst. by destruct H2 as [|(? & ? & ? & ?)].
  - change (String "0" (zeros k1 +:+ s1) = s2) in H.
    destruct H2 as [->|(c & s' & -> & Hc)]; [|by simplify_eq].
    injection H as H. destruct k1; [|done].
    change (s1 = "") in H. subst. by destruct H1 as [|(? & ? & ? & ?)].
  - change (String "0" (zeros k1 +:+ s1) = String "0" (zeros k2 +:+ s2)) in H.
    injection H as H. by eapply IH.
Qed.

Lemma fmt_id_inj prefix w : Inj (=) (=) (fmt_id prefix w).
Proof.
  intros n1 n2 H. unfold fmt_id, zfill in H.
  apply (inj (String.app prefix)) in H.
  apply zeros_app_inj in H; [|apply pretty_nat_numeral..].
  by apply (inj pretty) in H.
Qed.

Lemma for_each_ind {A S} (I : list A → S → world → Prop) (xs : list A)
    (body : A → S → M S) acc w acc' w' :
  I [] acc w →
  (∀ pre x acc w acc' w',
     I pre acc w → body x acc w = Ok (acc', w') → I (pre ++ [x]) acc' w') →
  for_each xs body acc w = Ok (acc', w') → I xs acc' w'.
Proof.
  intros H0 Hstep.
  cut (∀ pre acc w, I pre acc w →
         for_each xs body acc w = Ok (acc', w') → I (pre ++ xs) acc' w').
  { intros Hcut. by apply (Hcut []). }
  induction xs as [|x xs IH]; intros pre acc0 w0 HI H; simpl in H.
  - apply ret_Ok in H as [<- <-]. by rewrite app_nil_r.
  - apply bind_Ok in H as (acc1 & w1 & H1 & H2).
    rewrite cons_middle, app_assoc. eapply IH; [|done]. by eapply Hstep.
Qed.

Lemma random_randint_range a b w z w' :
  random_randint a b w = Ok (z, w') → a ≤ z ≤ b.
Proof.
  unfold random_randint. destruct (decide _); [done|]. intros H.
  apply bind_Ok in H as (d & ? & _ & H). apply ret_Ok in H as [<- _].
  pose proof (Z.mod_pos_bound (Z.of_nat d) (b - a + 1)). lia.
Qed.

Lemma gen_product_spec cats prod_id ps w ps' w' :
  gen_product cats prod_id ps w = Ok (ps', w') →
  ∃ p, ps' = ps ++ [p] ∧ Product.product_id p = fmt_id "prod_" 5 prod_id ∧
       well_stocked p.
Proof.
  unfold gen_product. intros H.
  do 5 (apply bind_Ok in H as (? & ? & _ & H)).
  apply bind_Ok in H as (stock0 & ? & Hstock0%random_randint_range & H).
  apply bind_Ok in H as (r & ? & _ & H).
  apply bind_Ok in H as (stock & ? & Hstock & H).
  apply ret_Ok in H as [<- _]. eexists. split; [done|]. split; [done|].
  unfold well_stocked. simpl.
  destruct (bool_decide (r < 95)); simpl.
  - apply ret_Ok in Hstock as [<- _]. split_and!; [lia|intros _; lia|lia].
  - apply bind_Ok in Hstock as (r' & ? & _ & Hstock).
    apply ret_Ok in Hstock as [<- _].
    split_and!; [|done|]; destruct (decide _); lia.
Qed.

Lemma gen_products_spec cats n w ps w' :
  gen_products cats n w = Ok (ps, w') →
  Forall2 (λ prod_id p, Product.product_id p = fmt_id "prod_" 5 prod_id ∧
                        well_stocked p) (range n) ps.
Proof.
  unfold gen_products.
  apply (for_each_ind (λ pre ps _,
    Forall2 (λ prod_id p, Product.product_id p = fmt_id "prod_" 5 prod_id ∧
                          well_stocked p) pre ps)); [by constructor|].
  intros pre x acc w0 acc' w1 HI (p & -> & Hid & Hp)%gen_product_spec.
  apply Forall2_app; [done|]. by constructor.
Qed.

Lemma gen_products_ids cats n w ps w' l p :
  gen_products cats n w = Ok (ps, w') →
  ps !! l = Some p → Product.product_id p = fmt_id "prod_" 5 l ∧ well_stocked p.
Proof.
  intros H%gen_products_spec Hp.
  destruct (Forall2_lookup_r _ _ _ _ _ H Hp) as (i & Hi & Hid & Hw).
  unfold range in Hi. apply lookup_seq in Hi as [-> _]. done.
Qed.

Lemma gen_products_NoDup cats n w ps w' :
  gen_products cats n w = Ok (ps, w') → NoDup (Product.product_id <$> ps).
Proof.
  intros H. apply NoDup_alt. intros i j pid.
  rewrite !list_lookup_fmap.
  destruct (ps !! i) as [p|] eqn:Hp; [|done].
  destruct (ps !! j) as [q|] eqn:Hq; [|done].
  apply (gen_products_ids _ _ _ _ _ _ _ H) in Hp as [Hp _].
  apply (gen_products_ids _ _ _ _ _ _ _ H) in Hq as [Hq _].
  simpl. intros [= Hi] [= Hj]. apply (fmt_id_inj "prod_" 5). congruence.
Qed.

Lemma PyDict_get_set_eq {V} (d : PyDict.t V) k v :
  PyDict.get (PyDict.set d k v) k = Some v.
Proof.
  induction d as [|[k' v'] d IH]; simpl.
  - by rewrite decide_True.
  - destruct (decide (k' = k)) as [->|Hne]; simpl.
    + by rewrite decide_True.
    + by rewrite decide_False.
Qed.

Lemma PyDict_get_set_ne {V} (d : PyDict.t V) k k' v :
  k ≠ k' → PyDict.get (PyDict.set d k v) k' = PyDict.get d k'.
Proof.
  intros Hne. induction d as [|[k0 v0] d IH]; simpl.
  - by rewrite decide_False.
  - destruct (decide (k0 = k)) as [->|Hne0]; simpl.
    + by rewrite !decide_False.
    + destruct (decide (k0 = k')); [done|apply IH].
Qed.

Lemma init_go_other d start ps pid :
  pid ∉ Product.product_id <$> ps →
  PyDict.get (Inventory.init_go d start ps) pid = PyDict.get d pid.
Proof.
  revert d start. induction ps as [|p ps IH]; intros d start Hnin; simpl; [done|].
  rewrite fmap_cons, not_elem_of_cons in Hnin. destruct Hnin as [Hne Hnin].
  by rewrite IH, PyDict_get_set_ne.
Qed.

Lemma init_go_lookup d start ps i p :
  NoDup (Product.product_id <$> ps) → ps !! i = Some p →
  PyDict.get (Inventory.init_go d start ps) (Product.product_id p)
  = Some (start + i)%nat.
Proof.
  revert d start i. induction ps as [|p0 ps IH]; intros d start i Hnd Hi; [done|].
  rewrite fmap_cons, NoDup_cons in Hnd. destruct Hnd as [Hnin Hnd]. simpl.
  destruct i as [|i]; simpl in Hi.
  - injection Hi as ->. by rewrite init_go_other, PyDict_get_set_eq, Nat.add_0_r.
  - rewrite (IH _ _ i) by done. f_equal. lia.
Qed.

Lemma init_ledger_ok ps :
  NoDup (Product.product_id <$> ps) → ledger_ok (Inventory.init ps) ps.
Proof.
  intros Hnd. split.
  - intros l p Hp. unfold Inventory.init. simpl. by rewrite (init_go_lookup _ _ _ l).
  - intros pid l Hl. unfold Inventory.init in Hl. simpl in Hl.
    destruct (decide (pid ∈ Product.product_id <$> ps)) as [Hin|Hnin].
    + apply list_elem_of_fmap in Hin as (p & -> & (i & Hi)%list_elem_of_lookup).
      rewrite (init_go_lookup _ _ _ i) in Hl by done. injection Hl as <-. eauto.
    + by rewrite init_go_other in Hl.
Qed.

(** ** Conservation of stock *)

Ltac bind_keeps H :=
  let Hk := fresh "Hk" in
  apply bind_Ok in H as (? & ? & Hk & H);
  match type of Hk with
  | ?m _ = Ok _ =>
      let K := fresh "K" in
      assert (keeps_heap m) as K by keeps;
      apply K in Hk as [? ?]
  end.

Lemma quantity_sold_app pid items1 items2 :
  quantity_sold pid (items1 ++ items2)
  = quantity_sold pid items1 + quantity_sold pid items2.
Proof.
  unfold quantity_sold. rewrite filter_app, fmap_app.
  induction (Item.quantity <$> filter _ items1) as [|q qs IH]; csimpl; lia.
Qed.

Lemma quantity_sold_nonneg h pid items :
  Forall (line_of h) items → 0 ≤ quantity_sold pid items.
Proof.
  unfold quantity_sold. induction 1 as [|it items [Hit _] _ IH]; [done|].
  rewrite filter_cons. destruct (decide _); csimpl; lia.
Qed.

Lemma quantity_sold_singleton pid it :
  quantity_sold pid [it]
  = if decide (Item.product_id it = pid) then Item.quantity it else 0.
Proof.
  unfold quantity_sold. rewrite filter_cons, filter_nil.
  destruct (decide _); simpl; lia.
Qed.

Lemma debited_refl h : debited h [] h.
Proof.
  split_and!; [done..|]. intros l p Hp. exists p. split_and!; try done.
  unfold quantity_sold. simpl. lia.
Qed.

Lemma debited_trans h1 items1 h2 items2 h3 :
  debited h1 items1 h2 → debited h2 items2 h3 → debited h1 (items1 ++ items2) h3.
Proof.
  intros (Hq1 & Hl1 & H1) (Hq2 & Hl2 & H2).
  split_and!; [apply Forall_app; split; [done|]|congruence|].
  { eapply Forall_impl; [done|]. intros it [Hq Hin]. split; [done|].
    apply list_elem_of_fmap in Hin as (p2 & -> & [l Hp2]%list_elem_of_lookup).
    destruct (lookup_lt_is_Some_2 h1 l) as [p1 Hp1].
    { rewrite <-Hl1. by eapply lookup_lt_Some. }
    destruct (H1 l p1 Hp1) as (p' & Hp' & Hid' & _).
    assert (p' = p2) as -> by congruence. rewrite Hid'.
    apply list_elem_of_fmap. exists p1. split; [done|].
    by eapply list_elem_of_lookup_2. }
  intros l p Hp.
  destruct (H1 l p Hp) as (p' & Hp' & Hid' & Hs' & Hn').
  destruct (H2 l p' Hp') as (p'' & Hp'' & Hid'' & Hs'' & Hn'').
  exists p''. rewrite quantity_sold_app. rewrite Hid' in Hs''.
  split_and!; [done|congruence|lia|auto].
Qed.

(** Lines that were reserved and then left out of the stream. *)
Lemma debited_drop h items h' : debited h items h' → debited h [] h'.
Proof.
  intros (Hq & Hl & H). split_and!; [done..|]. intros l p Hp.
  destruct (H l p Hp) as (p' & Hp' & Hid' & Hs' & Hn').
  exists p'. split_and!; try done.
  pose proof (quantity_sold_nonneg _ (Product.product_id p) items Hq).
  unfold quantity_sold at 1. simpl. lia.
Qed.

Lemma debited_ledger_ok inv h items h' :
  debited h items h' → ledger_ok inv h → ledger_ok inv h'.
Proof.
  intros (_ & Hlen & H) [Hok1 Hok2]. split.
  - intros l p' Hp'.
    destruct (lookup_lt_is_Some_2 h l) as [p Hp].
    { rewrite <-Hlen. by eapply lookup_lt_Some. }
    destruct (H l p Hp) as (p'' & Hp'' & Hid & _).
    assert (p'' = p') as -> by congruence. rewrite Hid. by apply Hok1.
  - intros pid l Hl. destruct (Hok2 pid l Hl) as (p & Hp & Hid).
    destruct (H l p Hp) as (p' & Hp' & Hid' & _). exists p'. split; congruence.
Qed.

Lemma reserve_debited inv pid qty w b w' it :
  ledger_ok inv (heap w) → 0 < qty →
  Item.product_id it = pid → Item.quantity it = qty →
  Inventory.reserve inv pid qty w = Ok (b, w') →
  debited (heap w) (if b then [it] else []) (heap w').
Proof.
  intros [Hok1 Hok2] Hqty Hid Hq
    [[-> ->]|(-> & l & p & (Hl & Hp & Hact & Hle) & ->)]%reserve_cases.
  { apply debited_refl. }
  simpl. split_and!; [constructor; [|done]|by rewrite length_insert|].
  { split; [lia|]. destruct (Hok2 _ _ Hl) as (p' & Hp' & Hpid).
    apply list_elem_of_fmap. exists p'. split; [congruence|].
    by eapply list_elem_of_lookup_2. }
  intros l' q Hq'. destruct (decide (l = l')) as [<-|Hne].
  - assert (q = p) as -> by congruence.
    rewrite list_lookup_insert_eq by (by eapply lookup_lt_Some).
    eexists. split; [done|].
    destruct (Hok2 _ _ Hl) as (p' & Hp' & Hpid).
    assert (p' = p) as -> by congruence.
    rewrite quantity_sold_singleton.
    rewrite (decide_True (P := Item.product_id it = Product.product_id p))
      by congruence.
    destruct (decide _); simpl; split_and!; (done || lia).
  - rewrite list_lookup_insert_ne by done. exists q. split_and!; try done.
    rewrite quantity_sold_singleton.
    rewrite (decide_False (P := Item.product_id it = Product.product_id q));
      [lia|].
    intros Heq. apply Hne. apply Hok1 in Hq'. congruence.
Qed.

Lemma commit_line_debited inv line acc w acc' w' :
  ledger_ok inv (heap w) →
  commit_line inv line acc w = Ok (acc', w') →
  ∃ new, acc'.1 = acc.1 ++ new ∧ debited (heap w) new (heap w').
Proof.
  intros Hok H. unfold commit_line in H. destruct line as [pid entry].
  destruct (decide _) as [|Hpos].
  { apply ret_Ok in H as [<- <-]. exists []. by rewrite app_nil_r; split; [|apply debited_refl]. }
  apply bind_Ok in H as (ok & w1 & Hres & H).
  eapply (reserve_debited _ _ _ _ _ _
            (Item.mk pid (CartEntry.quantity entry) (CartEntry.price entry)
               (CartEntry.quantity entry * CartEntry.price entry)))
    in Hres; [|done|lia|done..].
  destruct ok; apply ret_Ok in H as [<- <-]; simpl.
  - eexists. by split.
  - exists []. by rewrite app_nil_r.
Qed.

Lemma commit_lines_debited inv lines acc w acc' w' :
  ledger_ok inv (heap w) →
  for_each lines (commit_line inv) acc w = Ok (acc', w') →
  ∃ new, acc'.1 = acc.1 ++ new ∧ debited (heap w) new (heap w').
Proof.
  revert acc w. induction lines as [|line lines IH]; intros acc w Hok H; simpl in H.
  - apply ret_Ok in H as [<- <-]. exists []. rewrite app_nil_r.
    split; [done|apply debited_refl].
  - apply bind_Ok in H as (acc1 & w1 & H1 & H2).
    destruct (commit_line_debited _ _ _ _ _ _ Hok H1) as (new1 & E1 & D1).
    destruct (IH _ _ (debited_ledger_ok _ _ _ _ D1 Hok) H2) as (new2 & E2 & D2).
    exists (new1 ++ new2). rewrite E2, E1, app_assoc.
    split; [done|by eapply debited_trans].
Qed.

(** A session reserves the lines of its transaction, and nothing when it
    returns no transaction. *)
Lemma session_record_debited u cats inv w s tx w' :
  ledger_ok inv (heap w) →
  session_record u cats inv w = Ok ((s, tx), w') →
  debited (heap w) (from_option Transaction.items [] tx) (heap w').
Proof.
  intros Hok H. unfold session_record in H.
  do 9 bind_keeps H.
  match type of H with
  | _ ?w0 = Ok _ => assert (heap w0 = heap w) as Hh by congruence
  end.
  destruct (_ && _).
  - apply bind_Ok in H as ([items subtotal] & w1 & Hloop & H).
    rewrite <-Hh in Hok |- *.
    destruct (commit_lines_debited _ _ _ _ _ _ Hok Hloop) as (new & E & D).
    simpl in E. subst new. destruct items as [|it items].
    + apply ret_Ok in H as [[= <- <-] <-]. done.
    + apply bind_Ok in H as (t & w2 & Ht & H).
      apply ret_Ok in H as [[= <- <-] <-].
      pose proof (keeps_heap_make_transaction _ _ _ _ _ _ _ Ht) as [-> _].
      apply make_transaction_fields in Ht as [_ Hit]. simpl. by rewrite Hit.
  - apply ret_Ok in H as [[= <- <-] <-]. rewrite Hh. apply debited_refl.
Qed.

Lemma orphan_picks_debited inv n_items k acc w acc' w' :
  ledger_ok inv (heap w) →
  orphan_picks inv n_items k acc w = Ok (acc', w') →
  ∃ new, acc'.1 = acc.1 ++ new ∧ debited (heap w) new (heap w').
Proof.
  revert acc w. induction k as [|k IH]; intros acc w Hok H; simpl in H.
  { apply ret_Ok in H as [<- <-]. exists []. rewrite app_nil_r.
    split; [done|apply debited_refl]. }
  destruct (decide _).
  { apply ret_Ok in H as [<- <-]. exists []. rewrite app_nil_r.
    split; [done|apply debited_refl]. }
  bind_keeps H.
  apply bind_Ok in H as (p & w0 & Hp & H).
  pose proof (keeps_heap_random_choice _ _ _ _ Hp) as [Hh0 _].
  assert (heap w0 = heap w) as Hh by congruence.
  rewrite <-Hh in Hok |- *.
  destruct (_ || _); [by apply IH|].
  apply bind_Ok in H as (qty & w1 & Hqty & H).
  pose proof (keeps_heap_random_randint _ _ _ _ _ Hqty) as [Hh1 _].
  apply random_randint_range in Hqty. rewrite <-Hh1 in Hok |- *.
  apply bind_Ok in H as (ok & w2 & Hres & H).
  eapply (reserve_debited _ _ _ _ _ _
            (Item.mk _ qty (Product.base_price p) (qty * Product.base_price p)))
    in Hres; [|done|lia|done..].
  pose proof (debited_ledger_ok _ _ _ _ Hres Hok) as Hok2.
  destruct ok; destruct (IH _ _ Hok2 H) as (new & E & D); simpl in E.
  - eexists (_ :: new). rewrite E, <-app_assoc. split; [done|].
    by eapply (debited_trans _ [_]).
  - exists new. split; [done|]. by eapply (debited_trans _ []).
Qed.

Lemma gen_orphan_transaction_debited u inv w tx w' :
  ledger_ok inv (heap w) →
  gen_orphan_transaction u inv w = Ok (tx, w') →
  debited (heap w) (from_option Transaction.items [] tx) (heap w').
Proof.
  intros Hok H. unfold gen_orphan_transaction in H.
  bind_keeps H.
  apply bind_Ok in H as ([items subtotal] & w1 & Hloop & H).
  match type of Hloop with
  | _ ?w0 = Ok _ => assert (heap w0 = heap w) as Hh by congruence
  end.
  rewrite <-Hh in Hok |- *.
  destruct (orphan_picks_debited _ _ _ _ _ _ _ Hok Hloop) as (new & E & D).
  simpl in E. subst new. destruct items as [|it items].
  - by apply ret_Ok in H as [<- <-].
  - apply bind_Ok in H as (t & w2 & Ht & H). apply ret_Ok in H as [<- <-].
    pose proof (keeps_heap_make_transaction _ _ _ _ _ _ _ Ht) as [-> _].
    apply make_transaction_fields in Ht as [_ Hit]. simpl. by rewrite Hit.
Qed.

Lemma committed_lines_app txs1 txs2 :
  committed_lines (txs1 ++ txs2) = committed_lines txs1 ++ committed_lines txs2.
Proof. unfold committed_lines. by rewrite fmap_app, concat_app. Qed.

Lemma committed_lines_snoc txs t :
  committed_lines (txs ++ [t]) = committed_lines txs ++ Transaction.items t.
Proof. rewrite committed_lines_app. unfold committed_lines. simpl. by rewrite app_nil_r. Qed.

(** Extending the invariant by one session or one orphan draw: its
    transaction is appended to the stream, or left out. *)
Lemma debited_extend inv h0 txs h tx h' :
  ledger_ok inv h → debited h0 (committed_lines txs) h →
  debited h (from_option Transaction.items [] tx) h' →
  ledger_ok inv h' ∧ debited h0 (committed_lines txs) h' ∧
  ∀ t, tx = Some t → debited h0 (committed_lines (txs ++ [t])) h'.
Proof.
  intros Hok D0 D. split_and!.
  - by eapply debited_ledger_ok.
  - rewrite <-(app_nil_r (committed_lines txs)).
    eapply debited_trans; [done|]. by eapply debited_drop.
  - intros t ->. rewrite committed_lines_snoc. by eapply debited_trans.
Qed.

Lemma iter_sessions_for_chunk_debited users cats inv tx_target n tx_written
    h0 txs w ys buf txw w' :
  ledger_ok inv (heap w) → debited h0 (committed_lines txs) (heap w) →
  iter_sessions_for_chunk users cats inv tx_target n tx_written w
    = Ok ((ys, buf, txw), w') →
  ledger_ok inv (heap w') ∧ debited h0 (committed_lines (txs ++ buf)) (heap w').
Proof.
  intros Hok D H.
  apply (iter_sessions_for_chunk_inv (λ acc w,
    ledger_ok inv (heap w) ∧
    debited h0 (committed_lines (txs ++ acc.1.2)) (heap w))) in H; [done| |].
  { simpl. by rewrite app_nil_r. }
  clear. intros ys buf txw w0 u w1 s tx w2 [Hok D] Hu Hs. simpl in D.
  pose proof (keeps_heap_random_choice _ _ _ _ Hu) as [Hh _].
  rewrite <-Hh in Hok, D.
  apply (session_record_debited _ _ _ _ _ _ _ Hok) in Hs.
  destruct (debited_extend _ _ _ _ _ _ Hok D Hs) as (Hok' & D' & Dt).
  destruct tx as [t|]; [destruct (decide _)|]; simpl; split; try done.
  rewrite app_assoc. by apply Dt.
Qed.

Lemma session_chunks_debited fuel users cats inv tx_target sess_target chunk_size
    h0 st w st' w' :
  ledger_ok inv (heap w) → debited h0 (committed_lines (written (txf st))) (heap w) →
  session_chunks fuel users cats inv tx_target sess_target chunk_size st w
    = Ok (st', w') →
  ledger_ok inv (heap w') ∧
  debited h0 (committed_lines (written (txf st'))) (heap w').
Proof.
  intros Hok D.
  apply (session_chunks_inv (λ st w,
    ledger_ok inv (heap w) ∧
    debited h0 (committed_lines (written (txf st))) (heap w))); [done|].
  clear. intros st w ys buf txw w1 [Hok D] _ H.
  cbn [txf]. rewrite written_foldl_write_tx.
  by eapply iter_sessions_for_chunk_debited.
Qed.

Lemma orphan_transactions_debited fuel users inv tx_target h0 st w st' w' :
  ledger_ok inv (heap w) → debited h0 (committed_lines (written (txf st))) (heap w) →
  orphan_transactions fuel users inv tx_target st w = Ok (st', w') →
  ledger_ok inv (heap w') ∧
  debited h0 (committed_lines (written (txf st'))) (heap w').
Proof.
  intros Hok D.
  apply (orphan_transactions_inv (λ st w,
    ledger_ok inv (heap w) ∧
    debited h0 (committed_lines (written (txf st))) (heap w))); [done|..]; clear.
  - intros st w u w1 w2 [Hok D] _ Hu Htx.
    pose proof (keeps_heap_random_choice _ _ _ _ Hu) as [Hh _].
    rewrite <-Hh in Hok, D.
    apply (gen_orphan_transaction_debited _ _ _ _ _ Hok) in Htx.
    by destruct (debited_extend _ _ _ _ _ _ Hok D Htx) as (Hok' & D' & _).
  - intros st w u w1 tx w2 [Hok D] _ Hu Htx.
    pose proof (keeps_heap_random_choice _ _ _ _ Hu) as [Hh _].
    rewrite <-Hh in Hok, D.
    apply (gen_orphan_transaction_debited _ _ _ _ _ Hok) in Htx.
    destruct (debited_extend _ _ _ _ _ _ Hok D Htx) as (Hok' & _ & Dt).
    cbn [txf]. rewrite written_write_tx. split; [done|]. by apply Dt.
Qed.

(** C1. Conservation: in a complete run, for every product, the quantities
    on the item lines of the written transactions (session-linked and orphan
    alike) that reference the product add up to at most the stock the product
    was created with. *)
Theorem stock_conservation (fuel : nat) (args : config) (w : world)
    (out : outputs) (w' : world) :
  main fuel args w = Ok (out, w') →
  ∃ ps, initial_products args w = Some ps ∧
    ∀ p, p ∈ ps →
      quantity_sold (Product.product_id p)
        (committed_lines (written (transactions_json out)))
      ≤ Product.current_stock p.
Proof.
  intros (cats & w1 & ps & w2 & st1 & w3 & st2 & Hcats & Hps & Hsess & Horph &
          _ & Htj & _)%main_Ok.
  exists ps. split.
  { unfold initial_products, mbind, M_bind. by rewrite Hcats, Hps. }
  pose proof (init_ledger_ok ps (gen_products_NoDup _ _ _ _ _ Hps)) as Hok.
  eapply (session_chunks_debited _ _ _ _ _ _ _ ps) in Hsess as [Hok1 D1];
    [|done|apply debited_refl].
  eapply orphan_transactions_debited in Horph as [_ (_ & _ & D2)]; [|done..].
  intros p [l Hl]%list_elem_of_lookup.
  destruct (D2 l p Hl) as (p' & _ & _ & Hsold & Hnn).
  destruct (gen_products_ids _ _ _ _ _ _ _ Hps Hl) as [_ [Hp0 _]].
  rewrite Htj, written_app. simpl. rewrite app_nil_r. specialize (Hnn Hp0). lia.
Qed.

Lemma stock_conservation_witness :
  ∃ out w',
    main 1 (cfg_one_session 1) (World rng_converting 0 []) = Ok (out, w') ∧
    ∃ ps, initial_products (cfg_one_session 1) (World rng_converting 0 []) = Some ps ∧
      ∀ p, p ∈ ps →
        quantity_sold (Product.product_id p)
          (committed_lines (written (transactions_json out)))
        ≤ Product.current_stock p.
Proof.
  destruct (main 1 (cfg_one_session 1) (World rng_converting 0 [])) as [[out w']| |] eqn:E;
    [|by vm_compute in E..].
  exists out, w'. split; [done|].
  exact (stock_conservation _ _ _ _ _ E).
Defined.

(** ** Deactivation *)

Lemma moves_keeps {A} (m : M A) : keeps_heap m → moves m.
Proof. intros Hm w a w' [-> _]%Hm. apply rtc_refl. Qed.

Lemma moves_bind {A B} (m : M A) (k : A → M B) :
  moves m → (∀ a, moves (k a)) → moves (m ≫= k).
Proof.
  intros Hm Hk w b w' (a & w1 & H1 & H2)%bind_Ok.
  etrans; [by eapply Hm|by eapply Hk].
Qed.

Lemma moves_for_each {A S} (xs : list A) (body : A → S → M S) acc :
  (∀ x acc, moves (body x acc)) → moves (for_each xs body acc).
Proof.
  intros Hbody. revert acc. induction xs as [|x xs IH]; intros acc; simpl.
  - apply moves_keeps, keeps_heap_ret.
  - apply moves_bind; auto.
Qed.

Lemma moves_reserve inv pid qty : moves (Inventory.reserve inv pid qty).
Proof. intros w b w' H. apply rtc_once. by exists inv, pid, qty, b, w, w'. Qed.

Ltac moves_step :=
  match goal with
  | |- moves (Inventory.reserve _ _ _) => apply moves_reserve
  | |- moves (_ ≫= _) => apply moves_bind; [|intros ?]
  | |- moves (for_each _ _ _) => apply moves_for_each; intros ? ?
  | |- moves (if ?c then _ else _) => destruct c
  | |- moves (match ?c with _ => _ end) => destruct c
  | |- moves (let '(_, _) := ?c in _) => destruct c
  | |- moves _ => solve [apply moves_keeps; keeps]
  | |- moves _ => solve [auto]
  end.
Ltac moves := repeat moves_step.

Lemma moves_commit_line inv line acc : moves (commit_line inv line acc).
Proof. unfold commit_line. moves. Qed.

Lemma moves_session_record u cats inv : moves (session_record u cats inv).
Proof.
  pose proof (moves_commit_line inv).
  unfold session_record. moves.
Qed.

Lemma moves_orphan_picks inv n_items k acc : moves (orphan_picks inv n_items k acc).
Proof. revert acc. induction k as [|k IH]; intros acc; simpl; moves. Qed.

Lemma moves_gen_orphan_transaction u inv : moves (gen_orphan_transaction u inv).
Proof.
  pose proof (moves_orphan_picks inv).
  unfold gen_orphan_transaction. moves.
Qed.

Lemma moves_iter_sessions_for_chunk users cats inv tx_target n tx_written :
  moves (iter_sessions_for_chunk users cats inv tx_target n tx_written).
Proof.
  pose proof (moves_session_record).
  unfold iter_sessions_for_chunk, iter_sessions_step. moves.
Qed.

Lemma moves_session_chunks fuel users cats inv tx_target sess_target chunk_size st :
  moves (session_chunks fuel users cats inv tx_target sess_target chunk_size st).
Proof.
  pose proof (moves_iter_sessions_for_chunk).
  revert st. induction fuel as [|fuel IH]; intros st; simpl; moves.
Qed.

Lemma moves_orphan_transactions fuel users inv tx_target st :
  moves (orphan_transactions fuel users inv tx_target st).
Proof.
  pose proof (moves_gen_orphan_transaction).
  revert st. induction fuel as [|fuel IH]; intros st; simpl; moves.
Qed.

Lemma ledger_step_deactivated h h' :
  ledger_step h h' → deactivated h → deactivated h'.
Proof.
  intros (inv & pid & qty & b & w & w' & Hres & <- & <-) Hd.
  apply reserve_cases in Hres as [[_ ->]|(_ & l & p & (Hl & Hp & Hact & Hle) & ->)];
    [done|]. simpl.
  intros p' [l' Hp']%list_elem_of_lookup Hzero.
  destruct (decide (l = l')) as [<-|Hne].
  - rewrite list_lookup_insert_eq in Hp' by (by eapply lookup_lt_Some).
    injection Hp' as <-. destruct (decide _); simpl in *; [done|lia].
  - rewrite list_lookup_insert_ne in Hp' by done.
    apply Hd; [|done]. by eapply list_elem_of_lookup_2.
Qed.

Lemma ledger_step_never_reactivated h h' :
  ledger_step h h' → never_reactivated h h'.
Proof.
  intros (inv & pid & qty & b & w & w' & Hres & <- & <-) l' q Hq Hoff.
  apply reserve_cases in Hres as [[_ ->]|(_ & l & p & (Hl & Hp & Hact & Hle) & ->)];
    [by exists q|]. simpl.
  destruct (decide (l = l')) as [<-|Hne]; [congruence|].
  exists q. by rewrite list_lookup_insert_ne.
Qed.

Lemma ledger_steps_deactivated h h' :
  ledger_steps h h' → deactivated h → deactivated h'.
Proof. induction 1; eauto using ledger_step_deactivated. Qed.

Lemma ledger_steps_never_reactivated h h' :
  ledger_steps h h' → never_reactivated h h'.
Proof.
  induction 1 as [h|h1 h2 h3 Hstep _ IH]; [by intros l p; exists p|].
  intros l p Hp Hoff.
  destruct (ledger_step_never_reactivated _ _ Hstep l p Hp Hoff) as (p' & Hp' & Hoff').
  by apply (IH l p').
Qed.

Lemma gen_products_deactivated cats n w ps w' :
  gen_products cats n w = Ok (ps, w') → deactivated ps.
Proof.
  intros H p [l Hl]%list_elem_of_lookup Hzero.
  destruct (gen_products_ids _ _ _ _ _ _ _ H Hl) as [_ (_ & Hact & _)].
  destruct (Product.is_active p); [|done]. specialize (Hact eq_refl). lia.
Qed.

(** C5. Deactivation. The products are created with no product out of
    stock and active; after that the loops of the run change the products by
    calls of [reserve] only; and in every state [h] reached from the created
    products by calls of [reserve], no product is out of stock and active,
    and a product inactive in [h] is inactive in every later state [h']. *)
Theorem deactivation_monotone (cats : list category) (n : Z) (w : world)
    (ps : list product) (w1 : world) :
  gen_products cats n w = Ok (ps, w1) →
  deactivated ps ∧
  (∀ h h', ledger_steps ps h → ledger_steps h h' →
     deactivated h ∧ deactivated h' ∧ never_reactivated h h') ∧
  (∀ fuel users cats' inv tx_target sess_target chunk_size st,
     moves (session_chunks fuel users cats' inv tx_target sess_target chunk_size st)) ∧
  (∀ fuel users inv tx_target st,
     moves (orphan_transactions fuel users inv tx_target st)).
Proof.
  intros Hd%gen_products_deactivated. split_and!; [done| |..].
  - intros h h' H1 H2.
    pose proof (ledger_steps_deactivated _ _ H1 Hd) as Hh.
    split_and!; [done|by eapply ledger_steps_deactivated|].
    by apply ledger_steps_never_reactivated.
  - apply moves_session_chunks.
  - apply moves_orphan_transactions.
Qed.

Lemma deactivation_monotone_witness :
  ∃ ps w1,
    gen_products one_category 1 (World rng_inactive 2 []) = Ok (ps, w1) ∧
    deactivated ps ∧
    (∀ h h', ledger_steps ps h → ledger_steps h h' →
       deactivated h ∧ deactivated h' ∧ never_reactivated h h').
Proof.
  destruct (gen_products one_category 1 (World rng_inactive 2 [])) as [[ps w1]| |] eqn:E;
    [|by vm_compute in E..].
  exists ps, w1. split; [done|].
  destruct (deactivation_monotone _ _ _ _ _ E) as (H1 & H2 & _). by split.
Defined.

(** ** The orphan-transaction fallback *)

Lemma bind_run {A B} (m : M A) (k : A → M B) w a w1 :
  m w = Ok (a, w1) → (m ≫= k) w = k a w1.
Proof. unfold mbind, M_bind. by intros ->. Qed.

Lemma bind_timeout {A B} (m : M A) (k : A → M B) w :
  m w = Timeout → (m ≫= k) w = Timeout.
Proof. unfold mbind, M_bind. by intros ->. Qed.

Lemma random_choice_advance {A} (xs : list A) w :
  xs ≠ [] → ∃ x, random_choice xs w = Ok (x, advance w 1).
Proof.
  destruct xs as [|x0 xs]; [done|]. intros _. eexists.
  unfold random_choice, mbind, M_bind, draw, mret, M_ret, advance.
  by rewrite Nat.add_1_r.
Qed.

Lemma orphan_picks_nothing inv n_items k w :
  heap w ≠ [] → (∀ p, p ∈ heap w → available p = false) → 1 ≤ n_items →
  orphan_picks inv n_items k ([], 0) w = Ok (([], 0), advance w k).
Proof.
  intros Hne Hall Hn. revert w Hne Hall.
  induction k as [|k IH]; intros w Hne Hall; simpl.
  { by rewrite advance_0. }
  rewrite decide_False by (simpl; lia).
  destruct (cand_is_Some w 0 Hne) as [c Hc].
  unfold mbind at 1, M_bind at 1, get_heap.
  erewrite bind_run by (by apply random_choice_products).
  assert (available c = false) as Hav.
  { apply Hall. unfold cand in Hc. by eapply list_elem_of_lookup_2. }
  unfold available in Hav.
  replace (negb (Product.is_active c) || bool_decide (Product.current_stock c ≤ 0))
    with true.
  - rewrite IH; [by rewrite advance_advance|done..].
  - destruct (Product.is_active c); [|done]. simpl in *.
    apply bool_decide_eq_false in Hav. symmetry. apply bool_decide_eq_true. lia.
Qed.

Lemma gen_orphan_transaction_nothing u inv w :
  heap w ≠ [] → (∀ p, p ∈ heap w → available p = false) →
  ∃ w', gen_orphan_transaction u inv w = Ok (None, w') ∧
        heap w' = heap w ∧ rng w' = rng w.
Proof.
  intros Hne Hall. unfold gen_orphan_transaction.
  destruct (random_randint 1 3 w) as [[n_items w1]| |] eqn:Hn;
    [|unfold random_randint in Hn; by destruct (decide _)..].
  pose proof (keeps_heap_random_randint _ _ _ _ _ Hn) as [Hh Hr].
  apply random_randint_range in Hn as Hrange.
  erewrite bind_run by done.
  erewrite bind_run by (apply orphan_picks_nothing; [by rewrite Hh..|lia]).
  eexists. split; [done|]. by simpl.
Qed.

(** Once no product is active and in stock, the fallback loop never ends:
    whatever the fuel, it is still running when the fuel is used up. *)
Lemma orphan_transactions_timeout fuel users inv tx_target st w :
  users ≠ [] → heap w ≠ [] → (∀ p, p ∈ heap w → available p = false) →
  tx_written st < tx_target →
  orphan_transactions fuel users inv tx_target st w = Timeout.
Proof.
  intros Hu Hne Hall Hlt. revert w Hne Hall.
  induction fuel as [|fuel IH]; intros w Hne Hall; simpl;
    rewrite decide_True by done; [done|].
  destruct (random_choice_advance users w Hu) as [u Hc].
  erewrite bind_run by done.
  destruct (gen_orphan_transaction_nothing u inv (advance w 1)) as (w2 & Hg & Hh & _);
    [done..|].
  erewrite bind_run by done. apply IH; by rewrite Hh.
Qed.

Lemma session_chunks_done fuel users cats inv tx_target sess_target chunk_size st w :
  sess_target ≤ sess_written st →
  session_chunks fuel users cats inv tx_target sess_target chunk_size st w
  = Ok (st, w).
Proof. intros H. destruct fuel; simpl; by rewrite decide_False by lia. Qed.

Lemma inactive_product_never_ends fuel :
  main fuel cfg_orphans_only (World rng_inactive 0 []) = Timeout.
Proof.
  unfold main.
  erewrite bind_run by (vm_compute; reflexivity).
  erewrite bind_run by (vm_compute; reflexivity).
  erewrite bind_run by reflexivity.
  erewrite bind_run by (by apply session_chunks_done).
  apply bind_timeout, orphan_transactions_timeout; [done|done| |done].
  intros p ->%list_elem_of_singleton. done.
Qed.

(** ** Non-positive targets *)

Lemma orphan_transactions_done fuel users inv tx_target st w :
  tx_target ≤ tx_written st →
  orphan_transactions fuel users inv tx_target st w = Ok (st, w).
Proof. intros H. destruct fuel; simpl; by rewrite decide_False by lia. Qed.

(** C8, as the code has it. The configuration is not validated. With a
    non-positive session target no session file is written; with a
    non-positive transaction target no transaction is written; and when both
    are non-positive the run ends normally, whatever the chunk size and the
    fuel, as soon as the categories and products could be generated. *)
Theorem nonpositive_targets_skip_generation (fuel : nat) (args : config)
    (w : world) (cats : list category) (w1 : world) (ps : list product)
    (w2 : world) :
  gen_categories (num_categories args) (subcats_min args, subcats_max args) w
    = Ok (cats, w1) →
  gen_products cats (num_products args) w1 = Ok (ps, w2) →
  (num_sessions args ≤ 0 → num_transactions args ≤ 0 →
     ∃ out, main fuel args w = Ok (out, World (rng w2) (pos w2) ps) ∧
            sessions_json out = [] ∧ written (transactions_json out) = [] ∧
            report_sessions out = 0 ∧ report_transactions out = 0) ∧
  (num_sessions args ≤ 0 →
     ∀ out w', main fuel args w = Ok (out, w') → sessions_json out = []) ∧
  (num_transactions args ≤ 0 →
     ∀ out w', main fuel args w = Ok (out, w') →
       written (transactions_json out) = [] ∧ report_transactions out = 0).
Proof.
  intros Hcats Hps. split_and!.
  - intros Hs Ht. unfold main.
    erewrite bind_run by done. erewrite bind_run by done.
    erewrite bind_run by reflexivity.
    erewrite bind_run by (by apply session_chunks_done).
    erewrite bind_run by (by apply orphan_transactions_done).
    erewrite bind_run by reflexivity.
    eexists. split; [reflexivity|]. done.
  - intros Hs out w' (cats' & w1' & ps' & w2' & st1 & w3 & st2 & _ & _ & Hsess &
                      Horph & Hsj & _)%main_Ok.
    rewrite session_chunks_done in Hsess by done. injection Hsess as <- <-.
    apply orphan_transactions_linked in Horph as [_ Hf]. by rewrite Hsj, Hf.
  - intros Ht out w' (cats' & w1' & ps' & w2' & st1 & w3 & st2 & _ & _ & Hsess &
                      Horph & _ & Htj & _ & Hrt & _)%main_Ok.
    apply session_chunks_transactions in Hsess as [HT Hn].
    rewrite Z2Nat.nonpos, take_0 in HT by done.
    apply fmap_nil_inv in HT. rewrite HT in Hn. simpl in Hn.
    rewrite orphan_transactions_done in Horph by lia. injection Horph as <- <-.
    rewrite Htj, Hrt, written_app, HT. done.
Qed.

Lemma nonpositive_targets_skip_generation_witness :
  ∃ out w', main 0 cfg_all_zero (World (λ _, 0%nat) 0 []) = Ok (out, w') ∧
            sessions_json out = [] ∧ written (transactions_json out) = [] ∧
            report_sessions out = 0 ∧ report_transactions out = 0.
Proof.
  destruct (gen_categories (num_categories cfg_all_zero)
              (subcats_min cfg_all_zero, subcats_max cfg_all_zero)
              (World (λ _, 0%nat) 0 [])) as [[cats w1]| |] eqn:Hcats;
    [|by vm_compute in Hcats..].
  destruct (gen_products cats (num_products cfg_all_zero) w1) as [[ps w2]| |] eqn:Hps;
    [|vm_compute in Hcats; injection Hcats as <- <-; by vm_compute in Hps..].
  destruct (nonpositive_targets_skip_generation 0 _ _ _ _ _ _ Hcats Hps)
    as [H _].
  destruct H as (out & Hmain & Hrest); [done..|]. eauto.
Defined.

(** C8, as the specification words it, fails: with both targets and the
    chunk size equal to 0 the run ends normally. *)
Lemma invalid_configuration_aborts_fails : ¬ invalid_configuration_aborts.
Proof.
  intros H.
  destruct (H 0%nat cfg_all_zero (World (λ _, 0%nat) 0 [])) as [e He].
  { by left. }
  by vm_compute in He.
Qed.

(** ** The streaming writer *)

Lemma string_app_assoc (s1 s2 s3 : string) :
  (s1 +:+ s2) +:+ s3 = s1 +:+ s2 +:+ s3.
Proof.
  induction s1 as [|c s1 IH]; [done|].
  change (String c ((s1 +:+ s2) +:+ s3) = String c (s1 +:+ s2 +:+ s3)).
  by rewrite IH.
Qed.

Lemma string_app_nil_r (s : string) : s +:+ "" = s.
Proof.
  induction s as [|c s IH]; [done|].
  change (String c (s +:+ "") = String c s). by rewrite IH.
Qed.

Lemma render_app {A} (dumps : A → string) (f g : file A) :
  render dumps (f ++ g) = render dumps f +:+ render dumps g.
Proof.
  induction f as [|c f IH]; [done|]. simpl. rewrite IH.
  by destruct c; rewrite string_app_assoc.
Qed.

Lemma render_foldl_write_item {A} (dumps : A → string) (items : list A) st :
  wr_first st = false →
  render dumps (wr_file (foldl write_item st items))
  = render dumps (wr_file st) +:+ joined dumps items.
Proof.
  revert st. induction items as [|x xs IH]; intros st Hst; simpl.
  - by rewrite string_app_nil_r.
  - rewrite IH by done. unfold write_item. rewrite Hst. simpl.
    rewrite !render_app. simpl.
    by rewrite !string_app_nil_r, !string_app_assoc.
Qed.

Lemma render_write_json_array {A} (dumps : A → string) (items : list A) :
  render dumps (write_json_array items).1
  = "[" +:+ NL +:+
    match items with
    | [] => ""
    | x :: xs => dumps x +:+ joined dumps xs
    end +:+ NL +:+ "]" +:+ NL.
Proof.
  unfold write_json_array. cbn [fst]. rewrite render_app.
  destruct items as [|x xs]; [done|].
  cbn [foldl]. rewrite render_foldl_write_item by done.
  unfold write_item. simpl. by rewrite ?string_app_nil_r, ?string_app_assoc.
Qed.

Lemma json_ws_NL : json_ws NL.
Proof. apply jws_cons; [unfold json_ws_char; auto|apply jws_nil]. Qed.

Lemma json_ws_app w1 w2 : json_ws w1 → json_ws w2 → json_ws (w1 +:+ w2).
Proof. induction 1; [done|]. intros. apply jws_cons; auto. Qed.

Lemma json_elements_joined {A} (dumps : A → string) (x : A) (xs : list A) :
  Forall (λ x, json_value (dumps x)) (x :: xs) →
  json_elements (dumps <$> x :: xs) (NL +:+ dumps x +:+ joined dumps xs +:+ NL).
Proof.
  revert x. induction xs as [|y ys IH]; intros x [Hx Hxs]%Forall_cons.
  - simpl. apply je_one; [apply json_ws_NL|done|apply json_ws_NL].
  - specialize (IH y Hxs). rewrite fmap_cons.
    replace (NL +:+ dumps x +:+ joined dumps (y :: ys) +:+ NL)
      with (NL +:+ dumps x +:+ "" +:+ "," +:+
            (NL +:+ dumps y +:+ joined dumps ys +:+ NL)).
    + apply je_cons; [apply json_ws_NL|done|constructor|done].
    + simpl. by rewrite !string_app_assoc.
Qed.

Lemma json_array_of_text vs s : json_array_of vs s → json_text s.
Proof.
  intros (w1 & body & w2 & Hw1 & Hw2 & -> & Hbody).
  exists w1, ("[" +:+ body +:+ "]"), w2. split_and!; try done.
  - destruct vs; [by apply jv_array_empty|by eapply jv_array].
  - by rewrite !string_app_assoc.
Qed.

(** C7. For a finite sequence of records whose serializations are JSON
    values, [write_json_array] writes a JSON text that is an array, its
    elements being the serialized records in source order (the empty array
    for an empty source); the file holds exactly the records of the source;
    and the count returned is the number of records. *)
Theorem write_json_array_valid {A} (dumps : A → string) (items : list A) :
  Forall (λ x, json_value (dumps x)) items →
  json_array_of (dumps <$> items) (render dumps (write_json_array items).1) ∧
  json_text (render dumps (write_json_array items).1) ∧
  written (write_json_array items).1 = items ∧
  (write_json_array items).2 = Z.of_nat (length items).
Proof.
  intros Hitems.
  assert (json_array_of (dumps <$> items) (render dumps (write_json_array items).1))
    as Harr.
  { rewrite render_write_json_array.
    exists "", (NL +:+ match items with
                       | [] => ""
                       | x :: xs => dumps x +:+ joined dumps xs
                       end +:+ NL), NL.
    split_and!; [constructor|apply json_ws_NL|by rewrite !string_app_assoc|].
    destruct items as [|x xs]; simpl.
    - apply (json_ws_app NL NL); apply json_ws_NL.
    - rewrite ?string_app_assoc.
      by apply (json_elements_joined dumps x xs). }
  split_and!; [done|by eapply json_array_of_text|apply written_write_json_array..].
Qed.

Lemma write_json_array_valid_witness :
  json_text (render dumps_option_bool
               (write_json_array [None; Some true; Some false]).1) ∧
  (write_json_array [None; Some true; Some false]).2 = 3.
Proof.
  destruct (write_json_array_valid dumps_option_bool [None; Some true; Some false])
    as (_ & Htext & _ & Hcount); [|by split].
  repeat constructor.
Defined.

(** ** Runs that raise no exception *)

Lemma no_raise_ret {A} (a : A) w : no_raise (mret a : M A) w.
Proof. by intros e. Qed.

Lemma no_raise_bind {A B} (m : M A) (k : A → M B) w :
  no_raise m w → (∀ a w', m w = Ok (a, w') → no_raise (k a) w') →
  no_raise (m ≫= k) w.
Proof.
  intros Hm Hk e. unfold mbind, M_bind.
  destruct (m w) as [[a w']|e'|] eqn:E; [by apply Hk|by destruct (Hm e')|done].
Qed.

Lemma no_raise_draw w : no_raise draw w.
Proof. by intros e. Qed.

Lemma no_raise_random_random w : no_raise random_random w.
Proof. by intros e. Qed.

Lemma no_raise_random_uniform a b w : no_raise (random_uniform a b) w.
Proof. by intros e. Qed.

Lemma no_raise_random_randint a b w : a ≤ b → no_raise (random_randint a b) w.
Proof. intros Hab e. unfold random_randint. by rewrite decide_False by lia. Qed.

Lemma no_raise_random_choice {A} (xs : list A) w :
  xs ≠ [] → no_raise (random_choice xs) w.
Proof. intros Hne e. by destruct xs. Qed.

Lemma random_choice_elem_of {A} (xs : list A) w x w' :
  random_choice xs w = Ok (x, w') → x ∈ xs.
Proof.
  destruct xs as [|x0 xs]; [done|]. unfold random_choice. intros H.
  apply bind_Ok in H as (d & w1 & _ & H). apply ret_Ok in H as [<- _].
  destruct (_ !! _) as [y|] eqn:Hy; simpl; [|by left].
  by eapply list_elem_of_lookup_2.
Qed.

Lemma no_raise_rand_hex n w : no_raise (rand_hex n) w.
Proof.
  revert w. induction n as [|n IH]; intros w; [apply no_raise_ret|].
  change (rand_hex (S n))
    with (c ← random_choice hex_digits; s ← rand_hex n; mret (String c s)).
  apply no_raise_bind; [by apply no_raise_random_choice|intros c w1 _].
  apply no_raise_bind; [apply IH|intros; apply no_raise_ret].
Qed.

Lemma no_raise_for_each {A S} (P : S → Prop) (xs : list A) (body : A → S → M S)
    acc w :
  P acc →
  (∀ x acc w, P acc → no_raise (body x acc) w) →
  (∀ x acc w acc' w', P acc → body x acc w = Ok (acc', w') → P acc') →
  no_raise (for_each xs body acc) w.
Proof.
  intros HP Hbody Hstep. revert acc w HP.
  induction xs as [|x xs IH]; intros acc w HP; simpl; [apply no_raise_ret|].
  apply no_raise_bind; [by apply Hbody|]. intros acc' w' H. apply IH. by eapply Hstep.
Qed.

Lemma no_raise_reserve inv pid qty w : no_raise (Inventory.reserve inv pid qty) w.
Proof.
  intros e. destruct (Inventory.in_stock_at inv (heap w) pid qty) eqn:E.
  - apply in_stock_at_true in E as (l & p & Hr).
    by rewrite (reserve_success _ _ _ _ _ _ Hr).
  - by rewrite reserve_fail.
Qed.

Lemma no_raise_make_transaction sid u items subtotal w :
  no_raise (make_transaction sid u items subtotal) w.
Proof.
  unfold make_transaction, draw_discount.
  apply no_raise_bind.
  { apply no_raise_bind; [apply no_raise_random_random|intros r w1 _].
    destruct (decide _); [|apply no_raise_ret].
    apply no_raise_bind; [by apply no_raise_random_choice|intros; apply no_raise_ret]. }
  intros d w1 _. apply no_raise_bind; [apply no_raise_rand_hex|intros hex w2 _].
  apply no_raise_bind; [by apply no_raise_random_choice|intros pm w3 _].
  apply no_raise_bind; [by apply no_raise_random_choice|intros; apply no_raise_ret].
Qed.

Lemma ledger_steps_length h h' : ledger_steps h h' → length h' = length h.
Proof.
  induction 1 as [|h1 h2 h3 (inv & pid & qty & b & w & w' & Hres & <- & <-) _ IH];
    [done|]. rewrite IH.
  apply reserve_cases in Hres as [[_ ->]|(_ & l & p & _ & ->)]; [done|].
  simpl. by rewrite length_insert.
Qed.

Lemma moves_nonempty {A} (m : M A) w a w' :
  moves m → m w = Ok (a, w') → heap w ≠ [] → heap w' ≠ [].
Proof.
  intros Hm H%Hm%ledger_steps_length Hne Hnil.
  rewrite Hnil in H. by destruct (heap w).
Qed.

Lemma no_raise_orphan_picks inv n_items k acc w :
  heap w ≠ [] → no_raise (orphan_picks inv n_items k acc) w.
Proof.
  revert acc w. induction k as [|k IH]; intros acc w Hne; simpl;
    [apply no_raise_ret|].
  destruct (decide _); [apply no_raise_ret|].
  apply no_raise_bind; [by intros e|]. intros h w1 [= <- <-].
  apply no_raise_bind; [by apply no_raise_random_choice|]. intros p w2 Hp.
  pose proof (keeps_heap_random_choice _ _ _ _ Hp) as [Hh _].
  assert (heap w2 ≠ []) by (by rewrite Hh).
  destruct (_ || _); [by apply IH|].
  apply no_raise_bind; [by apply no_raise_random_randint|]. intros qty w3 Hq.
  pose proof (keeps_heap_random_randint _ _ _ _ _ Hq) as [Hh3 _].
  apply no_raise_bind; [apply no_raise_reserve|]. intros ok w4 Hres.
  assert (heap w4 ≠ []).
  { eapply (moves_nonempty _ _ _ _ (moves_reserve _ _ _) Hres). by rewrite Hh3. }
  destruct ok; by apply IH.
Qed.

Lemma no_raise_gen_orphan_transaction u inv w :
  heap w ≠ [] → no_raise (gen_orphan_transaction u inv) w.
Proof.
  intros Hne. unfold gen_orphan_transaction.
  apply no_raise_bind; [by apply no_raise_random_randint|]. intros n w1 Hn.
  pose proof (keeps_heap_random_randint _ _ _ _ _ Hn) as [Hh _].
  apply no_raise_bind; [apply no_raise_orphan_picks; by rewrite Hh|].
  intros [items subtotal] w2 _. destruct items; [apply no_raise_ret|].
  apply no_raise_bind; [apply no_raise_make_transaction|intros; apply no_raise_ret].
Qed.

Lemma no_raise_orphan_transactions fuel users inv tx_target st w :
  users ≠ [] → heap w ≠ [] →
  no_raise (orphan_transactions fuel users inv tx_target st) w.
Proof.
  intros Hu. revert st w. induction fuel as [|fuel IH]; intros st w Hne; simpl;
    (destruct (decide _); [|apply no_raise_ret]); [by intros e|].
  apply no_raise_bind; [by apply no_raise_random_choice|]. intros u w1 Hc.
  pose proof (keeps_heap_random_choice _ _ _ _ Hc) as [Hh _].
  apply no_raise_bind; [apply no_raise_gen_orphan_transaction; by rewrite Hh|].
  intros tx w2 Htx.
  assert (heap w2 ≠ []).
  { eapply (moves_nonempty _ _ _ _ (moves_gen_orphan_transaction _ _) Htx).
    by rewrite Hh. }
  destruct tx; by apply IH.
Qed.

Lemma gen_categories_spec n lo hi w cats w' :
  1 ≤ lo →
  gen_categories n (lo, hi) w = Ok (cats, w') →
  length cats = Z.to_nat n ∧ Forall (λ c, Category.subcategories c ≠ []) cats.
Proof.
  intros Hlo H. unfold gen_categories in H.
  apply (for_each_ind (λ pre cats _,
    length cats = length pre ∧
    Forall (λ c, Category.subcategories c ≠ []) cats)) in H.
  - destruct H as [-> ?]. unfold range. by rewrite length_seq.
  - done.
  - clear H. intros pre cat_id acc w0 acc' w1 [Hlen Hall] H.
    apply bind_Ok in H as (n_sub & w2 & Hn%random_randint_range & H).
    apply bind_Ok in H as (subs & w3 & Hsubs & H).
    apply ret_Ok in H as [<- _]. rewrite !length_app, Hlen. split; [done|].
    apply Forall_app. split; [done|]. constructor; [|done]. simpl in *.
    apply (for_each_ind (λ pre subs _, length subs = length pre)) in Hsubs;
      [|done|].
    + unfold range in Hsubs. rewrite length_seq in Hsubs.
      intros ->. simpl in Hsubs. lia.
    + intros pre' sub_id acc0 w4 acc1 w5 Hl H0.
      apply bind_Ok in H0 as (margin & w6 & _ & H0).
      apply ret_Ok in H0 as [<- _]. rewrite !length_app, Hl. done.
Qed.

Lemma no_raise_gen_categories n lo hi w :
  lo ≤ hi → no_raise (gen_categories n (lo, hi)) w.
Proof.
  intros Hlh. unfold gen_categories.
  apply (no_raise_for_each (λ _, True)); [done| |done].
  intros cat_id acc w0 _. simpl.
  apply no_raise_bind; [by apply no_raise_random_randint|]. intros n_sub w1 _.
  apply no_raise_bind; [|intros; apply no_raise_ret].
  apply (no_raise_for_each (λ _, True)); [done| |done].
  intros sub_id acc0 w2 _.
  apply no_raise_bind; [apply no_raise_random_uniform|intros; apply no_raise_ret].
Qed.

Lemma no_raise_gen_products cats n w :
  cats ≠ [] → Forall (λ c, Category.subcategories c ≠ []) cats →
  no_raise (gen_products cats n) w.
Proof.
  intros Hne Hsub. unfold gen_products.
  apply (no_raise_for_each (λ _, True)); [done| |done].
  intros prod_id acc w0 _. unfold gen_product.
  apply no_raise_bind; [by apply no_raise_random_choice|]. intros cat w1 Hcat.
  apply random_choice_elem_of in Hcat.
  apply no_raise_bind.
  { apply no_raise_random_choice. by eapply (proj1 (Forall_forall _ _) Hsub). }
  intros sub w2 _.
  apply no_raise_bind; [apply no_raise_random_uniform|]. intros price0 w3 _.
  apply no_raise_bind; [by apply no_raise_random_randint|]. intros n_changes w4 _.
  apply no_raise_bind.
  { apply (no_raise_for_each (λ _, True)); [done| |done].
    intros i ph w5 _. unfold price_change.
    apply no_raise_bind; [apply no_raise_random_uniform|intros; apply no_raise_ret]. }
  intros ph w5 _.
  apply no_raise_bind; [by apply no_raise_random_randint|]. intros stock w6 _.
  apply no_raise_bind; [apply no_raise_random_random|]. intros r w7 _.
  apply no_raise_bind; [|intros; apply no_raise_ret].
  destruct (bool_decide _); [apply no_raise_ret|].
  apply no_raise_bind; [apply no_raise_random_random|intros; apply no_raise_ret].
Qed.

(** ** A transaction target above the stock of the only product *)

Lemma orphan_transactions_exit fuel users inv tx_target st w st' w' :
  orphan_transactions fuel users inv tx_target st w = Ok (st', w') →
  tx_target ≤ tx_written st'.
Proof.
  revert st w. induction fuel as [|fuel IH]; intros st w H; simpl in H;
    (destruct (decide _); [|apply ret_Ok in H as [<- _]; lia]); [done|].
  apply bind_Ok in H as (u & w1 & _ & H).
  apply bind_Ok in H as ([tx|] & w2 & _ & H); by eapply IH.
Qed.

Lemma gen_orphan_transaction_items u inv w t w' :
  gen_orphan_transaction u inv w = Ok (Some t, w') → Transaction.items t ≠ [].
Proof.
  unfold gen_orphan_transaction. intros H.
  apply bind_Ok in H as (n_items & ? & _ & H).
  apply bind_Ok in H as ([items subtotal] & ? & _ & H).
  destruct items; [by apply ret_Ok in H as [[=] _]|].
  apply bind_Ok in H as (t' & ? & [_ Hit]%make_transaction_fields & H).
  apply ret_Ok in H as [[= <-] _]. by rewrite Hit.
Qed.

Lemma orphan_transactions_count fuel users inv tx_target st w st' w' :
  tx_written st = Z.of_nat (length (written (txf st))) →
  Forall (λ t, Transaction.items t ≠ []) (written (txf st)) →
  orphan_transactions fuel users inv tx_target st w = Ok (st', w') →
  tx_written st' = Z.of_nat (length (written (txf st'))) ∧
  Forall (λ t, Transaction.items t ≠ []) (written (txf st')).
Proof.
  intros Hn Hall.
  apply (orphan_transactions_inv (λ st _,
    tx_written st = Z.of_nat (length (written (txf st))) ∧
    Forall (λ t, Transaction.items t ≠ []) (written (txf st)))); [done|done|].
  clear. intros st w u w1 tx w2 [Hn Hall] _ _ Htx%gen_orphan_transaction_items.
  cbn [txf tx_written]. rewrite written_write_tx, length_app. simpl.
  split; [lia|]. apply Forall_app. split; [done|by constructor].
Qed.

Lemma length_committed_lines txs :
  Forall (λ t, Transaction.items t ≠ []) txs →
  (length txs ≤ length (committed_lines txs))%nat.
Proof.
  unfold committed_lines. induction 1 as [|t txs Ht _ IH]; [done|].
  csimpl. rewrite length_app. destruct (Transaction.items t); [done|]. simpl. lia.
Qed.

Lemma quantity_sold_single_product p0 items :
  Forall (line_of [p0]) items →
  Z.of_nat (length items) ≤ quantity_sold (Product.product_id p0) items.
Proof.
  unfold quantity_sold. induction 1 as [|it items [Hq Hin] _ IH]; [done|].
  rewrite filter_cons, decide_True; [csimpl; lia|].
  by apply list_elem_of_singleton in Hin.
Qed.

Lemma gen_products_one cats w ps w' :
  gen_products cats 1 w = Ok (ps, w') → ∃ p0, ps = [p0] ∧ well_stocked p0.
Proof.
  intros H%gen_products_spec. change (range 1) with [0%nat] in H.
  apply Forall2_cons_inv_l in H as (p0 & ps' & [_ Hp0] & ->%Forall2_nil_inv_l & ->).
  by exists p0.
Qed.

Lemma sold_out_never_completes rng fuel out w' :
  main fuel cfg_sold_out (World rng 0 []) ≠ Ok (out, w').
Proof.
  intros (cats & w1 & ps & w2 & st1 & w3 & st2 & Hcats & Hps & Hsess & Horph & _)%main_Ok.
  rewrite session_chunks_done in Hsess by done. injection Hsess as <- <-.
  pose proof (orphan_transactions_exit _ _ _ _ _ _ _ _ Horph) as Hexit.
  pose proof Horph as Hc.
  eapply orphan_transactions_count in Hc as [Hn Hall]; [|done|by constructor].
  pose proof (init_ledger_ok ps (gen_products_NoDup _ _ _ _ _ Hps)) as Hok.
  eapply (orphan_transactions_debited _ _ _ _ ps) in Horph as [_ (Hq & _ & D)];
    [|done|apply debited_refl].
  apply gen_products_one in Hps as (p0 & -> & Hp0 & _ & Hmax).
  destruct (D 0%nat p0 eq_refl) as (p' & _ & _ & Hsold & Hnn).
  apply quantity_sold_single_product in Hq.
  apply length_committed_lines in Hall.
  specialize (Hnn Hp0). simpl in Hexit. lia.
Qed.

Lemma sold_out_no_raise rng fuel :
  no_raise (main fuel cfg_sold_out) (World rng 0 []).
Proof.
  unfold main.
  apply no_raise_bind; [by apply no_raise_gen_categories|]. intros cats w1 Hcats.
  apply gen_categories_spec in Hcats as [Hlen Hsub]; [|done].
  apply no_raise_bind; [apply no_raise_gen_products; [by intros ->|done]|].
  intros ps w2 Hps. apply gen_products_one in Hps as (p0 & -> & _).
  apply no_raise_bind; [by intros e|]. intros [] w3 [= <-].
  apply no_raise_bind.
  { intros e. by rewrite session_chunks_done. }
  intros st1 w4 Hs. rewrite session_chunks_done in Hs by done.
  injection Hs as <- <-.
  apply no_raise_bind; [by apply no_raise_orphan_transactions|]. intros st2 w5 _.
  apply no_raise_bind; [by intros e|intros; apply no_raise_ret].
Qed.

(** C4 at failing inputs. With one product, no session and a transaction
    target of 1001, the run never ends, whatever the random generator: a
    product is created with at most 1000 units and every orphan transaction
    takes at least one, so the target is out of reach, and the loop retries
    without end. The same happens with a target of 1 when the only product is
    created inactive. In both cases the run is still going when its fuel is
    used up, whatever the fuel. *)
Theorem orphan_fallback_never_ends :
  (∀ rng fuel, main fuel cfg_sold_out (World rng 0 []) = Timeout) ∧
  (∀ fuel, main fuel cfg_orphans_only (World rng_inactive 0 []) = Timeout).
Proof.
  split; [|apply inactive_product_never_ends].
  intros rng fuel.
  destruct (main fuel cfg_sold_out (World rng 0 [])) as [[out w']|e|] eqn:E; [| |done].
  - by apply sold_out_never_completes in E.
  - by apply sold_out_no_raise in E.
Qed.

(** ** The number of page views the code does guarantee *)

Lemma make_page_flow_length d w slots w' :
  30 ≤ d → make_page_flow d w = Ok (slots, w') → (3 ≤ length slots ≤ 15)%nat.
Proof.
  intros Hd H. unfold make_page_flow in H.
  apply bind_Ok in H as (n_views & w1 & Hn%random_randint_range & H).
  apply bind_Ok in H as (cuts & w2 & Hcuts & H).
  apply ret_Ok in H as [<- _].
  apply (for_each_ind (λ pre (cuts : gset Z) _,
    (size cuts ≤ length pre)%nat ∧
    (0 < length pre → 0 < size cuts)%nat ∧
    ∀ c, c ∈ cuts → 1 ≤ c ≤ d - 1)) in Hcuts.
  - destruct Hcuts as (Hle & Hpos & Hin).
    unfold range in Hle, Hpos. rewrite length_seq in Hle, Hpos.
    unfold sorted_Z. rewrite merge_sort_Permutation.
    change (length (elements ({[0; d]} ∪ cuts))) with (size ({[0; d]} ∪ cuts)).
    specialize (Hpos ltac:(lia)).
    assert (Z.to_nat (n_views - 1) ≤ 13)%nat as Hmax by lia.
    assert ({[0; d]} ## cuts) as Hdisj.
    { intros c [->%elem_of_singleton| ->%elem_of_singleton]%elem_of_union
        Hc%Hin; lia. }
    assert (({[0]} : gset Z) ## {[d]}) as Hdisj0.
    { intros c ->%elem_of_singleton ?%elem_of_singleton. lia. }
    rewrite !size_union, !size_singleton by done.
    clear -Hle Hpos Hmax. lia.
  - rewrite size_empty. split_and!; [done|simpl; lia|].
    by intros c ?%not_elem_of_empty.
  - clear Hcuts. intros pre x acc w0 acc' w3 (Hle & Hpos & Hin) H.
    apply bind_Ok in H as (c & w4 & Hc%random_randint_range & H).
    apply ret_Ok in H as [<- _]. rewrite length_app. simpl. split_and!.
    + rewrite size_union_alt.
      pose proof (subseteq_size ({[c]} ∖ acc) {[c]}
                    ltac:(apply subseteq_difference_l; done)) as Hs.
      rewrite size_singleton in Hs. lia.
    + intros _.
      pose proof (subseteq_size {[c]} (acc ∪ {[c]})
                    ltac:(apply union_subseteq_r)) as Hs.
      rewrite size_singleton in Hs. lia.
    + intros c' [?| ->%elem_of_singleton]%elem_of_union; [by apply Hin|done].
Qed.

Lemma page_views_length cats inv slots xs st w st' w' :
  for_each xs (page_view_step cats inv slots) st w = Ok (st', w') →
  length (page_views st') = (length (page_views st) + length xs)%nat.
Proof.
  intros H.
  apply (for_each_ind (λ pre st' _,
    length (page_views st') = (length (page_views st) + length pre)%nat)) in H;
    [done|simpl; lia|].
  clear. intros pre i st0 w0 st1 w1 Hlen H. unfold page_view_step in H.
  apply bind_Ok in H as (ptype & w2 & _ & H).
  apply bind_Ok in H as ([[[product_id category_id] viewed] new_cart] & w3 & _ & H).
  apply ret_Ok in H as [<- _]. simpl. rewrite !length_app, Hlen. simpl. lia.
Qed.

(** What the code guarantees in place of C6: a session has between 2 and
    14 page views. *)
Lemma page_views_between_2_and_14 u cats inv w s tx w' :
  session_record u cats inv w = Ok ((s, tx), w') →
  (2 ≤ length (Session.page_views s) ≤ 14)%nat.
Proof.
  intros H. unfold session_record in H.
  apply bind_Ok in H as (hex & w1 & _ & H).
  apply bind_Ok in H as (d & w2 & Hd%random_randint_range & H).
  do 3 (apply bind_Ok in H as (? & ? & _ & H)).
  apply bind_Ok in H as (slots & w3 & Hslots & H).
  apply make_page_flow_length in Hslots; [|lia].
  apply bind_Ok in H as (st' & w4 & Hloop & H).
  pose proof Hloop as Hlen%page_views_length.
  unfold range in Hlen. rewrite length_seq in Hlen. simpl in Hlen.
  assert (Session.page_views s = page_views st') as ->.
  { do 2 (apply bind_Ok in H as (? & ? & _ & H)).
    destruct (_ && _); inv_run; [|by simplify_eq];
      repeat case_match; inv_run; by simplify_eq. }
  lia.
Qed.

(** * Further properties *)

(** ** Weighted choice and page types *)

Lemma weighted_choice_go_elem_of {A} (r total : Z) (choices : list (A * Z)) v :
  weighted_choice_go r total choices = Some v → v ∈ choices.*1.
Proof.
  revert total. induction choices as [|[v0 wt] choices IH]; intros total; [done|].
  simpl. destruct (decide _); [intros [= ->]; by left|].
  intros H%IH. by right.
Qed.



Lemma weighted_choice_run {A} (choices : list (A * Z)) w :
  weighted_choice choices w
  = match weighted_choice_go (next_random w) 0 choices with
    | Some v => Ok (v, advance w 1)
    | None =>
        match last choices with
        | Some (v, _) => Ok (v, advance w 1)
        | None => Raise IndexError
        end
    end.
Proof.
  unfold weighted_choice, random_random, mbind, M_bind, draw, mret, M_ret,
    next_random, advance, raise.
  rewrite Nat.add_1_r.
  destruct (weighted_choice_go _ 0 choices); [done|].
  by destruct (last choices) as [[v ?]|].
Qed.

Lemma weighted_choice_elem_of {A} (choices : list (A * Z)) w v w' :
  weighted_choice choices w = Ok (v, w') → v ∈ choices.*1 ∧ w' = advance w 1.
Proof.
  rewrite weighted_choice_run.
  destruct (weighted_choice_go _ 0 choices) as [v0|] eqn:Hgo.
  - intros [= <- <-]. split; [by eapply weighted_choice_go_elem_of|done].
  - destruct (last choices) as [[v0 wt]|] eqn:Hlast; [|done].
    intros [= <- <-]. split; [|done].
    apply last_Some in Hlast as [l' ->]. rewrite fmap_app. set_solver.
Qed.


Lemma for_each_seq_ind {S} (I : nat → S → world → Prop) (a n : nat)
    (body : nat → S → M S) acc w acc' w' :
  I a acc w →
  (∀ k acc w acc' w',
     (a ≤ k < a + n)%nat → I k acc w → body k acc w = Ok (acc', w') →
     I (Datatypes.S k) acc' w') →
  for_each (seq a n) body acc w = Ok (acc', w') → I (a + n)%nat acc' w'.
Proof.
  revert a acc w. induction n as [|n IH]; intros a acc w HI Hstep H; simpl in H.
  - apply ret_Ok in H as [<- <-]. by rewrite Nat.add_0_r.
  - apply bind_Ok in H as (acc1 & w1 & H1 & H2).
    rewrite <-Nat.add_succ_comm. eapply IH; [|intros k ????? ; apply Hstep; lia|done].
    eapply Hstep; [|done..]. lia.
Qed.

Lemma choose_page_type_spec i prev w pt w' :
  choose_page_type i prev w = Ok (pt, w') →
  (i = 0%nat ∧ pt = home ∧ w' = w) ∨
  (i ≠ 0%nat ∧ pt ≠ home ∧ w' = advance w 1 ∧
   ∀ pv, last prev = Some pv → allowed_after (PageView.page_type_ pv) pt).
Proof.
  unfold choose_page_type. destruct (decide (i = 0%nat)) as [->|Hi].
  { intros [= <- <-]. by left. }
  intros H. right. split; [done|].
  destruct (decide (_ = Some cart)) as [Hc|Hc];
    [|destruct (decide (_ = Some checkout)) as [Hk|Hk]];
    apply weighted_choice_elem_of in H as [Hin ->]; simpl in Hin;
    rewrite !elem_of_cons, elem_of_nil in Hin.
  - split_and!; [intros ->; intuition discriminate|done|].
    intros pv Hl. rewrite Hl in Hc. injection Hc as ->. simpl. tauto.
  - split_and!; [intros ->; intuition discriminate|done|].
    intros pv Hl. rewrite Hl in Hk. injection Hk as ->. simpl. tauto.
  - split_and!; [intros ->; intuition discriminate|done|].
    intros pv Hl. rewrite Hl in Hc, Hk. simpl in Hc, Hk.
    destruct (PageView.page_type_ pv); simpl; (tauto || done).
Qed.

(** ** The page views of a session, one by one *)

Lemma page_view_step_record cats inv slots i st w st' w' :
  length (page_views st) = i →
  page_view_step cats inv slots i st w = Ok (st', w') →
  ∃ pv, page_views st' = page_views st ++ [pv] ∧
        page_view_ok slots i (last (page_views st)) pv.
Proof.
  intros Hlen H. unfold page_view_step in H.
  apply bind_Ok in H as (ptype & w1 & Hpt%choose_page_type_spec & H).
  apply bind_Ok in H as ([[[product_id category_id] viewed] new_cart] & w2 & Hbr & H).
  apply ret_Ok in H as [<- _]. eexists. split; [done|].
  unfold page_view_ok. simpl.
  assert (ptype = home ↔ i = 0%nat) as Hhome.
  { destruct Hpt as [(? & ? & _)|(? & ? & _)]; tauto. }
  assert (∀ prev, last (page_views st) = Some prev →
            allowed_after (PageView.page_type_ prev) ptype) as Hafter.
  { intros prev Hprev. destruct Hpt as [(-> & _)|(_ & _ & _ & Ha)]; [|by apply Ha].
    by destruct (page_views st). }
  split_and!; try done.
  - destruct ptype; inv_run; simplify_eq/=; split; intros Hx;
      solve [done | by eexists | destruct Hx as [? Hx]; discriminate Hx].
  - destruct ptype; inv_run; simplify_eq/=; split; intros Hx;
      solve [by eexists | auto | destruct Hx as [? Hx]; discriminate Hx
            | destruct Hx as [Hx|Hx]; discriminate Hx].
Qed.

Lemma page_views_loop cats inv slots n w st w' :
  for_each (seq 0 n) (page_view_step cats inv slots) (Views [] ∅ []) w
    = Ok (st, w') →
  length (page_views st) = n ∧
  ∀ i pv, page_views st !! i = Some pv →
    page_view_ok slots i
      (match i with O => None | S j => page_views st !! j end) pv.
Proof.
  intros H.
  apply (for_each_seq_ind (λ k st _,
    length (page_views st) = k ∧
    ∀ i pv, page_views st !! i = Some pv →
      page_view_ok slots i
        (match i with O => None | S j => page_views st !! j end) pv)) in H;
    [done|by split|].
  clear. intros k st w st' w' _ [Hlen HI] (pv & -> & Hpv)%page_view_step_record;
    [|done].
  rewrite length_app, Hlen. simpl. split; [lia|].
  intros i pv' Hi.
  destruct (decide (i < k)%nat) as [Hlt|Hge].
  - rewrite lookup_app_l in Hi by lia.
    replace (match i with O => None | S j => (page_views st ++ [pv]) !! j end)
      with (match i with O => None | S j => page_views st !! j end);
      [by apply HI|].
    destruct i as [|j]; [done|]. by rewrite lookup_app_l by lia.
  - assert (i = k) as ->.
    { apply lookup_lt_Some in Hi. rewrite length_app in Hi. simpl in Hi. lia. }
    rewrite lookup_app_r, Hlen, Nat.sub_diag in Hi by lia. injection Hi as <-.
    replace (match k with O => None | S j => (page_views st ++ [pv]) !! j end)
      with (last (page_views st)); [done|].
    rewrite last_lookup, Hlen. destruct k as [|j]; simpl.
    + by apply nil_length_inv in Hlen as ->.
    + by rewrite lookup_app_l by lia.
Qed.

(** A successful call of [session_record], part by part. *)
Lemma session_record_parts u cats inv w s tx w' :
  session_record u cats inv w = Ok ((s, tx), w') →
  ∃ hex w1 d w2 w3 slots w4 st w5,
    rand_hex 10 w = Ok (hex, w1) ∧
    random_randint 30 3600 w1 = Ok (d, w2) ∧
    make_page_flow d w3 = Ok (slots, w4) ∧
    for_each (range (Z.of_nat (length slots) - 1))
      (page_view_step cats inv slots) (Views [] ∅ []) w4 = Ok (st, w5) ∧
    heap w4 = heap w ∧ heap w5 = heap w ∧
    Session.session_id s = "sess_" +:+ hex ∧
    Session.user_id s = User.user_id u ∧
    Session.duration_seconds s = d ∧
    Session.page_views s = page_views st ∧
    Session.viewed_products s = sorted_str (viewed_products st) ∧
    Session.cart_contents s
      = filter (λ line, positive_quantity line) (cart_contents st).
Proof.
  intros H. unfold session_record in H.
  apply bind_Ok in H as (hex & w1 & Hhex & H).
  apply bind_Ok in H as (d & w2 & Hd & H).
  do 3 bind_keeps H.
  apply bind_Ok in H as (slots & w4 & Hslots & H).
  apply bind_Ok in H as (st & w5 & Hloop & H).
  pose proof (keeps_heap_rand_hex _ _ _ _ Hhex) as [? _].
  pose proof (keeps_heap_random_randint _ _ _ _ _ Hd) as [? _].
  pose proof (keeps_heap_make_page_flow _ _ _ _ Hslots) as [? _].
  assert (keeps_heap (for_each (range (Z.of_nat (length slots) - 1))
            (page_view_step cats inv slots) (Views [] ∅ []))) as Kloop by keeps.
  apply Kloop in Hloop as Hh5. destruct Hh5 as [? _].
  eexists hex, w1, d, w2, _, slots, w4, st, w5.
  split_and!; [done..|congruence|congruence| | | | | |];
    do 2 (apply bind_Ok in H as (? & ? & _ & H));
    (destruct (_ && _); inv_run; [|by simplify_eq];
     repeat case_match; inv_run; by simplify_eq).
Qed.

(** ** Identifiers *)

Lemma rand_hex_spec n w s w' :
  rand_hex n w = Ok (s, w') → String.length s = n ∧ hex_string s ∧ w' = advance w n.
Proof.
  revert w s w'. induction n as [|n IH]; intros w s w' H.
  - apply ret_Ok in H as [<- <-]. by rewrite advance_0.
  - change (rand_hex (S n))
      with (c ← random_choice hex_digits; s ← rand_hex n; mret (String c s)) in H.
    apply bind_Ok in H as (c & w1 & Hc & H).
    apply bind_Ok in H as (s' & w2 & Hs & H). apply ret_Ok in H as [<- <-].
    apply IH in Hs as (Hlen & Hhex & ->).
    destruct (random_choice_advance hex_digits w ltac:(done)) as [c' Hc'].
    pose proof (random_choice_elem_of _ _ _ _ Hc).
    rewrite Hc in Hc'. injection Hc' as _ ->.
    simpl. rewrite Hlen, advance_advance. done.
Qed.

Lemma make_transaction_record sid u items subtotal w t w' :
  make_transaction sid u items subtotal w = Ok (t, w') →
  ∃ hex,
    Transaction.transaction_id t = "txn_" +:+ hex ∧
    String.length hex = 12%nat ∧ hex_string hex ∧
    Transaction.session_id t = sid ∧
    Transaction.user_id t = User.user_id u ∧
    Transaction.items t = items ∧
    Transaction.subtotal t = subtotal ∧
    Transaction.total t = Transaction.subtotal t - Transaction.discount t ∧
    Transaction.payment_method t ∈ PAYMENT_METHODS ∧
    Transaction.status t ∈ TX_STATUSES.
Proof.
  unfold make_transaction. intros H.
  apply bind_Ok in H as (discount & w1 & _ & H).
  apply bind_Ok in H as (hex & w2 & (Hlen & Hhex & _)%rand_hex_spec & H).
  apply bind_Ok in H as (pm & w3 & Hpm%random_choice_elem_of & H).
  apply bind_Ok in H as (status & w4 & Hst%random_choice_elem_of & H).
  apply ret_Ok in H as [<- _]. by exists hex.
Qed.

(** The transaction of a session comes from committing the session's cart. *)
Lemma session_record_transaction u cats inv w s t w' :
  session_record u cats inv w = Ok ((s, Some t), w') →
  ∃ items subtotal wa wb,
    for_each (PyDict.items (Session.cart_contents s)) (commit_line inv) ([], 0) wa
      = Ok ((items, subtotal), wb) ∧
    items ≠ [] ∧
    make_transaction (Some (Session.session_id s)) u items subtotal wb = Ok (t, w') ∧
    heap wa = heap w ∧
    Session.conversion_status s = converted.
Proof.
  intros H. unfold session_record in H.
  do 9 bind_keeps H.
  match type of H with
  | _ ?w0 = Ok _ => assert (heap w0 = heap w) as Hh by congruence
  end.
  destruct (_ && _); [|by apply ret_Ok in H as [[=] _]].
  apply bind_Ok in H as ([items subtotal] & wb & Hloop & H).
  destruct items as [|it items]; [by apply ret_Ok in H as [[=] _]|].
  apply bind_Ok in H as (t' & wc & Ht & H).
  apply ret_Ok in H as [[= <- <-] <-].
  eexists _, _, _, _. split_and!; [exact Hloop|done|exact Ht|exact Hh|done].
Qed.

(** X2. In every session the first page view, and only the first, is of
    type home; a page view carries a product id exactly when it is a
    product_detail view and a category id exactly when it is a
    category_listing or product_detail view; and each page type is one the
    transition table allows after the type before it (after cart: checkout,
    product_detail or search; after checkout: checkout, cart or
    product_detail; otherwise search, category_listing, product_detail or
    cart). *)
Theorem page_types_of_a_session (u : user) (cats : list category)
    (inv : Inventory.t) (w : world) (s : session) (tx : option transaction)
    (w' : world) :
  session_record u cats inv w = Ok ((s, tx), w') →
  ∀ i pv, Session.page_views s !! i = Some pv →
    (PageView.page_type_ pv = home ↔ i = 0%nat) ∧
    (is_Some (PageView.product_id pv) ↔ PageView.page_type_ pv = product_detail) ∧
    (is_Some (PageView.category_id pv) ↔
       PageView.page_type_ pv = category_listing ∨
       PageView.page_type_ pv = product_detail) ∧
    (∀ j prev, i = S j → Session.page_views s !! j = Some prev →
       allowed_after (PageView.page_type_ prev) (PageView.page_type_ pv)).
Proof.
  intros (hex & w1 & d & w2 & w3 & slots & w4 & st & w5 & _ & _ & _ & Hloop & _ &
          _ & _ & _ & _ & -> & _)%session_record_parts i pv Hpv.
  apply page_views_loop in Hloop as [_ Hall].
  destruct (Hall i pv Hpv) as (_ & _ & Hhome & Hprod & Hcat & Hafter).
  split_and!; [done..|]. intros j prev -> Hprev. by apply Hafter.
Qed.

Lemma page_types_of_a_session_witness :
  ∃ s tx w',
    session_record first_user one_category (Inventory.init heap_viewing) w_viewing
      = Ok ((s, tx), w') ∧
    PageView.page_type_ <$> Session.page_views s = [home; product_detail] ∧
    ∀ i pv, Session.page_views s !! i = Some pv →
      (PageView.page_type_ pv = home ↔ i = 0%nat) ∧
      (is_Some (PageView.product_id pv) ↔ PageView.page_type_ pv = product_detail) ∧
      (is_Some (PageView.category_id pv) ↔
         PageView.page_type_ pv = category_listing ∨
         PageView.page_type_ pv = product_detail) ∧
      (∀ j prev, i = S j → Session.page_views s !! j = Some prev →
         allowed_after (PageView.page_type_ prev) (PageView.page_type_ pv)).
Proof.
  destruct (session_record first_user one_category (Inventory.init heap_viewing)
              w_viewing) as [[[s tx] w']| |] eqn:E; [|by vm_compute in E..].
  exists s, tx, w'. split; [done|]. split.
  - vm_compute in E. by injection E as <- _ _.
  - exact (page_types_of_a_session _ _ _ _ _ _ _ E).
Defined.

(** X3. A session id is "sess_" followed by 10 lower-case hexadecimal
    digits. The transaction of a session has an id "txn_" followed by 12
    such digits, carries the session's id and user, has a total equal to its
    subtotal less its discount, and a payment method and a status from the
    fixed lists. *)
Theorem session_and_transaction_ids (u : user) (cats : list category)
    (inv : Inventory.t) (w : world) (s : session) (tx : option transaction)
    (w' : world) :
  session_record u cats inv w = Ok ((s, tx), w') →
  (∃ hex, Session.session_id s = "sess_" +:+ hex ∧
          String.length hex = 10%nat ∧ hex_string hex) ∧
  Session.user_id s = User.user_id u ∧
  ∀ t, tx = Some t →
    (∃ hex, Transaction.transaction_id t = "txn_" +:+ hex ∧
            String.length hex = 12%nat ∧ hex_string hex) ∧
    Transaction.session_id t = Some (Session.session_id s) ∧
    Transaction.user_id t = Session.user_id s ∧
    Transaction.total t = Transaction.subtotal t - Transaction.discount t ∧
    Transaction.payment_method t ∈ PAYMENT_METHODS ∧
    Transaction.status t ∈ TX_STATUSES.
Proof.
  intros H.
  pose proof H as (hex & w1 & d & w2 & w3 & slots & w4 & st & w5 & Hhex & _ & _ &
                   _ & _ & _ & Hsid & Hu & _)%session_record_parts.
  apply rand_hex_spec in Hhex as (Hlen & Hhex & _).
  split_and!; [by exists hex|done|].
  intros t ->.
  apply session_record_transaction in H as (items & subtotal & wa & wb & _ & _ & Ht & _).
  apply make_transaction_record in Ht
    as (hex' & ? & ? & ? & ? & ? & ? & ? & ? & ? & ?).
  split_and!; [by exists hex'|congruence..|done|done|done].
Qed.

Lemma session_and_transaction_ids_witness :
  ∃ s t w',
    session_record first_user one_category (Inventory.init heap_viewing) w_viewing
      = Ok ((s, Some t), w') ∧
    Session.session_id s = "sess_0000000000" ∧
    Transaction.transaction_id t = "txn_000000000000" ∧
    Transaction.session_id t = Some (Session.session_id s).
Proof.
  destruct (session_record first_user one_category (Inventory.init heap_viewing)
              w_viewing) as [[[s [t|]] w']| |] eqn:E; [|by vm_compute in E..].
  exists s, t, w'. split; [done|].
  destruct (session_and_transaction_ids _ _ _ _ _ _ _ E) as (_ & _ & Ht).
  destruct (Ht t eq_refl) as (_ & Hsid & _).
  vm_compute in E. injection E as <- <- _. by split_and!.
Defined.

(** ** The time slots of a session *)

Lemma bind_raise {A B} (m : M A) (k : A → M B) w e :
  m w = Raise e → (m ≫= k) w = Raise e.
Proof. unfold mbind, M_bind. by intros ->. Qed.

Lemma make_page_flow_raises d w : d ≤ 1 → make_page_flow d w = Raise ValueError.
Proof.
  intros Hd. unfold make_page_flow.
  destruct (random_randint 4 14 w) as [[n w1]| |] eqn:Hn;
    [|unfold random_randint in Hn; by destruct (decide _)..].
  erewrite bind_run by done. apply random_randint_range in Hn.
  apply bind_raise. unfold range.
  destruct (Z.to_nat (n - 1)) as [|k] eqn:Hk; [lia|]. simpl.
  apply bind_raise, bind_raise. unfold random_randint.
  by rewrite decide_True by lia.
Qed.

Lemma make_page_flow_set d w slots w' :
  make_page_flow d w = Ok (slots, w') →
  2 ≤ d ∧
  ∃ cuts : gset Z,
    slots = sorted_Z ({[0; d]} ∪ cuts) ∧
    (1 ≤ size cuts ≤ 13)%nat ∧ ∀ c, c ∈ cuts → 1 ≤ c ≤ d - 1.
Proof.
  intros H. assert (2 ≤ d) as Hd.
  { destruct (decide (d ≤ 1)); [|lia]. by rewrite make_page_flow_raises in H. }
  split; [done|]. unfold make_page_flow in H.
  apply bind_Ok in H as (n_views & w1 & Hn%random_randint_range & H).
  apply bind_Ok in H as (cuts & w2 & Hcuts & H).
  apply ret_Ok in H as [<- _]. exists cuts. split; [done|].
  apply (for_each_ind (λ pre (cuts : gset Z) _,
    (size cuts ≤ length pre)%nat ∧
    (0 < length pre → 0 < size cuts)%nat ∧
    ∀ c, c ∈ cuts → 1 ≤ c ≤ d - 1)) in Hcuts.
  - destruct Hcuts as (Hle & Hpos & Hin).
    unfold range in Hle, Hpos. rewrite length_seq in Hle, Hpos.
    specialize (Hpos ltac:(lia)). split; [lia|done].
  - rewrite size_empty. split_and!; [done|simpl; lia|].
    by intros c ?%not_elem_of_empty.
  - clear Hcuts. intros pre x acc w0 acc' w3 (Hle & Hpos & Hin) H.
    apply bind_Ok in H as (c & w4 & Hc%random_randint_range & H).
    apply ret_Ok in H as [<- _]. rewrite length_app. simpl. split_and!.
    + rewrite size_union_alt.
      pose proof (subseteq_size ({[c]} ∖ acc) {[c]}
                    ltac:(apply subseteq_difference_l; done)) as Hs.
      rewrite size_singleton in Hs. lia.
    + intros _.
      pose proof (subseteq_size {[c]} (acc ∪ {[c]})
                    ltac:(apply union_subseteq_r)) as Hs.
      rewrite size_singleton in Hs. lia.
    + intros c' [?| ->%elem_of_singleton]%elem_of_union; [by apply Hin|done].
Qed.

Lemma StronglySorted_le_lt (l : list Z) :
  StronglySorted Z.le l → NoDup l → StronglySorted Z.lt l.
Proof.
  induction 1 as [|x l _ IH Hall]; intros Hnd; [constructor|].
  apply NoDup_cons in Hnd as [Hx Hnd]. constructor; [by apply IH|].
  apply Forall_forall. intros y Hy.
  pose proof (proj1 (Forall_forall _ _) Hall y Hy).
  assert (x ≠ y) by (by intros ->). lia.
Qed.

Lemma sorted_head (l : list Z) (a : Z) :
  StronglySorted Z.lt l → a ∈ l → (∀ x, x ∈ l → a ≤ x) → head l = Some a.
Proof.
  intros Hs Ha Hmin. destruct Hs as [|x l _ Hall]; [by apply elem_of_nil in Ha|].
  simpl. f_equal. apply elem_of_cons in Ha as [->|Ha]; [done|].
  pose proof (proj1 (Forall_forall _ _) Hall a Ha).
  pose proof (Hmin x ltac:(by left)). lia.
Qed.

Lemma sorted_last (l : list Z) (b : Z) :
  StronglySorted Z.lt l → b ∈ l → (∀ x, x ∈ l → x ≤ b) → last l = Some b.
Proof.
  induction 1 as [|x l Hs IH Hall]; intros Hb Hmax; [by apply elem_of_nil in Hb|].
  destruct l as [|y l]; [apply list_elem_of_singleton in Hb as ->; done|].
  change (last (x :: y :: l)) with (last (y :: l)).
  apply IH; [|intros z Hz; apply Hmax; by right].
  apply elem_of_cons in Hb as [->|Hb]; [|done].
  pose proof (proj1 (Forall_forall _ _) Hall y ltac:(by left)).
  pose proof (Hmax y ltac:(right; by left)). lia.
Qed.

Lemma make_page_flow_shape d w slots w' :
  make_page_flow d w = Ok (slots, w') →
  StronglySorted Z.lt slots ∧ head slots = Some 0 ∧ last slots = Some d ∧
  (3 ≤ length slots ≤ 15)%nat.
Proof.
  intros (Hd & cuts & -> & Hsize & Hin)%make_page_flow_set. unfold sorted_Z.
  assert (StronglySorted Z.lt (merge_sort Z.le (elements ({[0; d]} ∪ cuts)))) as Hs.
  { apply StronglySorted_le_lt; [apply StronglySorted_merge_sort; apply _|].
    rewrite merge_sort_Permutation. apply NoDup_elements. }
  assert (∀ x, x ∈ merge_sort Z.le (elements ({[0; d]} ∪ cuts)) ↔
               x = 0 ∨ x = d ∨ x ∈ cuts) as Hmem.
  { intros x. rewrite merge_sort_Permutation, elem_of_elements, !elem_of_union,
      !elem_of_singleton. tauto. }
  split; [done|split; [|split]].
  - apply sorted_head; [done|apply Hmem; tauto|].
    intros x [->|[->|Hx%Hin]]%Hmem; lia.
  - apply sorted_last; [done|apply Hmem; tauto|].
    intros x [->|[->|Hx%Hin]]%Hmem; lia.
  - rewrite merge_sort_Permutation.
    change (length (elements ({[0; d]} ∪ cuts))) with (size ({[0; d]} ∪ cuts)).
    assert ({[0; d]} ## cuts) as Hdisj.
    { intros c [->%elem_of_singleton| ->%elem_of_singleton]%elem_of_union
        Hc%Hin; lia. }
    assert (({[0]} : gset Z) ## {[d]}) as Hdisj0.
    { intros c ->%elem_of_singleton ?%elem_of_singleton. lia. }
    rewrite !size_union, !size_singleton by done. clear -Hsize. lia.
Qed.

(** X4. [make_page_flow(d)] raises ValueError when [d <= 1] (the range
    of the cut points is empty). Otherwise it returns a strictly increasing
    list of 3 to 15 points that starts at 0 and ends at [d]. *)
Theorem make_page_flow_points (d : Z) (w : world) :
  (d ≤ 1 → make_page_flow d w = Raise ValueError) ∧
  (∀ slots w', make_page_flow d w = Ok (slots, w') →
     2 ≤ d ∧ StronglySorted Z.lt slots ∧
     head slots = Some 0 ∧ last slots = Some d ∧
     (3 ≤ length slots ≤ 15)%nat).
Proof.
  split; [apply make_page_flow_raises|].
  intros slots w' H. split; [by apply make_page_flow_set in H as [? _]|].
  by eapply make_page_flow_shape.
Qed.

Lemma gaps_lookup (l : list Z) i x y :
  l !! i = Some x → l !! S i = Some y → gaps l !! i = Some (y - x).
Proof.
  revert i. induction l as [|a [|b l] IH]; intros i Hx Hy; [done|by destruct i|].
  destruct i as [|i]; simplify_eq/=; [done|]. by apply IH.
Qed.

Lemma length_gaps (l : list Z) : length (gaps l) = pred (length l).
Proof.
  induction l as [|a [|b l] IH]; [done..|].
  change (gaps (a :: b :: l)) with ((b - a) :: gaps (b :: l)).
  simpl in *. by rewrite IH.
Qed.

Lemma gaps_positive (l : list Z) :
  StronglySorted Z.lt l → Forall (λ x, 0 < x) (gaps l).
Proof.
  induction 1 as [|a l Hs IH Hall]; [constructor|].
  destruct l as [|b l]; [constructor|].
  change (gaps (a :: b :: l)) with ((b - a) :: gaps (b :: l)).
  constructor; [|done]. apply Forall_cons in Hall as [? _]. lia.
Qed.

Lemma sum_take_gaps (l : list Z) i a x :
  l !! 0%nat = Some a → l !! i = Some x → sum_Z (take i (gaps l)) = x - a.
Proof.
  revert i a. induction l as [|b [|c l] IH]; intros i a Ha Hx; [done| |].
  - destruct i; simplify_eq/=. lia.
  - change (gaps (b :: c :: l)) with ((c - b) :: gaps (c :: l)).
    destruct i as [|i]; simplify_eq/=; [lia|].
    pose proof (IH i c eq_refl Hx) as IH'. simpl in IH'. lia.
Qed.

Lemma page_view_durations cats inv slots w st w' :
  for_each (range (Z.of_nat (length slots) - 1))
    (page_view_step cats inv slots) (Views [] ∅ []) w = Ok (st, w') →
  PageView.view_duration <$> page_views st = gaps slots ∧
  ∀ i pv, page_views st !! i = Some pv → slots !! i = Some (PageView.offset pv).
Proof.
  intros [Hlen Hall]%page_views_loop.
  assert (length (page_views st) = pred (length slots)) as Hlen' by lia.
  split.
  - apply list_eq. intros i. rewrite list_lookup_fmap.
    destruct (page_views st !! i) as [pv|] eqn:Hpv; simpl.
    + destruct (Hall i pv Hpv) as (_ & -> & _).
      apply lookup_lt_Some in Hpv.
      destruct (lookup_lt_is_Some_2 slots i) as [x Hx]; [lia|].
      destruct (lookup_lt_is_Some_2 slots (S i)) as [y Hy]; [lia|].
      rewrite Hx, Hy. simpl. symmetry. by apply gaps_lookup.
    + symmetry. apply lookup_ge_None. rewrite length_gaps.
      apply lookup_ge_None in Hpv. lia.
  - intros i pv Hpv. destruct (Hall i pv Hpv) as (-> & _).
    apply lookup_lt_Some in Hpv.
    destruct (lookup_lt_is_Some_2 slots i) as [x Hx]; [lia|]. by rewrite Hx.
Qed.

(** X5. In every session the view durations of the page views are all
    positive and add up to the session's duration, which lies between 30 and
    3600 seconds; the first page view starts at offset 0 and each page view
    starts where the views before it end. *)
Theorem page_views_fill_the_session (u : user) (cats : list category)
    (inv : Inventory.t) (w : world) (s : session) (tx : option transaction)
    (w' : world) :
  session_record u cats inv w = Ok ((s, tx), w') →
  30 ≤ Session.duration_seconds s ≤ 3600 ∧
  Forall (λ x, 0 < x) (PageView.view_duration <$> Session.page_views s) ∧
  sum_Z (PageView.view_duration <$> Session.page_views s)
    = Session.duration_seconds s ∧
  ∀ i pv, Session.page_views s !! i = Some pv →
    PageView.offset pv
    = sum_Z (take i (PageView.view_duration <$> Session.page_views s)).
Proof.
  intros (hex & w1 & d & w2 & w3 & slots & w4 & st & w5 & _ & Hd & Hslots & Hloop &
          _ & _ & _ & _ & -> & -> & _)%session_record_parts.
  apply random_randint_range in Hd.
  apply make_page_flow_shape in Hslots as (Hs & Hhead & Hlast & Hlen).
  apply page_view_durations in Hloop as [-> Hoff].
  rewrite head_lookup in Hhead. rewrite last_lookup in Hlast.
  split_and!; [lia|lia|by apply gaps_positive| |].
  - pose proof (sum_take_gaps slots (pred (length slots)) 0 d Hhead Hlast) as Hsum.
    rewrite take_ge in Hsum by (by rewrite length_gaps). lia.
  - intros i pv Hpv%Hoff.
    rewrite (sum_take_gaps slots i 0 _ Hhead Hpv). lia.
Qed.

Lemma page_views_fill_the_session_witness :
  ∃ s tx w',
    session_record first_user one_category (Inventory.init heap_viewing) w_viewing
      = Ok ((s, tx), w') ∧
    PageView.view_duration <$> Session.page_views s = [1; 29] ∧
    sum_Z (PageView.view_duration <$> Session.page_views s)
      = Session.duration_seconds s.
Proof.
  destruct (session_record first_user one_category (Inventory.init heap_viewing)
              w_viewing) as [[[s tx] w']| |] eqn:E; [|by vm_compute in E..].
  exists s, tx, w'. split; [done|].
  destruct (page_views_fill_the_session _ _ _ _ _ _ _ E) as (_ & _ & Hsum & _).
  split; [|done]. vm_compute in E. by injection E as <- _ _.
Defined.

(** ** The generated catalogue *)

Lemma random_uniform_range a b w z w' :
  a ≤ b → random_uniform a b w = Ok (z, w') → a ≤ z ≤ b.
Proof.
  intros Hab H. unfold random_uniform in H.
  apply bind_Ok in H as (d & ? & _ & H). apply ret_Ok in H as [<- _].
  pose proof (Z.mod_pos_bound (Z.of_nat d) (b - a + 1)). lia.
Qed.

Lemma price_changes_spec n base w ph w' :
  0 < base →
  for_each (range n) price_change [base] w = Ok (ph, w') →
  length ph = S (Z.to_nat n) ∧ head ph = Some base ∧ Forall (λ x, 0 < x) ph.
Proof.
  intros Hb H.
  apply (for_each_ind (λ pre ph _,
    length ph = S (length pre) ∧ head ph = Some base ∧ Forall (λ x, 0 < x) ph)) in H.
  - destruct H as (-> & ? & ?). unfold range. by rewrite length_seq.
  - split_and!; [done|done|by repeat constructor].
  - clear H. intros pre x acc w0 acc' w1 (Hlen & Hhead & Hall) H.
    unfold price_change in H.
    apply bind_Ok in H as (f & w2 & Hf & H).
    apply random_uniform_range in Hf; [|lia].
    apply ret_Ok in H as [<- _]. rewrite !length_app, Hlen. simpl.
    split_and!; [lia|by destruct acc|].
    apply Forall_app. split; [done|]. constructor; [|done].
    assert (0 < default 0 (last acc)) as Hlast.
    { destruct (last acc) as [x0|] eqn:E; simpl.
      - apply last_Some_elem_of in E. by eapply (proj1 (Forall_forall _ _) Hall).
      - apply last_None in E. by subst. }
    apply Z.div_str_pos. nia.
Qed.

Lemma gen_product_catalogue cats prod_id ps w ps' w' :
  gen_product cats prod_id ps w = Ok (ps', w') →
  ∃ p, ps' = ps ++ [p] ∧ product_of_catalogue cats prod_id p.
Proof.
  unfold gen_product. intros H.
  apply bind_Ok in H as (cat & ? & Hcat%random_choice_elem_of & H).
  apply bind_Ok in H as (sub & ? & Hsub%random_choice_elem_of & H).
  apply bind_Ok in H as (base & ? & Hbase & H).
  apply random_uniform_range in Hbase; [|lia].
  apply bind_Ok in H as (nch & ? & Hn%random_randint_range & H).
  apply bind_Ok in H as (ph & ? & Hph & H).
  apply price_changes_spec in Hph as (Hlen & Hhead & Hpos); [|lia].
  apply bind_Ok in H as (stock0 & ? & Hstock0%random_randint_range & H).
  apply bind_Ok in H as (r & ? & _ & H).
  apply bind_Ok in H as (stock & ? & Hstock & H).
  apply ret_Ok in H as [<- _]. eexists. split; [done|].
  assert (stock = stock0 ∨ (stock = 0 ∧ bool_decide (r < 95) = false)) as Hs.
  { destruct (bool_decide (r < 95)); [apply ret_Ok in Hstock as [<- _]; by left|].
    apply bind_Ok in Hstock as (r' & ? & _ & Hstock).
    apply ret_Ok in Hstock as [<- _]. destruct (decide _); [by right|by left]. }
  unfold product_of_catalogue. simpl.
  split; [done|]. split; [by exists cat, sub|].
  split; [destruct Hs as [->|[-> _]]; [right; lia|by left]|].
  split.
  { intros [Hact Hst%bool_decide_eq_true]%andb_true_iff.
    destruct Hs as [->|[-> _]]; lia. }
  split; [lia|]. split; [eauto|]. split; [done|].
  destruct (last ph) as [lastp|] eqn:E; [done|]. apply last_None in E. by subst.
Qed.

(** X6. The products [gen_products] returns: as many as asked for, with
    pairwise distinct ids [prod_00000], [prod_00001], ... in order; each
    refers to a category of the list and to one of that category's
    subcategories; its stock is 0 or between 10 and 1000, and an active
    product has stock; it has one to three prices, all positive, the first
    between 5.00 and 500.00, and its base price is the last of them. *)
Theorem gen_products_catalogue (cats : list category) (n : Z) (w : world)
    (ps : list product) (w' : world) :
  gen_products cats n w = Ok (ps, w') →
  length ps = Z.to_nat n ∧
  NoDup (Product.product_id <$> ps) ∧
  ∀ i p, ps !! i = Some p → product_of_catalogue cats i p.
Proof.
  intros H.
  assert (Forall2 (product_of_catalogue cats) (range n) ps) as Hall.
  { revert H. unfold gen_products.
    apply (for_each_ind (λ pre ps _, Forall2 (product_of_catalogue cats) pre ps));
      [by constructor|].
    intros pre x acc w0 acc' w1 HI (p & -> & Hp)%gen_product_catalogue.
    apply Forall2_app; [done|]. by constructor. }
  split_and!.
  - apply Forall2_length in Hall. unfold range in Hall.
    by rewrite length_seq in Hall.
  - by eapply gen_products_NoDup.
  - intros i p Hp.
    destruct (Forall2_lookup_r _ _ _ _ _ Hall Hp) as (j & Hj & Hc).
    unfold range in Hj. by apply lookup_seq in Hj as [-> _].
Qed.

Lemma gen_products_catalogue_witness :
  ∃ ps w', gen_products one_category 2 (World (λ _, 0%nat) 0 []) = Ok (ps, w') ∧
    length ps = 2%nat ∧
    ∀ i p, ps !! i = Some p → product_of_catalogue one_category i p.
Proof.
  destruct (gen_products one_category 2 (World (λ _, 0%nat) 0 []))
    as [[ps w']| |] eqn:E; [|by vm_compute in E..].
  exists ps, w'. split; [done|].
  destruct (gen_products_catalogue _ _ _ _ _ E) as (Hlen & _ & Hall). done.
Defined.

Lemma gen_categories_raises n lo hi w :
  hi < lo → 0 < n → gen_categories n (lo, hi) w = Raise ValueError.
Proof.
  intros Hlh Hn. unfold gen_categories, range.
  destruct (Z.to_nat n) as [|k] eqn:E; [lia|]. simpl.
  apply bind_raise, bind_raise. unfold random_randint.
  by rewrite decide_True by (simpl; lia).
Qed.

Lemma gen_categories_all n lo hi w cats w' :
  gen_categories n (lo, hi) w = Ok (cats, w') →
  Forall2 (category_of_catalogue lo hi) (range n) cats.
Proof.
  unfold gen_categories.
  apply (for_each_ind (λ pre cats _, Forall2 (category_of_catalogue lo hi) pre cats));
    [by constructor|].
  intros pre cat_id acc w0 acc' w1 HI H.
  apply bind_Ok in H as (n_sub & w2 & Hn%random_randint_range & H).
  apply bind_Ok in H as (subs & w3 & Hsubs & H).
  apply ret_Ok in H as [<- _]. apply Forall2_app; [done|]. constructor; [|done].
  apply (for_each_ind (λ pre subs _,
    Forall2 (λ sub_id sub,
      Subcategory.subcategory_id sub
        = "sub_" +:+ zfill 3 (pretty cat_id) +:+ "_" +:+ zfill 2 (pretty sub_id) ∧
      10 ≤ Subcategory.profit_margin sub ≤ 40) pre subs)) in Hsubs;
    [|by constructor|].
  - split; [done|]. split.
    + exists n_sub. split; [done|]. apply Forall2_length in Hsubs.
      unfold range in Hsubs. by rewrite length_seq in Hsubs.
    + intros sub_id sub Hsub. simpl in Hsub.
      destruct (Forall2_lookup_r _ _ _ _ _ Hsubs Hsub) as (j & Hj & Hc).
      unfold range in Hj. by apply lookup_seq in Hj as [-> _].
  - intros pre' sub_id acc0 w4 acc1 w5 HI' H0.
    apply bind_Ok in H0 as (margin & w6 & Hm & H0).
    apply random_uniform_range in Hm; [|lia].
    apply ret_Ok in H0 as [<- _]. apply Forall2_app; [done|]. by constructor.
Qed.

(** X7. [gen_categories] with [subcats_per_cat = (lo, hi)]: when [hi < lo]
    and at least one category is asked for, it raises ValueError; otherwise
    it returns as many categories as asked for, with pairwise distinct ids
    [cat_000], [cat_001], ... in order, each with between [lo] and [hi]
    subcategories (none when that number is not positive) whose ids are
    [sub_CCC_00], [sub_CCC_01], ... and whose margins lie between 0.10 and
    0.40. *)
Theorem gen_categories_catalogue (n lo hi : Z) (w : world) :
  (hi < lo → 0 < n → gen_categories n (lo, hi) w = Raise ValueError) ∧
  (∀ cats w', gen_categories n (lo, hi) w = Ok (cats, w') →
     length cats = Z.to_nat n ∧
     NoDup (Category.category_id <$> cats) ∧
     ∀ i c, cats !! i = Some c → category_of_catalogue lo hi i c).
Proof.
  split; [apply gen_categories_raises|].
  intros cats w' Hall%gen_categories_all.
  assert (∀ i c, cats !! i = Some c → category_of_catalogue lo hi i c) as Hi.
  { intros i c Hc. destruct (Forall2_lookup_r _ _ _ _ _ Hall Hc) as (j & Hj & Hcat).
    unfold range in Hj. by apply lookup_seq in Hj as [-> _]. }
  split_and!; [|  |done].
  - apply Forall2_length in Hall. unfold range in Hall.
    by rewrite length_seq in Hall.
  - apply NoDup_alt. intros i j cid. rewrite !list_lookup_fmap.
    destruct (cats !! i) as [c|] eqn:Hc; [|done].
    destruct (cats !! j) as [c'|] eqn:Hc'; [|done].
    apply Hi in Hc as [Hc _]. apply Hi in Hc' as [Hc' _].
    simpl. intros [= Hi1] [= Hi2]. apply (fmt_id_inj "cat_" 3). congruence.
Qed.

(** X8. [gen_users] returns as many users as asked for (none for a number
    that is not positive), with ids [user_000000], [user_000001], ... in
    order, and no two users share an id, also beyond 999999 users where the
    ids grow longer than six digits. *)
Theorem gen_users_distinct (n : Z) :
  length (gen_users n) = Z.to_nat n ∧
  NoDup (User.user_id <$> gen_users n) ∧
  ∀ i u, gen_users n !! i = Some u → User.user_id u = fmt_id "user_" 6 i.
Proof.
  assert (∀ i u, gen_users n !! i = Some u → User.user_id u = fmt_id "user_" 6 i)
    as Hi.
  { intros i u. unfold gen_users, range. rewrite list_lookup_fmap.
    destruct (seq 0 (Z.to_nat n) !! i) as [j|] eqn:Hj; [|done].
    apply lookup_seq in Hj as [-> _]. by intros [= <-]. }
  split_and!; [unfold gen_users, range; by rewrite length_fmap, length_seq| |done].
  apply NoDup_alt. intros i j uid. rewrite !list_lookup_fmap.
  destruct (gen_users n !! i) as [u|] eqn:Hu; [|done].
  destruct (gen_users n !! j) as [u'|] eqn:Hu'; [|done].
  apply Hi in Hu. apply Hi in Hu'.
  simpl. intros [= H1] [= H2]. apply (fmt_id_inj "user_" 6). congruence.
Qed.

(** ** The files of a complete run *)

Lemma write_tx_write_item (st : writer transaction) tx :
  write_tx (wr_file st, wr_first st) tx
  = (wr_file (write_item st tx), wr_first (write_item st tx)).
Proof. unfold write_tx, write_item. simpl. by destruct (wr_first st). Qed.

Lemma foldl_write_tx_write_item (st : writer transaction) txs :
  foldl write_tx (wr_file st, wr_first st) txs
  = (wr_file (foldl write_item st txs), wr_first (foldl write_item st txs)).
Proof.
  revert st. induction txs as [|tx txs IH]; intros st; [done|].
  simpl. by rewrite write_tx_write_item, IH.
Qed.

Lemma streamed_app txs buf : foldl write_tx (streamed txs) buf = streamed (txs ++ buf).
Proof. unfold streamed. by rewrite foldl_app. Qed.

Lemma streamed_written txs : written (streamed txs).1 = txs.
Proof. unfold streamed. by rewrite written_foldl_write_tx. Qed.

Lemma streamed_closed txs :
  (streamed txs).1 ++ [Lit (NL +:+ "]" +:+ NL)] = (write_json_array txs).1.
Proof.
  unfold streamed, write_json_array.
  by rewrite (foldl_write_tx_write_item (Writer [Lit ("[" +:+ NL)] true 0)).
Qed.

Lemma session_chunks_streamed fuel users cats inv tx_target sess_target chunk_size
    w st' w' :
  session_chunks fuel users cats inv tx_target sess_target chunk_size
    (Stream [Lit ("[" +:+ NL)] true 0 0 0 []) w = Ok (st', w') →
  (∃ txs, (txf st', tx_first st') = streamed txs) ∧
  Forall (λ f, f = (write_json_array (written f)).1) (sessions_files st').
Proof.
  apply (session_chunks_inv (λ st _,
    (∃ txs, (txf st, tx_first st) = streamed txs) ∧
    Forall (λ f, f = (write_json_array (written f)).1) (sessions_files st))).
  { split; [by exists []|constructor]. }
  clear. intros st w ys buf txw w1 [[txs Htxs] Hfiles] _ _. cbn [txf tx_first sessions_files].
  split.
  - exists (txs ++ buf). by rewrite Htxs, streamed_app, <-surjective_pairing.
  - apply Forall_app. split; [done|]. constructor; [|done].
    by rewrite (proj1 (written_write_json_array ys)).
Qed.

Lemma orphan_transactions_streamed fuel users inv tx_target st w st' w' :
  (∃ txs, (txf st, tx_first st) = streamed txs) →
  orphan_transactions fuel users inv tx_target st w = Ok (st', w') →
  ∃ txs, (txf st', tx_first st') = streamed txs.
Proof.
  intros H0.
  apply (orphan_transactions_inv (λ st _, ∃ txs, (txf st, tx_first st) = streamed txs));
    [done|done|].
  clear. intros st w u w1 tx w2 [txs Htxs] _ _ _. cbn [txf tx_first].
  exists (txs ++ [tx]). rewrite Htxs, <-streamed_app. simpl.
  by destruct (streamed txs) as [f []].
Qed.

(** X9. In a complete run the file transactions.json, which [main] writes
    piece by piece across the session chunks and the orphan loop, is exactly
    the file [write_json_array] would write for the same transactions: the
    opening line, the records separated by a comma and a line break, and the
    closing line. The same holds of every sessions chunk file. *)
Theorem transactions_json_format (fuel : nat) (args : config) (w : world)
    (out : outputs) (w' : world) :
  main fuel args w = Ok (out, w') →
  transactions_json out = (write_json_array (written (transactions_json out))).1 ∧
  Forall (λ f, f = (write_json_array (written f)).1) (sessions_json out).
Proof.
  intros (cats & w1 & ps & w2 & st1 & w3 & st2 & _ & _ & Hsess & Horph &
          Hsj & Htj & _)%main_Ok.
  apply session_chunks_streamed in Hsess as [Htxs Hfiles].
  pose proof (orphan_transactions_linked _ _ _ _ _ _ _ _ Horph) as [_ Hsf].
  eapply orphan_transactions_streamed in Horph as [txs Htxs']; [|done].
  split; [|by rewrite Hsj, Hsf].
  assert (txf st2 = (streamed txs).1) as Hf by (by rewrite <-Htxs').
  rewrite Htj, Hf, written_app, streamed_written. simpl.
  by rewrite app_nil_r, streamed_closed.
Qed.

Lemma transactions_json_format_witness :
  ∃ out w' t,
    main 1 (cfg_one_session 1) (World rng_converting 0 []) = Ok (out, w') ∧
    transactions_json out
    = [Lit ("[" +:+ NL); Dumps t; Lit (NL +:+ "]" +:+ NL)].
Proof.
  destruct (main 1 (cfg_one_session 1) (World rng_converting 0 [])) as [[out w']| |] eqn:E;
    [|by vm_compute in E..].
  destruct (transactions_json_format _ _ _ _ _ E) as [Hf _].
  assert (∃ t, written (transactions_json out) = [t]) as [t Ht].
  { vm_compute in E. injection E as <- _. by eexists. }
  exists out, w', t. split; [done|]. by rewrite Hf, Ht.
Defined.

Lemma iter_sessions_for_chunk_length users cats inv tx_target n tx_written w
    ys buf txw w' :
  iter_sessions_for_chunk users cats inv tx_target n tx_written w
    = Ok ((ys, buf, txw), w') →
  length ys = Z.to_nat n ∧ txw ≤ Z.max tx_written tx_target.
Proof.
  unfold iter_sessions_for_chunk. intros H.
  apply (for_each_ind (λ pre acc _,
    length acc.1.1 = length pre ∧ acc.2 ≤ Z.max tx_written tx_target)) in H.
  - simpl in H. destruct H as [-> ?]. unfold range. by rewrite length_seq.
  - simpl. lia.
  - clear. intros pre x [[ys buf] txw] w0 acc' w1 [Hlen Hle] H.
    unfold iter_sessions_step in H. simpl in Hlen, Hle.
    apply bind_Ok in H as (u & w2 & _ & H).
    apply bind_Ok in H as ([s tx] & w3 & _ & H).
    destruct tx as [t|]; [destruct (decide _)|]; apply ret_Ok in H as [<- _];
      simpl; rewrite !length_app, Hlen; simpl; lia.
Qed.

Lemma session_chunks_exit fuel users cats inv tx_target sess_target chunk_size
    st w st' w' :
  session_chunks fuel users cats inv tx_target sess_target chunk_size st w
    = Ok (st', w') →
  sess_target ≤ sess_written st'.
Proof.
  revert st w. induction fuel as [|fuel IH]; intros st w H; simpl in H;
    (destruct (decide _); [|apply ret_Ok in H as [<- _]; lia]); [done|].
  apply bind_Ok in H as ([[ys buf] txw] & w1 & _ & H).
  destruct (write_json_array ys) as [sf wrote].
  destruct (foldl write_tx _ buf) as [f b]. by eapply IH.
Qed.

Lemma session_chunks_counts fuel users cats inv tx_target sess_target chunk_size
    w st' w' :
  session_chunks fuel users cats inv tx_target sess_target chunk_size
    (Stream [Lit ("[" +:+ NL)] true 0 0 0 []) w = Ok (st', w') →
  sess_written st' = Z.of_nat (length (concat (written <$> sessions_files st'))) ∧
  sess_written st' ≤ Z.max 0 sess_target ∧
  tx_written st' ≤ Z.max 0 tx_target.
Proof.
  apply (session_chunks_inv (λ st _,
    sess_written st = Z.of_nat (length (concat (written <$> sessions_files st))) ∧
    sess_written st ≤ Z.max 0 sess_target ∧
    tx_written st ≤ Z.max 0 tx_target)).
  { simpl. lia. }
  clear. intros st w ys buf txw w1 (Hsw & Hle & Htx) Hlt
    [Hlen Htxw]%iter_sessions_for_chunk_length.
  pose proof (written_write_json_array ys) as [Hw Hc].
  destruct (write_json_array ys) as [sf wrote]. simpl in Hw, Hc. subst wrote.
  cbn [sess_written sessions_files tx_written fst snd].
  rewrite fmap_app, concat_app, length_app. csimpl. rewrite app_nil_r, Hw. lia.
Qed.

(** X10. A complete run writes exactly what was asked for: the number of
    sessions in the chunk files is the session target and the number of
    transactions in transactions.json is the transaction target (none for a
    target that is not positive), and the two counts of the closing report
    are these numbers. *)
Theorem complete_run_totals (fuel : nat) (args : config) (w : world)
    (out : outputs) (w' : world) :
  main fuel args w = Ok (out, w') →
  report_sessions out = Z.max 0 (num_sessions args) ∧
  length (emitted_sessions out) = Z.to_nat (num_sessions args) ∧
  report_transactions out = Z.max 0 (num_transactions args) ∧
  length (written (transactions_json out)) = Z.to_nat (num_transactions args).
Proof.
  intros (cats & w1 & ps & w2 & st1 & w3 & st2 & _ & _ & Hsess & Horph &
          Hsj & Htj & Hrs & Hrt & _)%main_Ok.
  pose proof (session_chunks_exit _ _ _ _ _ _ _ _ _ _ _ Hsess) as Hexit1.
  pose proof (session_chunks_transactions _ _ _ _ _ _ _ _ _ _ Hsess) as [_ Hn1].
  apply session_chunks_counts in Hsess as (Hsw & Hle & Htx).
  pose proof (orphan_transactions_exit _ _ _ _ _ _ _ _ Horph) as Hexit2.
  assert (tx_written st2 ≤ Z.max 0 (num_transactions args) ∧
          tx_written st2 = Z.of_nat (length (written (txf st2))) ∧
          sess_written st2 = sess_written st1 ∧
          sessions_files st2 = sessions_files st1) as (Hle2 & Hn2 & Hsw2 & Hsf2).
  { revert Horph.
    apply (orphan_transactions_inv (λ st _,
      tx_written st ≤ Z.max 0 (num_transactions args) ∧
      tx_written st = Z.of_nat (length (written (txf st))) ∧
      sess_written st = sess_written st1 ∧
      sessions_files st = sessions_files st1)); [done|done|].
    clear. intros st w u w4 tx w5 (Hle & Hn & Hsw & Hsf) Hlt _ _.
    cbn [tx_written txf sess_written sessions_files].
    rewrite written_write_tx, length_app. simpl. split_and!; [lia|lia|done|done]. }
  unfold emitted_sessions.
  rewrite Hrs, Hrt, Hsj, Htj, Hsf2, written_app, length_app. simpl.
  split_and!; lia.
Qed.

Lemma complete_run_totals_witness :
  ∃ out w',
    main 1 (cfg_one_session 1) (World rng_converting 0 []) = Ok (out, w') ∧
    length (emitted_sessions out) = 1%nat ∧
    length (written (transactions_json out)) = 1%nat.
Proof.
  destruct (main 1 (cfg_one_session 1) (World rng_converting 0 [])) as [[out w']| |] eqn:E;
    [|by vm_compute in E..].
  exists out, w'. split; [done|].
  destruct (complete_run_totals _ _ _ _ _ E) as (_ & Hs & _ & Ht). by split.
Defined.

Lemma iter_sessions_for_chunk_nothing users cats inv tx_target n txw w :
  n ≤ 0 →
  iter_sessions_for_chunk users cats inv tx_target n txw w = Ok (([], [], txw), w).
Proof. intros Hn. unfold iter_sessions_for_chunk, range. by rewrite Z2Nat.nonpos. Qed.

(** With a chunk size that is not positive every chunk is empty, so the
    session loop makes no progress. *)
Lemma session_chunks_stuck fuel users cats inv tx_target sess_target chunk_size st w :
  chunk_size ≤ 0 → sess_written st < sess_target →
  session_chunks fuel users cats inv tx_target sess_target chunk_size st w = Timeout.
Proof.
  intros Hcs. revert st. induction fuel as [|fuel IH]; intros st Hlt; simpl;
    rewrite decide_True by done; [done|].
  erewrite bind_run by (apply iter_sessions_for_chunk_nothing; lia).
  destruct (written_write_json_array (@nil session)) as [_ Hc].
  destruct (write_json_array []) as [sf wrote]. simpl in Hc. subst wrote. simpl.
  apply IH. simpl. lia.
Qed.

(** X11. A chunk size that is not positive is not rejected: when at least
    one session is asked for, the run never ends. Every pass of the session
    loop writes an empty chunk file and leaves the count of sessions where it
    was, so the run is still going when its fuel is used up, whatever the
    fuel. *)
Theorem nonpositive_chunk_size_never_ends (fuel : nat) (args : config) (w : world)
    (cats : list category) (w1 : world) (ps : list product) (w2 : world) :
  gen_categories (num_categories args) (subcats_min args, subcats_max args) w
    = Ok (cats, w1) →
  gen_products cats (num_products args) w1 = Ok (ps, w2) →
  sessions_chunk_size args ≤ 0 → 0 < num_sessions args →
  main fuel args w = Timeout.
Proof.
  intros Hcats Hps Hcs Hn. unfold main.
  erewrite bind_run by done. erewrite bind_run by done.
  erewrite bind_run by reflexivity.
  by apply bind_timeout, session_chunks_stuck.
Qed.

Lemma nonpositive_chunk_size_never_ends_witness :
  main 7 cfg_chunk_zero (World (λ _, 0%nat) 0 []) = Timeout.
Proof.
  destruct (gen_categories (num_categories cfg_chunk_zero)
              (subcats_min cfg_chunk_zero, subcats_max cfg_chunk_zero)
              (World (λ _, 0%nat) 0 [])) as [[cats w1]| |] eqn:Hcats;
    [|by vm_compute in Hcats..].
  destruct (gen_products cats (num_products cfg_chunk_zero) w1) as [[ps w2]| |] eqn:Hps;
    [|vm_compute in Hcats; injection Hcats as <- <-; by vm_compute in Hps..].
  by apply (nonpositive_chunk_size_never_ends 7 _ _ _ _ _ _ Hcats Hps).
Defined.

Lemma session_chunks_layout fuel users cats inv tx_target sess_target chunk_size
    w st' w' :
  0 < chunk_size →
  session_chunks fuel users cats inv tx_target sess_target chunk_size
    (Stream [Lit ("[" +:+ NL)] true 0 0 0 []) w = Ok (st', w') →
  sess_written st'
    = Z.min (Z.of_nat (length (sessions_files st')) * chunk_size) (Z.max 0 sess_target) ∧
  ∀ i f, sessions_files st' !! i = Some f →
    Z.of_nat i * chunk_size < sess_target ∧
    length (written f)
      = Z.to_nat (Z.min chunk_size (sess_target - Z.of_nat i * chunk_size)).
Proof.
  intros Hcs.
  apply (session_chunks_inv (λ st _,
    sess_written st
      = Z.min (Z.of_nat (length (sessions_files st)) * chunk_size) (Z.max 0 sess_target) ∧
    ∀ i f, sessions_files st !! i = Some f →
      Z.of_nat i * chunk_size < sess_target ∧
      length (written f)
        = Z.to_nat (Z.min chunk_size (sess_target - Z.of_nat i * chunk_size)))).
  { simpl. split; [lia|]. by intros i f. }
  clear -Hcs. intros st w ys buf txw w1 [Hsw Hfiles] Hlt
    [Hlen _]%iter_sessions_for_chunk_length.
  pose proof (written_write_json_array ys) as [Hw Hc].
  destruct (write_json_array ys) as [sf wrote]. simpl in Hw, Hc. subst wrote.
  cbn [sess_written sessions_files fst snd].
  assert (sess_written st = Z.of_nat (length (sessions_files st)) * chunk_size)
    as Hk by lia.
  split.
  - rewrite length_app. simpl. lia.
  - intros i f Hf. apply lookup_app_Some in Hf as [Hf|[Hi Hf]]; [by apply Hfiles|].
    apply list_lookup_singleton_Some in Hf as [Hi0 <-].
    assert (i = length (sessions_files st)) as -> by lia.
    rewrite Hw, Hlen, <-Hk. split; [lia|done].
Qed.

(** X12. The chunk files of a complete run: the chunk size is positive as
    soon as there is a file; file number [i] (from 0) holds [chunk_size]
    sessions or, when fewer than that are left after the [i * chunk_size]
    sessions of the files before it, what is left up to the session target,
    and never none; and for a positive session target the number of files is
    the target divided by the chunk size, rounded up. *)
Theorem sessions_chunk_files (fuel : nat) (args : config) (w : world)
    (out : outputs) (w' : world) :
  main fuel args w = Ok (out, w') →
  (∀ i f, sessions_json out !! i = Some f →
     0 < sessions_chunk_size args ∧
     Z.of_nat i * sessions_chunk_size args < num_sessions args ∧
     length (written f)
       = Z.to_nat (Z.min (sessions_chunk_size args)
                     (num_sessions args - Z.of_nat i * sessions_chunk_size args))) ∧
  (0 < num_sessions args →
     0 < sessions_chunk_size args ∧
     Z.of_nat (length (sessions_json out))
       = (num_sessions args + sessions_chunk_size args - 1)
           `div` sessions_chunk_size args).
Proof.
  intros (cats & w1 & ps & w2 & st1 & w3 & st2 & _ & _ & Hsess & Horph &
          Hsj & _)%main_Ok.
  apply orphan_transactions_linked in Horph as [_ Hsf]. rewrite Hsj, Hsf.
  destruct (decide (0 < sessions_chunk_size args)) as [Hcs|Hcs].
  - pose proof (session_chunks_exit _ _ _ _ _ _ _ _ _ _ _ Hsess) as Hexit.
    apply session_chunks_layout in Hsess as [Hsw Hfiles]; [|done].
    split; [intros i f Hf; split; [done|by apply Hfiles]|].
    intros Hn. split; [done|].
    set (k := length (sessions_files st1)) in *.
    assert (k ≠ 0%nat) as Hk by (intros Hk; rewrite Hk in Hsw; simpl in Hsw; lia).
    destruct (lookup_lt_is_Some_2 (sessions_files st1) (pred k)) as [f Hf];
      [fold k; lia|].
    apply Hfiles in Hf as [Hlast _].
    apply (Z.div_unique_pos _ _ _
      (num_sessions args + sessions_chunk_size args - 1
       - Z.of_nat k * sessions_chunk_size args)); nia.
  - destruct (decide (0 < num_sessions args)) as [Hn|Hn].
    + by rewrite session_chunks_stuck in Hsess by (simpl; lia).
    + rewrite session_chunks_done in Hsess by (simpl; lia).
      injection Hsess as <- _. simpl. split; [by intros i f|lia].
Qed.

Lemma sessions_chunk_files_witness :
  ∃ out w',
    main 2 cfg_three_sessions (World (λ _, 0%nat) 0 []) = Ok (out, w') ∧
    (length ∘ written) <$> sessions_json out = [2; 1]%nat ∧
    Z.of_nat (length (sessions_json out)) = (3 + 2 - 1) `div` 2.
Proof.
  destruct (main 2 cfg_three_sessions (World (λ _, 0%nat) 0 [])) as [[out w']| |] eqn:E;
    [|by vm_compute in E..].
  exists out, w'. split; [done|].
  destruct (sessions_chunk_files _ _ _ _ _ E) as [_ Hcount].
  split; [|by apply Hcount].
  vm_compute in E. by injection E as <- _.
Defined.

(** ** Empty reference lists *)

Lemma gen_nothing_categories n lo hi w :
  n ≤ 0 → gen_categories n (lo, hi) w = Ok ([], w).
Proof. intros Hn. unfold gen_categories, range. by rewrite Z2Nat.nonpos. Qed.

Lemma gen_products_no_category n w :
  0 < n → gen_products [] n w = Raise IndexError.
Proof.
  intros Hn. unfold gen_products, range.
  destruct (Z.to_nat n) as [|k] eqn:E; [lia|]. simpl. by apply bind_raise.
Qed.

Lemma gen_products_nothing cats n w ps w' :
  n ≤ 0 → gen_products cats n w = Ok (ps, w') → ps = [].
Proof.
  intros Hn. unfold gen_products, range. rewrite Z2Nat.nonpos by done.
  by intros [= <- _].
Qed.

Lemma gen_users_nothing n : n ≤ 0 → gen_users n = [].
Proof. intros Hn. unfold gen_users, range. by rewrite Z2Nat.nonpos. Qed.

Lemma session_chunks_no_user fuel cats inv tx_target sess_target chunk_size st w :
  0 < chunk_size → sess_written st < sess_target →
  session_chunks (S fuel) [] cats inv tx_target sess_target chunk_size st w
  = Raise IndexError.
Proof.
  intros Hcs Hlt. simpl. rewrite decide_True by done.
  apply bind_raise. unfold iter_sessions_for_chunk, range.
  destruct (Z.to_nat _) as [|k] eqn:E; [lia|]. simpl. by apply bind_raise.
Qed.

Lemma orphan_transactions_no_user fuel inv tx_target st w :
  tx_written st < tx_target →
  orphan_transactions (S fuel) [] inv tx_target st w = Raise IndexError.
Proof. intros Hlt. simpl. by rewrite decide_True by done. Qed.

Lemma orphan_transactions_no_product fuel users inv tx_target st w :
  users ≠ [] → heap w = [] → tx_written st < tx_target →
  orphan_transactions (S fuel) users inv tx_target st w = Raise IndexError.
Proof.
  intros Hu Hh Hlt. simpl. rewrite decide_True by done.
  destruct (random_choice_advance users w Hu) as [u Hc].
  erewrite bind_run by done. apply bind_raise. unfold gen_orphan_transaction.
  destruct (random_randint 1 3 (advance w 1)) as [[n w1]| |] eqn:Hn;
    [|unfold random_randint in Hn; by destruct (decide _)..].
  pose proof (keeps_heap_random_randint _ _ _ _ _ Hn) as [Hh1 _].
  apply random_randint_range in Hn as Hr.
  erewrite bind_run by done. apply bind_raise.
  destruct (Z.to_nat (n * 3)) as [|k] eqn:E; [lia|]. simpl.
  rewrite decide_False by (simpl; lia).
  unfold mbind at 1, M_bind at 1, get_heap. rewrite Hh1. simpl. by rewrite Hh.
Qed.

(** X13. Without categories no product can be generated: when the number
    of categories is not positive and at least one product is asked for, the
    run ends with IndexError before any file of sessions or transactions is
    begun, whatever the random generator. *)
Theorem no_category_aborts (fuel : nat) (args : config) (w : world) :
  num_categories args ≤ 0 → 0 < num_products args →
  main fuel args w = Raise IndexError.
Proof.
  intros Hc Hp. unfold main.
  erewrite bind_run by (by apply gen_nothing_categories).
  by apply bind_raise, gen_products_no_category.
Qed.

Lemma no_category_aborts_witness :
  main 1 cfg_no_category (World (λ _, 0%nat) 0 []) = Raise IndexError.
Proof. by apply no_category_aborts. Defined.

(** X14. Empty lists of users or products are not rejected either, and
    show once a run draws from them. With the categories and products
    generated: without users, the first session drawn (positive chunk size
    and session target) ends the run with IndexError; and with no session to
    generate and a positive transaction target, the first orphan transaction
    ends the run with IndexError when there is no user or no product. *)
Theorem empty_users_or_products_abort (fuel : nat) (args : config) (w : world)
    (cats : list category) (w1 : world) (ps : list product) (w2 : world) :
  gen_categories (num_categories args) (subcats_min args, subcats_max args) w
    = Ok (cats, w1) →
  gen_products cats (num_products args) w1 = Ok (ps, w2) →
  (num_users args ≤ 0 → 0 < num_sessions args → 0 < sessions_chunk_size args →
     main (S fuel) args w = Raise IndexError) ∧
  (num_sessions args ≤ 0 → 0 < num_transactions args →
     num_users args ≤ 0 ∨ num_products args ≤ 0 →
     main (S fuel) args w = Raise IndexError).
Proof.
  intros Hcats Hps. split.
  - intros Hu Hn Hcs. unfold main.
    erewrite bind_run by done. erewrite bind_run by done.
    erewrite bind_run by reflexivity.
    apply bind_raise. rewrite gen_users_nothing by done.
    by apply session_chunks_no_user.
  - intros Hn Ht Hempty. unfold main.
    erewrite bind_run by done. erewrite bind_run by done.
    erewrite bind_run by reflexivity.
    erewrite bind_run by (by apply session_chunks_done).
    apply bind_raise.
    destruct (decide (num_users args ≤ 0)) as [Hu|Hu].
    + rewrite gen_users_nothing by done. by apply orphan_transactions_no_user.
    + destruct Hempty as [?|Hp]; [done|].
      apply orphan_transactions_no_product; [|by eapply gen_products_nothing|done].
      unfold gen_users, range. destruct (Z.to_nat (num_users args)) eqn:E; [lia|done].
Qed.

Lemma empty_users_or_products_abort_witness :
  main 1 cfg_no_user (World (λ _, 0%nat) 0 []) = Raise IndexError.
Proof.
  destruct (gen_categories (num_categories cfg_no_user)
              (subcats_min cfg_no_user, subcats_max cfg_no_user)
              (World (λ _, 0%nat) 0 [])) as [[cats w1]| |] eqn:Hcats;
    [|by vm_compute in Hcats..].
  destruct (gen_products cats (num_products cfg_no_user) w1) as [[ps w2]| |] eqn:Hps;
    [|vm_compute in Hcats; injection Hcats as <- <-; by vm_compute in Hps..].
  destruct (empty_users_or_products_abort 0 _ _ _ _ _ _ Hcats Hps) as [H _].
  by apply H.
Defined.

(** ** The products file written at the end *)

Lemma PyDict_set_fresh {V} (d : PyDict.t V) k v :
  PyDict.get d k = None → PyDict.set d k v = d ++ [(k, v)].
Proof.
  induction d as [|[k' v'] d IH]; simpl; [done|].
  destruct (decide (k' = k)); [done|]. intros H. by rewrite IH.
Qed.

Lemma init_go_values d start ps :
  NoDup (Product.product_id <$> ps) →
  (∀ p, p ∈ ps → PyDict.get d (Product.product_id p) = None) →
  PyDict.values (Inventory.init_go d start ps) = PyDict.values d ++ seq start (length ps).
Proof.
  revert d start. induction ps as [|p ps IH]; intros d start Hnd Hfresh; simpl.
  { by rewrite app_nil_r. }
  rewrite fmap_cons, NoDup_cons in Hnd. destruct Hnd as [Hnin Hnd].
  rewrite IH; [|done|].
  - rewrite PyDict_set_fresh by (apply Hfresh; by left).
    unfold PyDict.values. rewrite fmap_app, <-app_assoc. done.
  - intros q Hq. rewrite PyDict_get_set_ne; [apply Hfresh; by right|].
    intros Heq. apply Hnin. rewrite Heq. by apply list_elem_of_fmap_2.
Qed.

Lemma omap_lookup_seq {A} (pre h : list A) :
  omap (λ l, (pre ++ h) !! l) (seq (length pre) (length h)) = h.
Proof.
  revert pre. induction h as [|x h IH]; intros pre; simpl; [done|].
  rewrite list_lookup_middle by done. simpl. f_equal.
  specialize (IH (pre ++ [x])). rewrite length_app, <-app_assoc in IH. simpl in IH.
  by rewrite Nat.add_1_r in IH.
Qed.

(** Rewriting products.json from the ledger gives the product objects in
    the order of their creation. *)
Lemma final_products_heap (ps h : list product) :
  NoDup (Product.product_id <$> ps) → length h = length ps →
  omap (λ l, h !! l) (PyDict.values (Inventory.products (Inventory.init ps))) = h.
Proof.
  intros Hnd Hlen. unfold Inventory.init. simpl.
  rewrite init_go_values by done. simpl. rewrite <-Hlen.
  apply (omap_lookup_seq [] h).
Qed.

Lemma ledger_steps_same_product h h' :
  ledger_steps h h' →
  ∀ l p, h !! l = Some p → ∃ p', h' !! l = Some p' ∧ same_product p p'.
Proof.
  induction 1 as [h|h1 h2 h3 (inv & pid & qty & b & w & w' & Hres & <- & <-) _ IH];
    intros l p Hp.
  { by exists p. }
  assert (∃ p2, heap w' !! l = Some p2 ∧ same_product p p2) as (p2 & Hp2 & Hs).
  { apply reserve_cases in Hres as [[_ ->]|(_ & l0 & p0 & (_ & Hp0 & _) & ->)];
      [by exists p|]. simpl.
    destruct (decide (l0 = l)) as [->|Hne].
    - rewrite list_lookup_insert_eq by (by eapply lookup_lt_Some).
      eexists. split; [done|]. assert (p0 = p) as -> by congruence.
      by destruct (decide _).
    - exists p. by rewrite list_lookup_insert_ne. }
  destruct (IH l p2 Hp2) as (p3 & Hp3 & Hs3). exists p3. split; [done|].
  unfold same_product in *. intuition congruence.
Qed.

(** X15. The file products.json as a complete run rewrites it at its end
    holds the products that were created, in the order of their creation;
    each differs from the product as created in stock and activity only; its
    stock is not negative and not above the stock it was created with; and it
    is active only if it was created active and has stock left. *)
Theorem final_products_json (fuel : nat) (args : config) (w : world)
    (out : outputs) (w' : world) :
  main fuel args w = Ok (out, w') →
  ∃ ps, initial_products args w = Some ps ∧
        Forall2 restocked_never ps (written (products_json out)).
Proof.
  intros (cats & w1 & ps & w2 & st1 & w3 & st2 & Hcats & Hps & Hsess & Horph &
          _ & _ & _ & _ & Hpj)%main_Ok.
  exists ps. split.
  { unfold initial_products, mbind, M_bind. by rewrite Hcats, Hps. }
  pose proof (gen_products_NoDup _ _ _ _ _ Hps) as Hnd.
  pose proof (init_ledger_ok ps Hnd) as Hok.
  pose proof (moves_session_chunks _ _ _ _ _ _ _ _ _ _ _ Hsess) as Hm1.
  pose proof (moves_orphan_transactions _ _ _ _ _ _ _ _ Horph) as Hm2.
  assert (ledger_steps ps (heap w')) as Hsteps by (by etrans).
  eapply (session_chunks_debited _ _ _ _ _ _ _ ps) in Hsess as [Hok1 D1];
    [|done|apply debited_refl].
  eapply orphan_transactions_debited in Horph as [_ (Hlines & Hlen & D2)]; [|done..].
  rewrite Hpj, final_products_heap by done.
  apply Forall2_same_length_lookup_2; [done|]. intros l p p' Hp Hp'.
  destruct (D2 l p Hp) as (q & Hq & _ & Hsold & Hnn).
  assert (q = p') as -> by congruence.
  destruct (ledger_steps_same_product _ _ Hsteps l p Hp) as (q & Hq' & Hsame).
  assert (q = p') as -> by congruence.
  destruct (gen_products_ids _ _ _ _ _ _ _ Hps Hp) as [_ (Hp0 & _)].
  pose proof (quantity_sold_nonneg _ (Product.product_id p) _ Hlines) as Hs0.
  specialize (Hnn Hp0).
  split; [done|]. split; [lia|]. intros Hact. split.
  - destruct (Product.is_active p) eqn:Hact0; [done|].
    destruct (ledger_steps_never_reactivated _ _ Hsteps l p Hp Hact0)
      as (q & Hq'' & Hoff). congruence.
  - pose proof (ledger_steps_deactivated _ _ Hsteps
                  (gen_products_deactivated _ _ _ _ _ Hps)) as Hd.
    destruct (decide (Product.current_stock p' = 0)) as [Hz|Hz]; [|lia].
    apply Hd in Hz; [congruence|]. by eapply list_elem_of_lookup_2.
Qed.

Lemma final_products_json_witness :
  ∃ out w' ps,
    main 1 (cfg_one_session 1) (World rng_converting 0 []) = Ok (out, w') ∧
    initial_products (cfg_one_session 1) (World rng_converting 0 []) = Some ps ∧
    Forall2 restocked_never ps (written (products_json out)).
Proof.
  destruct (main 1 (cfg_one_session 1) (World rng_converting 0 [])) as [[out w']| |] eqn:E;
    [|by vm_compute in E..].
  destruct (final_products_json _ _ _ _ _ E) as (ps & Hps & Hall).
  exists out, w', ps. split; [reflexivity|]. split; [exact Hps|exact Hall].
Defined.

(** ** Carts *)

Lemma PyDict_elem_of_set {V} (d : PyDict.t V) k v k' v' :
  (k', v') ∈ PyDict.set d k v → (k' = k ∧ v' = v) ∨ (k', v') ∈ d.
Proof.
  induction d as [|[k0 v0] d IH]; simpl.
  - intros [= -> ->]%list_elem_of_singleton. by left.
  - destruct (decide (k0 = k)) as [->|Hne].
    + intros [[= -> ->]|H]%elem_of_cons; [by left|]. right. by right.
    + intros [[= -> ->]|H]%elem_of_cons; [right; by left|].
      destruct (IH H); [by left|]. right. by right.
Qed.

Lemma PyDict_set_NoDup {V} (d : PyDict.t V) k v :
  NoDup (PyDict.keys d) → NoDup (PyDict.keys (PyDict.set d k v)).
Proof.
  unfold PyDict.keys. induction d as [|[k0 v0] d IH]; intros Hnd.
  - apply NoDup_singleton.
  - rewrite fmap_cons in Hnd. apply NoDup_cons in Hnd as [Hnin Hnd]. simpl.
    destruct (decide (k0 = k)) as [->|Hne]; rewrite fmap_cons; apply NoDup_cons.
    + done.
    + split; [|by apply IH].
      intros ([k1 v1] & Hk & Hin)%list_elem_of_fmap. simpl in Hk. subst k1.
      apply PyDict_elem_of_set in Hin as [[? _]|Hin]; [done|].
      apply Hnin. by apply (list_elem_of_fmap_2 fst) in Hin.
Qed.

Lemma PyDict_get_elem_of {V} (d : PyDict.t V) k v :
  PyDict.get d k = Some v → (k, v) ∈ d.
Proof.
  induction d as [|[k0 v0] d IH]; simpl; [done|].
  destruct (decide (k0 = k)) as [->|Hne]; [intros [= ->]; by left|].
  intros H. right. by apply IH.
Qed.

Lemma try_picks_elem_of n w c w' :
  try_picks n w = Ok (Some c, w') → c ∈ heap w.
Proof.
  revert w. induction n as [|n IH]; intros w H; simpl in H.
  { by apply ret_Ok in H as [[=] _]. }
  apply bind_Ok in H as (h & w1 & [= <- <-] & H).
  apply bind_Ok in H as (c0 & w2 & Hc & H).
  pose proof (keeps_heap_random_choice _ _ _ _ Hc) as [Hh _].
  destruct (available c0).
  - apply ret_Ok in H as [[= <-] _]. by eapply random_choice_elem_of.
  - apply IH in H. by rewrite Hh in H.
Qed.

Lemma choose_product_elem_of w c w' :
  choose_product w = Ok (c, w') → c ∈ heap w.
Proof.
  unfold choose_product. intros H.
  apply bind_Ok in H as ([c0|] & w1 & Hp & H).
  - apply ret_Ok in H as [<- _]. by eapply try_picks_elem_of.
  - pose proof (keeps_heap_try_picks _ _ _ _ Hp) as [Hh _].
    apply bind_Ok in H as (h & w2 & [= <- <-] & H).
    apply random_choice_elem_of in H. by rewrite Hh in H.
Qed.

Lemma ledger_ok_get inv h p :
  ledger_ok inv h → p ∈ h → Inventory.get inv h (Product.product_id p) = Some p.
Proof.
  intros [Hok _] [l Hl]%list_elem_of_lookup. unfold Inventory.get.
  rewrite (Hok l p Hl). done.
Qed.

Lemma cart_ok_mono inv h viewed viewed' c :
  viewed ⊆ viewed' → cart_ok inv h viewed c → cart_ok inv h viewed' c.
Proof.
  intros Hsub [Hnd Hall]. split; [done|]. intros pid entry Hin.
  destruct (Hall pid entry Hin) as [Hv Hp]. split; [by apply Hsub|done].
Qed.

Lemma cart_ok_set inv h viewed c pid entry p :
  cart_ok inv h viewed c → pid ∈ viewed →
  Inventory.get inv h pid = Some p →
  0 ≤ CartEntry.quantity entry →
  CartEntry.quantity entry = 0 ∨ CartEntry.quantity entry ≤ Product.current_stock p →
  CartEntry.price entry = Product.base_price p →
  cart_ok inv h viewed (PyDict.set c pid entry).
Proof.
  intros [Hnd Hall] Hv Hp Hq0 Hq Hprice. split; [by apply PyDict_set_NoDup|].
  intros k e [[-> ->]|Hin]%PyDict_elem_of_set; [|by apply Hall].
  split; [done|]. by exists p.
Qed.

Lemma add_to_cart_ok inv chosen c viewed w c' w' :
  ledger_ok inv (heap w) → chosen ∈ heap w →
  Product.product_id chosen ∈ viewed →
  cart_ok inv (heap w) viewed c →
  add_to_cart inv chosen c w = Ok (c', w') →
  cart_ok inv (heap w) viewed c'.
Proof.
  intros Hok Hin Hv Hc H. unfold add_to_cart in H.
  pose proof (ledger_ok_get _ _ _ Hok Hin) as Hget.
  set (c1 := if PyDict.contains c (Product.product_id chosen) then c
             else PyDict.set c (Product.product_id chosen)
                    (CartEntry.mk 0 (Product.base_price chosen))) in *.
  assert (cart_ok inv (heap w) viewed c1) as Hc1.
  { subst c1. destruct (PyDict.contains _ _); [done|].
    eapply cart_ok_set; [done..|simpl; lia|by left|done]. }
  apply bind_Ok in H as (h & w1 & [= <- <-] & H).
  rewrite Hget in H.
  destruct (PyDict.get c1 (Product.product_id chosen)) as [entry|] eqn:He; [|done].
  apply PyDict_get_elem_of in He.
  destruct Hc1 as [Hnd1 Hall1].
  destruct (Hall1 _ _ He) as (_ & p & Hp & Hq0 & Hq & Hprice).
  assert (p = chosen) as -> by congruence.
  destruct (decide _) as [Hrem|Hrem].
  - apply bind_Ok in H as (add_qty & w2 & Hadd%random_randint_range & H).
    apply ret_Ok in H as [<- _].
    eapply cart_ok_set; [by split|done|done|simpl; lia|simpl; right; lia|done].
  - apply ret_Ok in H as [<- _]. by split.
Qed.

Lemma page_view_step_cart cats inv slots i st w st' w' :
  ledger_ok inv (heap w) →
  cart_ok inv (heap w) (viewed_products st) (cart_contents st) →
  page_view_step cats inv slots i st w = Ok (st', w') →
  cart_ok inv (heap w) (viewed_products st') (cart_contents st').
Proof.
  intros Hok Hc H. unfold page_view_step in H.
  apply bind_Ok in H as (ptype & w1 & Hpt & H).
  pose proof (keeps_heap_choose_page_type _ _ _ _ _ Hpt) as [Hh1 _].
  apply bind_Ok in H as ([[[product_id category_id] viewed] new_cart] & w2 & Hbr & H).
  apply ret_Ok in H as [<- _]. simpl.
  destruct ptype; try (by apply ret_Ok in Hbr as [[= _ _ <- <-] _]).
  - apply bind_Ok in Hbr as (cat & w3 & _ & Hbr).
    by apply ret_Ok in Hbr as [[= _ _ <- <-] _].
  - apply bind_Ok in Hbr as (chosen & w3 & Hch & Hbr).
    pose proof (keeps_heap_choose_product _ _ _ Hch) as [Hh3 _].
    apply choose_product_elem_of in Hch. rewrite Hh1 in Hch.
    apply bind_Ok in Hbr as (r & w4 & Hr & Hbr).
    pose proof (keeps_heap_random_random _ _ _ Hr) as [Hh4 _].
    apply bind_Ok in Hbr as (c' & w5 & Hadd & Hbr).
    apply ret_Ok in Hbr as [[= _ _ <- <-] _].
    assert (cart_ok inv (heap w)
              (viewed_products st ∪ {[Product.product_id chosen]})
              (cart_contents st)) as Hc'.
    { eapply cart_ok_mono; [|done]. apply union_subseteq_l. }
    destruct (decide _).
    + assert (heap w4 = heap w) as Hh by congruence.
      rewrite <-Hh in Hok, Hch, Hc' |- *.
      eapply add_to_cart_ok; [done|done| |done|done].
      apply elem_of_union_r. by apply elem_of_singleton.
    + by apply ret_Ok in Hadd as [<- _].
Qed.

(** X16. A session's cart against the stock at the time the session is
    built (the ledger indexing the products): no product appears twice; every
    line is for a product the session viewed, at that product's base price,
    and its quantity is at least 1 and at most the product's stock. *)
Theorem cart_within_stock (u : user) (cats : list category) (inv : Inventory.t)
    (w : world) (s : session) (tx : option transaction) (w' : world) :
  ledger_ok inv (heap w) →
  session_record u cats inv w = Ok ((s, tx), w') →
  NoDup (PyDict.keys (Session.cart_contents s)) ∧
  ∀ pid entry, (pid, entry) ∈ PyDict.items (Session.cart_contents s) →
    pid ∈ Session.viewed_products s ∧
    ∃ p, Inventory.get inv (heap w) pid = Some p ∧
         1 ≤ CartEntry.quantity entry ≤ Product.current_stock p ∧
         CartEntry.price entry = Product.base_price p.
Proof.
  intros Hok (hex & w1 & d & w2 & w3 & slots & w4 & st & w5 & _ & _ & _ & Hloop &
          Hh4 & _ & _ & _ & _ & _ & Hviewed & Hcart)%session_record_parts.
  apply (for_each_inv (λ st w0,
    heap w0 = heap w ∧
    cart_ok inv (heap w) (viewed_products st) (cart_contents st))) in Hloop.
  - destruct Hloop as [_ [Hnd Hall]]. rewrite Hcart, Hviewed. split.
    + unfold PyDict.keys. eapply sublist_NoDup; [exact Hnd|].
      apply fmap_sublist, sublist_filter.
    + intros pid entry [Hpos Hin]%list_elem_of_filter.
      destruct (Hall pid entry Hin) as (Hv & p & Hp & Hq0 & Hq & Hprice).
      unfold positive_quantity in Hpos. apply bool_decide_unpack in Hpos.
      simpl in Hpos. split.
      * unfold sorted_str. rewrite merge_sort_Permutation. by apply elem_of_elements.
      * exists p. split; [done|]. split; [lia|done].
  - split; [done|]. split; [constructor|]. by intros pid entry Hin%elem_of_nil.
  - clear -Hok. intros x st0 w0 st1 w1 _ [Hh Hc] Hstep.
    pose proof (keeps_heap_page_view_step _ _ _ _ _ _ _ _ Hstep) as [Hh1 _].
    split; [congruence|]. rewrite <-Hh in Hok, Hc |- *.
    by eapply page_view_step_cart.
Qed.

Lemma cart_within_stock_witness :
  ∃ s tx w' entry,
    session_record first_user one_category (Inventory.init heap_viewing) w_viewing
      = Ok ((s, tx), w') ∧
    Session.cart_contents s = [("prod_00000", entry)] ∧
    1 ≤ CartEntry.quantity entry ≤ 2.
Proof.
  destruct (session_record first_user one_category (Inventory.init heap_viewing)
              w_viewing) as [[[s tx] w']| |] eqn:E; [|by vm_compute in E..].
  assert (ledger_ok (Inventory.init heap_viewing) (heap w_viewing)) as Hok.
  { apply init_ledger_ok. apply NoDup_singleton. }
  destruct (cart_within_stock _ _ _ _ _ _ _ Hok E) as [_ Hall].
  assert (∃ entry, Session.cart_contents s = [("prod_00000", entry)]) as [entry He].
  { vm_compute in E. injection E as <- _ _. by eexists. }
  exists s, tx, w', entry. split; [reflexivity|]. split; [done|].
  destruct (Hall "prod_00000" entry) as (_ & p & Hp & Hq & _).
  { rewrite He. by left. }
  vm_compute in Hp. injection Hp as <-. exact Hq.
Defined.

(** ** The lines of a transaction *)

Lemma sum_Z_app l1 l2 : sum_Z (l1 ++ l2) = sum_Z l1 + sum_Z l2.
Proof. unfold sum_Z. induction l1 as [|x l1 IH]; simpl; lia. Qed.

Lemma commit_line_cases inv line acc w acc' w' :
  commit_line inv line acc w = Ok (acc', w') →
  (acc' = acc ∧ heap w' = heap w) ∨
  (acc' = (acc.1 ++ [item_of_line line],
           acc.2 + Item.subtotal (item_of_line line)) ∧
   0 < CartEntry.quantity line.2).
Proof.
  unfold commit_line. destruct line as [pid entry]. intros H.
  destruct (decide _) as [|Hpos]; [apply ret_Ok in H as [<- <-]; by left|].
  apply bind_Ok in H as (ok & w1 & Hres & H).
  destruct ok; apply ret_Ok in H as [<- <-].
  - right. split; [done|]. simpl. lia.
  - left. by apply reserve_cases in Hres as [[_ ->]|[[=] _]].
Qed.

Lemma commit_lines_items inv lines acc w acc' w' :
  for_each lines (commit_line inv) acc w = Ok (acc', w') →
  ∃ new, acc'.1 = acc.1 ++ new ∧
         acc'.2 = acc.2 + sum_Z (Item.subtotal <$> new) ∧
         new `sublist_of` (item_of_line <$> lines) ∧
         (new = [] → heap w' = heap w).
Proof.
  revert acc w. induction lines as [|line lines IH]; intros acc w H; simpl in H.
  { apply ret_Ok in H as [<- <-]. exists []. by rewrite app_nil_r, Z.add_0_r. }
  apply bind_Ok in H as (acc1 & w1 & Hline & H).
  apply IH in H as (new & E1 & E2 & Hsub & Hheap).
  apply commit_line_cases in Hline as [[-> Hh]|[-> Hq]].
  - exists new. split_and!; [done|done|by apply sublist_cons|].
    intros Hn. by rewrite Hheap, Hh.
  - exists (item_of_line line :: new). simpl in E1, E2. split_and!.
    + by rewrite E1, <-app_assoc.
    + rewrite E2. csimpl. unfold sum_Z at 2. simpl. fold (sum_Z (Item.subtotal <$> new)).
      lia.
    + rewrite fmap_cons. by apply sublist_skip.
    + done.
Qed.

(** X17. The transaction of a converted session: its lines are cart lines
    of the session, in the order of the cart and each at most once (a line
    whose reservation failed is left out, and at least one is kept); a line
    carries the cart's quantity and price and their product as subtotal; and
    the transaction's subtotal is the sum of the subtotals of its lines. *)
Theorem transaction_of_a_cart (u : user) (cats : list category) (inv : Inventory.t)
    (w : world) (s : session) (t : transaction) (w' : world) :
  session_record u cats inv w = Ok ((s, Some t), w') →
  Transaction.items t ≠ [] ∧
  Transaction.items t
    `sublist_of` (item_of_line <$> PyDict.items (Session.cart_contents s)) ∧
  Transaction.subtotal t = sum_Z (Item.subtotal <$> Transaction.items t).
Proof.
  intros (items & subtotal & wa & wb & Hloop & Hne & Ht & _)%session_record_transaction.
  apply make_transaction_record in Ht as (hex & _ & _ & _ & _ & _ & -> & -> & _).
  apply commit_lines_items in Hloop as (new & E1 & E2 & Hsub & _).
  simpl in E1, E2. subst. done.
Qed.

Lemma transaction_of_a_cart_witness :
  ∃ s t w',
    session_record first_user one_category (Inventory.init heap_viewing) w_viewing
      = Ok ((s, Some t), w') ∧
    Transaction.items t = item_of_line <$> PyDict.items (Session.cart_contents s) ∧
    Transaction.subtotal t = sum_Z (Item.subtotal <$> Transaction.items t).
Proof.
  destruct (session_record first_user one_category (Inventory.init heap_viewing)
              w_viewing) as [[[s [t|]] w']| |] eqn:E; [|by vm_compute in E..].
  exists s, t, w'. split; [reflexivity|].
  destruct (transaction_of_a_cart _ _ _ _ _ _ _ E) as (_ & _ & Hsum).
  split; [|exact Hsum]. vm_compute in E. by injection E as <- <- _.
Defined.

Lemma ledger_steps_origin h h' p' :
  ledger_steps h h' → p' ∈ h' → ∃ p, p ∈ h ∧ same_product p p'.
Proof.
  intros Hsteps [l Hl]%list_elem_of_lookup.
  pose proof (ledger_steps_length _ _ Hsteps) as Hlen.
  destruct (lookup_lt_is_Some_2 h l) as [p Hp].
  { apply lookup_lt_Some in Hl. lia. }
  destruct (ledger_steps_same_product _ _ Hsteps l p Hp) as (q & Hq & Hs).
  exists p. split; [by eapply list_elem_of_lookup_2|congruence].
Qed.

Lemma orphan_line_origin h h' it :
  ledger_steps h h' → orphan_line h' it → orphan_line h it.
Proof.
  intros Hsteps (Hq & Hsub & p' & Hin & Hid & Hprice).
  destruct (ledger_steps_origin _ _ _ Hsteps Hin) as (p & Hp & Hs).
  split_and!; [lia|lia|done|]. exists p. unfold same_product in Hs.
  split; [done|]. split; [|intuition congruence]. intuition congruence.
Qed.

Lemma orphan_picks_lines inv n_items k acc w acc' w' :
  orphan_picks inv n_items k acc w = Ok (acc', w') →
  ∃ new, acc'.1 = acc.1 ++ new ∧
         acc'.2 = acc.2 + sum_Z (Item.subtotal <$> new) ∧
         Forall (orphan_line (heap w)) new ∧
         (new = [] → heap w' = heap w) ∧
         Z.of_nat (length acc'.1) ≤ Z.max (Z.of_nat (length acc.1)) n_items.
Proof.
  revert acc w. induction k as [|k IH]; intros acc w H; simpl in H.
  { apply ret_Ok in H as [<- <-]. exists [].
    rewrite app_nil_r, Z.add_0_r. split_and!; [done|done|constructor|done|lia]. }
  destruct (decide _) as [Hfull|Hmore].
  { apply ret_Ok in H as [<- <-]. exists [].
    rewrite app_nil_r, Z.add_0_r. split_and!; [done|done|constructor|done|lia]. }
  apply bind_Ok in H as (h & w1 & [= <- <-] & H).
  apply bind_Ok in H as (p & w2 & Hp & H).
  pose proof (keeps_heap_random_choice _ _ _ _ Hp) as [Hh2 _].
  apply random_choice_elem_of in Hp.
  destruct (_ || _).
  { apply IH in H as (new & E1 & E2 & Hall & Hheap & Hlen). exists new.
    rewrite Hh2 in Hall, Hheap. split_and!; [done|done|done|done|lia]. }
  apply bind_Ok in H as (qty & w3 & Hqty & H).
  pose proof (keeps_heap_random_randint _ _ _ _ _ Hqty) as [Hh3 _].
  apply random_randint_range in Hqty.
  apply bind_Ok in H as (ok & w4 & Hres & H).
  pose proof (moves_reserve _ _ _ _ _ _ Hres) as Hsteps.
  rewrite Hh3, Hh2 in Hsteps.
  destruct ok.
  - apply IH in H as (new & E1 & E2 & Hall & _ & Hlen). simpl in E1, E2, Hlen.
    eexists (_ :: new). split_and!.
    + by rewrite E1, <-app_assoc.
    + rewrite E2. csimpl. unfold sum_Z at 2. simpl.
      fold (sum_Z (Item.subtotal <$> new)). lia.
    + constructor.
      * split_and!; [simpl; lia..|done|]. by exists p.
      * eapply Forall_impl; [exact Hall|]. intros it. by apply orphan_line_origin.
    + done.
    + rewrite length_app in Hlen. simpl in Hlen. lia.
  - apply reserve_cases in Hres as [[_ ->]|[[=] _]].
    apply IH in H as (new & E1 & E2 & Hall & Hheap & Hlen). exists new.
    rewrite Hh3, Hh2 in Hall, Hheap. split_and!; [done|done|done|done|lia].
Qed.

(** X18. What [gen_orphan_transaction] gives. A transaction has no session
    id and the given user's id; it has one to three lines, each for one to
    three units of a product of the list at that product's base price, with
    quantity times price as subtotal; and its subtotal is the sum of the
    subtotals of its lines. When no transaction is returned, no stock was
    reserved. *)
Theorem orphan_transaction_shape (u : user) (inv : Inventory.t) (w : world)
    (tx : option transaction) (w' : world) :
  gen_orphan_transaction u inv w = Ok (tx, w') →
  match tx with
  | None => heap w' = heap w
  | Some t =>
      Transaction.session_id t = None ∧
      Transaction.user_id t = User.user_id u ∧
      (1 ≤ length (Transaction.items t) ≤ 3)%nat ∧
      Forall (orphan_line (heap w)) (Transaction.items t) ∧
      Transaction.subtotal t = sum_Z (Item.subtotal <$> Transaction.items t)
  end.
Proof.
  unfold gen_orphan_transaction. intros H.
  apply bind_Ok in H as (n_items & w1 & Hn & H).
  pose proof (keeps_heap_random_randint _ _ _ _ _ Hn) as [Hh1 _].
  apply random_randint_range in Hn.
  apply bind_Ok in H as ([items subtotal] & w2 & Hpicks & H).
  apply orphan_picks_lines in Hpicks as (new & E1 & E2 & Hall & Hheap & Hlen).
  simpl in E1, E2, Hlen. subst items subtotal. rewrite Hh1 in Hall, Hheap.
  destruct new as [|it new].
  - apply ret_Ok in H as [<- <-]. by apply Hheap.
  - apply bind_Ok in H as (t & w3 & Ht & H). apply ret_Ok in H as [<- _].
    apply make_transaction_record in Ht as (hex & _ & _ & _ & -> & -> & -> & -> & _).
    split_and!; [done|done|simpl; lia|lia|done|done].
Qed.

Lemma orphan_transaction_shape_witness :
  ∃ t w',
    gen_orphan_transaction first_user (Inventory.init heap_viewing)
      (World (λ _, 0%nat) 0 heap_viewing) = Ok (Some t, w') ∧
    Transaction.session_id t = None ∧
    length (Transaction.items t) = 1%nat.
Proof.
  destruct (gen_orphan_transaction first_user (Inventory.init heap_viewing)
              (World (λ _, 0%nat) 0 heap_viewing)) as [[[t|] w']| |] eqn:E;
    [|by vm_compute in E..].
  exists t, w'. split; [reflexivity|].
  destruct (orphan_transaction_shape _ _ _ _ _ E) as (Hsid & _).
  split; [exact Hsid|]. vm_compute in E. by injection E as <- _.
Defined.

(** ** Conversion status, cart and stock *)

Lemma existsb_filter_nil {A} (f : A → bool) (l : list A) :
  existsb f l = false ↔ filter (λ x, f x) l = [].
Proof.
  induction l as [|x l IH]; [done|]. simpl. rewrite filter_cons.
  by destruct (f x).
Qed.

(** X19. The status of a session against its cart, its transaction and the
    stock: the status is browsing exactly when the cart recorded is empty,
    converted exactly when a transaction is returned, and so abandoned_cart
    exactly when there is a cart and no transaction; and a session that
    returns no transaction leaves every product as it was. *)
Theorem session_status_and_stock (u : user) (cats : list category)
    (inv : Inventory.t) (w : world) (s : session) (tx : option transaction)
    (w' : world) :
  session_record u cats inv w = Ok ((s, tx), w') →
  (Session.conversion_status s = browsing ↔ Session.cart_contents s = []) ∧
  (Session.conversion_status s = converted ↔ is_Some tx) ∧
  (Session.conversion_status s = abandoned_cart ↔
     Session.cart_contents s ≠ [] ∧ tx = None) ∧
  (tx = None → heap w' = heap w).
Proof.
  intros H. unfold session_record in H.
  do 9 bind_keeps H.
  match type of H with
  | _ ?w0 = Ok _ => assert (heap w0 = heap w) as Hh by congruence
  end.
  match type of H with
  | context [existsb positive_quantity ?c] =>
      pose proof (existsb_filter_nil positive_quantity c) as Hcart;
      destruct (existsb positive_quantity c) eqn:Hhas
  end; rewrite ?andb_true_r, ?andb_false_r in H; simpl in H.
  - destruct (bool_decide _).
    + apply bind_Ok in H as ([items subtotal] & wb & Hloop & H).
      apply commit_lines_items in Hloop as (new & E1 & _ & _ & Hheap).
      simpl in E1. subst items. destruct new as [|it new].
      * apply ret_Ok in H as [[= <- <-] <-]. specialize (Hheap eq_refl).
        simpl. rewrite is_Some_alt. intuition (discriminate || congruence).
      * apply bind_Ok in H as (t & wc & Ht & H).
        apply ret_Ok in H as [[= <- <-] <-].
        simpl. rewrite is_Some_alt. intuition (discriminate || congruence).
    + apply ret_Ok in H as [[= <- <-] <-].
      simpl. rewrite is_Some_alt. intuition (discriminate || congruence).
  - apply ret_Ok in H as [[= <- <-] <-].
    simpl. rewrite is_Some_alt. intuition (discriminate || congruence).
Qed.

Lemma session_status_and_stock_witness :
  ∃ s w',
    session_record first_user one_category (Inventory.init heap_viewing)
      (World (λ _, 0%nat) 0 heap_viewing) = Ok ((s, None), w') ∧
    Session.conversion_status s = browsing ∧ heap w' = heap_viewing.
Proof.
  destruct (session_record first_user one_category (Inventory.init heap_viewing)
              (World (λ _, 0%nat) 0 heap_viewing)) as [[[s [t|]] w']| |] eqn:E;
    [by vm_compute in E| |by vm_compute in E..].
  exists s, w'. split; [reflexivity|].
  destruct (session_status_and_stock _ _ _ _ _ _ _ E) as (Hb & _ & _ & Hheap).
  split; [|by apply Hheap].
  apply Hb. vm_compute in E. by injection E as <- _.
Defined.

(** ** Runs of a configuration with users, products and categories *)

Lemma no_raise_for_each_inv {A S} (I : S → world → Prop) (xs : list A)
    (body : A → S → M S) acc w :
  I acc w →
  (∀ x acc w, I acc w → no_raise (body x acc) w) →
  (∀ x acc w acc' w', I acc w → body x acc w = Ok (acc', w') → I acc' w') →
  no_raise (for_each xs body acc) w.
Proof.
  intros HI Hbody Hstep. revert acc w HI.
  induction xs as [|x xs IH]; intros acc w HI; simpl; [apply no_raise_ret|].
  apply no_raise_bind; [by apply Hbody|]. intros acc' w' H. apply IH. by eapply Hstep.
Qed.

Lemma no_raise_weighted_choice {A} (choices : list (A * Z)) w :
  choices ≠ [] → no_raise (weighted_choice choices) w.
Proof.
  intros Hne. unfold weighted_choice.
  apply no_raise_bind; [apply no_raise_random_random|]. intros r w1 _.
  destruct (weighted_choice_go r 0 choices); [apply no_raise_ret|].
  destruct (last choices) as [[v wt]|] eqn:E; [apply no_raise_ret|].
  by apply last_None in E.
Qed.

Lemma no_raise_make_page_flow d w : 2 ≤ d → no_raise (make_page_flow d) w.
Proof.
  intros Hd. unfold make_page_flow.
  apply no_raise_bind; [by apply no_raise_random_randint|]. intros n w1 _.
  apply no_raise_bind; [|intros; apply no_raise_ret].
  apply (no_raise_for_each (λ _, True)); [done| |done].
  intros _ cuts w2 _.
  apply no_raise_bind; [apply no_raise_random_randint; lia|intros; apply no_raise_ret].
Qed.

Lemma no_raise_choose_page_type i prev w : no_raise (choose_page_type i prev) w.
Proof.
  unfold choose_page_type.
  repeat (destruct (decide _); [by (apply no_raise_ret || apply no_raise_weighted_choice)|]).
  by apply no_raise_weighted_choice.
Qed.

Lemma no_raise_try_picks n w : heap w ≠ [] → no_raise (try_picks n) w.
Proof.
  revert w. induction n as [|n IH]; intros w Hne; simpl; [apply no_raise_ret|].
  apply no_raise_bind; [by intros e|]. intros h w1 [= <- <-].
  apply no_raise_bind; [by apply no_raise_random_choice|]. intros c w2 Hc.
  pose proof (keeps_heap_random_choice _ _ _ _ Hc) as [Hh _].
  destruct (available c); [apply no_raise_ret|]. apply IH. by rewrite Hh.
Qed.

Lemma no_raise_choose_product w : heap w ≠ [] → no_raise choose_product w.
Proof.
  intros Hne. unfold choose_product.
  apply no_raise_bind; [by apply no_raise_try_picks|]. intros chosen w1 Hp.
  pose proof (keeps_heap_try_picks _ _ _ _ Hp) as [Hh _].
  destruct chosen; [apply no_raise_ret|].
  apply no_raise_bind; [by intros e|]. intros h w2 [= <- <-].
  apply no_raise_random_choice. by rewrite Hh.
Qed.

Lemma no_raise_add_to_cart inv chosen c w :
  ledger_ok inv (heap w) → chosen ∈ heap w →
  no_raise (add_to_cart inv chosen c) w.
Proof.
  intros Hok Hin. unfold add_to_cart.
  set (c1 := if PyDict.contains c (Product.product_id chosen) then c
             else PyDict.set c (Product.product_id chosen)
                    (CartEntry.mk 0 (Product.base_price chosen))).
  assert (is_Some (PyDict.get c1 (Product.product_id chosen))) as [entry He].
  { subst c1. destruct (PyDict.contains _ _) eqn:E.
    - unfold PyDict.contains in E. by apply bool_decide_eq_true in E.
    - rewrite PyDict_get_set_eq. eauto. }
  apply no_raise_bind; [by intros e|]. intros h w1 [= <- <-].
  rewrite (ledger_ok_get _ _ _ Hok Hin), He.
  destruct (decide _); [|apply no_raise_ret].
  apply no_raise_bind; [apply no_raise_random_randint; lia|intros; apply no_raise_ret].
Qed.

Lemma no_raise_page_view_step cats inv slots i st w :
  cats ≠ [] → heap w ≠ [] → ledger_ok inv (heap w) →
  no_raise (page_view_step cats inv slots i st) w.
Proof.
  intros Hcats Hne Hok. unfold page_view_step.
  apply no_raise_bind; [apply no_raise_choose_page_type|]. intros ptype w1 Hpt.
  pose proof (keeps_heap_choose_page_type _ _ _ _ _ Hpt) as [Hh1 _].
  apply no_raise_bind; [|intros [[[? ?] ?] ?] ? _; apply no_raise_ret].
  destruct ptype; try apply no_raise_ret.
  - apply no_raise_bind; [by apply no_raise_random_choice|intros; apply no_raise_ret].
  - apply no_raise_bind; [apply no_raise_choose_product; by rewrite Hh1|].
    intros chosen w2 Hch.
    pose proof (keeps_heap_choose_product _ _ _ Hch) as [Hh2 _].
    apply choose_product_elem_of in Hch.
    apply no_raise_bind; [apply no_raise_random_random|]. intros r w3 Hr.
    pose proof (keeps_heap_random_random _ _ _ Hr) as [Hh3 _].
    apply no_raise_bind; [|intros; apply no_raise_ret].
    destruct (decide _); [|apply no_raise_ret].
    apply no_raise_add_to_cart; rewrite Hh3, Hh2; [by rewrite Hh1|done].
Qed.

Lemma no_raise_commit_line inv line acc w : no_raise (commit_line inv line acc) w.
Proof.
  unfold commit_line. destruct line as [pid entry].
  destruct (decide _); [apply no_raise_ret|].
  apply no_raise_bind; [apply no_raise_reserve|].
  intros [] ? _; apply no_raise_ret.
Qed.

Lemma no_raise_session_record u cats inv w :
  cats ≠ [] → heap w ≠ [] → ledger_ok inv (heap w) →
  no_raise (session_record u cats inv) w.
Proof.
  intros Hcats Hne Hok. unfold session_record.
  apply no_raise_bind; [apply no_raise_rand_hex|]. intros hex w1 Hhex.
  pose proof (keeps_heap_rand_hex _ _ _ _ Hhex) as [Hh1 _].
  apply no_raise_bind; [by apply no_raise_random_randint|]. intros d w2 Hd.
  pose proof (keeps_heap_random_randint _ _ _ _ _ Hd) as [Hh2 _].
  apply random_randint_range in Hd.
  apply no_raise_bind; [by apply no_raise_random_choice|]. intros d1 w3 Hd1.
  pose proof (keeps_heap_random_choice _ _ _ _ Hd1) as [Hh3 _].
  apply no_raise_bind; [by apply no_raise_random_choice|]. intros d2 w4 Hd2.
  pose proof (keeps_heap_random_choice _ _ _ _ Hd2) as [Hh4 _].
  apply no_raise_bind; [by apply no_raise_random_choice|]. intros d3 w5 Hd3.
  pose proof (keeps_heap_random_choice _ _ _ _ Hd3) as [Hh5 _].
  apply no_raise_bind; [apply no_raise_make_page_flow; lia|]. intros slots w6 Hslots.
  pose proof (keeps_heap_make_page_flow _ _ _ _ Hslots) as [Hh6 _].
  assert (heap w6 = heap w) as Hh by congruence.
  apply no_raise_bind.
  { apply (no_raise_for_each_inv (λ _ w0, heap w0 = heap w)); [done| |].
    - intros i st w0 Hw0. apply no_raise_page_view_step; by rewrite ?Hw0.
    - intros i st w0 st' w0' Hw0 Hstep.
      pose proof (keeps_heap_page_view_step _ _ _ _ _ _ _ _ Hstep) as [Hs _].
      congruence. }
  intros st w7 _.
  apply no_raise_bind; [apply no_raise_random_random|]. intros r w8 _.
  apply no_raise_bind; [by apply no_raise_weighted_choice|]. intros ref w9 _.
  destruct (_ && _); [|apply no_raise_ret].
  apply no_raise_bind.
  { apply (no_raise_for_each (λ _, True)); [done| |done].
    intros line acc w0 _. apply no_raise_commit_line. }
  intros [items subtotal] w10 _. destruct items; [apply no_raise_ret|].
  apply no_raise_bind; [apply no_raise_make_transaction|intros; apply no_raise_ret].
Qed.

Lemma no_raise_iter_sessions_for_chunk users cats inv tx_target n tx_written w :
  users ≠ [] → cats ≠ [] → heap w ≠ [] → ledger_ok inv (heap w) →
  no_raise (iter_sessions_for_chunk users cats inv tx_target n tx_written) w.
Proof.
  intros Hu Hcats Hne Hok. unfold iter_sessions_for_chunk.
  apply (no_raise_for_each_inv (λ _ w0, heap w0 ≠ [] ∧ ledger_ok inv (heap w0)));
    [done| |].
  - intros i [[ys buf] txw] w0 [Hne0 Hok0]. unfold iter_sessions_step.
    apply no_raise_bind; [by apply no_raise_random_choice|]. intros u w1 Hc.
    pose proof (keeps_heap_random_choice _ _ _ _ Hc) as [Hh _].
    apply no_raise_bind; [apply no_raise_session_record; by rewrite ?Hh|].
    intros [s [t|]] w2 _; [destruct (decide _)|]; apply no_raise_ret.
  - intros i [[ys buf] txw] w0 acc' w0' [Hne0 Hok0] H. unfold iter_sessions_step in H.
    apply bind_Ok in H as (u & w1 & Hc & H).
    pose proof (keeps_heap_random_choice _ _ _ _ Hc) as [Hh _].
    apply bind_Ok in H as ([s tx] & w2 & Hs & H).
    rewrite <-Hh in Hne0, Hok0.
    assert (heap w0' = heap w2) as ->.
    { destruct tx as [t|]; [destruct (decide _)|]; by apply ret_Ok in H as [_ <-]. }
    split.
    + by eapply (moves_nonempty _ _ _ _ (moves_session_record _ _ _) Hs).
    + eapply debited_ledger_ok; [|done]. by eapply session_record_debited.
Qed.

Lemma no_raise_session_chunks fuel users cats inv tx_target sess_target chunk_size
    st w :
  users ≠ [] → cats ≠ [] → heap w ≠ [] → ledger_ok inv (heap w) →
  no_raise (session_chunks fuel users cats inv tx_target sess_target chunk_size st) w.
Proof.
  intros Hu Hcats. revert st w.
  induction fuel as [|fuel IH]; intros st w Hne Hok; simpl;
    (destruct (decide _); [|apply no_raise_ret]); [by intros e|].
  apply no_raise_bind; [by apply no_raise_iter_sessions_for_chunk|].
  intros [[ys buf] txw] w1 Hchunk.
  destruct (write_json_array ys) as [sf wrote].
  destruct (foldl write_tx _ buf) as [f b].
  apply IH.
  - by eapply (moves_nonempty _ _ _ _ (moves_iter_sessions_for_chunk _ _ _ _ _ _) Hchunk).
  - eapply (iter_sessions_for_chunk_debited _ _ _ _ _ _ (heap w) []) in Hchunk as [? _];
      [done|done|apply debited_refl].
Qed.

(** X20. A run with at least one user, one product and one category, and
    with [1 ≤ subcats_min ≤ subcats_max], raises none of the exceptions of
    the generation: no ValueError from [random.randint], no IndexError from
    [random.choice] and no KeyError from the ledger or a cart, whatever the
    targets, the chunk size and the random generator. *)
Theorem populated_run_never_raises (fuel : nat) (args : config) (w : world) :
  1 ≤ num_users args → 1 ≤ num_products args → 1 ≤ num_categories args →
  1 ≤ subcats_min args ≤ subcats_max args →
  ∀ e, main fuel args w ≠ Raise e.
Proof.
  intros Hu Hp Hc Hsub. change (no_raise (main fuel args) w). unfold main.
  apply no_raise_bind; [apply no_raise_gen_categories; lia|]. intros cats w1 Hcats.
  apply gen_categories_spec in Hcats as [Hlen Hsubs]; [|lia].
  assert (cats ≠ []) as Hne by (intros ->; simpl in Hlen; lia).
  apply no_raise_bind; [by apply no_raise_gen_products|]. intros ps w2 Hps.
  pose proof (init_ledger_ok ps (gen_products_NoDup _ _ _ _ _ Hps)) as Hok.
  assert (ps ≠ []) as Hps_ne.
  { apply gen_products_spec, Forall2_length in Hps. unfold range in Hps.
    rewrite length_seq in Hps. intros ->. simpl in Hps. lia. }
  assert (gen_users (num_users args) ≠ []) as Hus.
  { unfold gen_users, range. destruct (Z.to_nat (num_users args)) eqn:E; [lia|done]. }
  apply no_raise_bind; [by intros e|]. intros [] w3 [= <-].
  apply no_raise_bind; [by apply no_raise_session_chunks|]. intros st1 w4 Hsess.
  apply no_raise_bind.
  { apply no_raise_orphan_transactions; [done|].
    by eapply (moves_nonempty _ _ _ _ (moves_session_chunks _ _ _ _ _ _ _ _) Hsess). }
  intros st2 w5 _.
  apply no_raise_bind; [by intros e|intros; apply no_raise_ret].
Qed.

Lemma populated_run_never_raises_witness :
  (∀ e, main 3 cfg_small (World (λ i, i) 0 []) ≠ Raise e) ∧
  ∃ out w', main 3 cfg_small (World (λ i, i) 0 []) = Ok (out, w').
Proof.
  split.
  - apply populated_run_never_raises; unfold cfg_small; simpl; lia.
  - destruct (main 3 cfg_small (World (λ i, i) 0 [])) as [[out w']| |] eqn:E;
      [|by vm_compute in E..].
    by exists out, w'.
Defined.

(** ** References between the files *)

Lemma PyDict_keys_set {V} (d : PyDict.t V) k v pid :
  pid ∈ PyDict.keys (PyDict.set d k v) → pid ∈ PyDict.keys d ∨ pid = k.
Proof.
  unfold PyDict.keys. intros ([k' v'] & -> & Hin)%list_elem_of_fmap.
  apply PyDict_elem_of_set in Hin as [[-> _]|Hin]; [by right|].
  left. by apply (list_elem_of_fmap_2 fst) in Hin.
Qed.

Lemma add_to_cart_keys inv chosen c w c' w' pid :
  add_to_cart inv chosen c w = Ok (c', w') →
  pid ∈ PyDict.keys c' → pid ∈ PyDict.keys c ∨ pid = Product.product_id chosen.
Proof.
  unfold add_to_cart. intros H.
  set (c1 := if PyDict.contains c (Product.product_id chosen) then c
             else PyDict.set c (Product.product_id chosen)
                    (CartEntry.mk 0 (Product.base_price chosen))) in *.
  assert (pid ∈ PyDict.keys c1 →
          pid ∈ PyDict.keys c ∨ pid = Product.product_id chosen) as Hc1.
  { subst c1. destruct (PyDict.contains _ _); [by left|apply PyDict_keys_set]. }
  apply bind_Ok in H as (h & w1 & _ & H).
  destruct (Inventory.get _ _ _); [|done].
  destruct (PyDict.get c1 _); [|done].
  destruct (decide _).
  - apply bind_Ok in H as (add_qty & w2 & _ & H). apply ret_Ok in H as [<- _].
    intros [Hin| ->]%PyDict_keys_set; [by apply Hc1|by right].
  - by apply ret_Ok in H as [<- _].
Qed.

Lemma page_view_step_refs cats inv slots i st w st' w' :
  views_refs (heap w) cats st →
  page_view_step cats inv slots i st w = Ok (st', w') →
  views_refs (heap w) cats st'.
Proof.
  intros (Hv & Hc & Hpv) H. unfold page_view_step in H.
  apply bind_Ok in H as (ptype & w1 & Hpt & H).
  pose proof (keeps_heap_choose_page_type _ _ _ _ _ Hpt) as [Hh1 _].
  apply bind_Ok in H as ([[[product_id category_id] viewed] new_cart] & w2 & Hbr & H).
  apply ret_Ok in H as [<- _]. unfold views_refs. simpl.
  destruct ptype;
    try (apply ret_Ok in Hbr as [[= <- <- <- <-] _];
         split_and!; [done|done|];
         apply Forall_app; split; [done|]; constructor; [|done];
         by unfold page_view_refs).
  - apply bind_Ok in Hbr as (cat & w3 & Hcat%random_choice_elem_of & Hbr).
    apply ret_Ok in Hbr as [[= <- <- <- <-] _]. split_and!; [done|done|].
    apply Forall_app. split; [done|]. constructor; [|done].
    unfold page_view_refs. simpl. intros cid [= <-]. by apply list_elem_of_fmap_2.
  - apply bind_Ok in Hbr as (chosen & w3 & Hch & Hbr).
    apply choose_product_elem_of in Hch. rewrite Hh1 in Hch.
    apply bind_Ok in Hbr as (r & w4 & _ & Hbr).
    apply bind_Ok in Hbr as (c' & w5 & Hadd & Hbr).
    apply ret_Ok in Hbr as [[= <- <- <- <-] _].
    assert (Product.product_id chosen ∈ Product.product_id <$> heap w) as Hid
      by (by apply list_elem_of_fmap_2).
    split_and!.
    + intros pid [Hin| ->%elem_of_singleton]%elem_of_union; [by apply Hv|done].
    + intros pid Hin. destruct (decide _).
      * eapply add_to_cart_keys in Hin as [Hin| ->]; [by apply Hc|done|done].
      * apply ret_Ok in Hadd as [<- _]. by apply Hc.
    + apply Forall_app. split; [done|]. constructor; [|done].
      unfold page_view_refs. simpl. by exists chosen.
Qed.

Lemma session_record_refs u cats inv w s tx w' :
  session_record u cats inv w = Ok ((s, tx), w') →
  Session.user_id s = User.user_id u ∧
  (∀ pid, pid ∈ Session.viewed_products s → pid ∈ Product.product_id <$> heap w) ∧
  (∀ pid, pid ∈ PyDict.keys (Session.cart_contents s) →
     pid ∈ Product.product_id <$> heap w) ∧
  Forall (page_view_refs (heap w) cats) (Session.page_views s) ∧
  (∀ t, tx = Some t →
     Transaction.user_id t = User.user_id u ∧
     ∀ it, it ∈ Transaction.items t →
       Item.product_id it ∈ PyDict.keys (Session.cart_contents s)).
Proof.
  intros H.
  pose proof H as (hex & w1 & d & w2 & w3 & slots & w4 & st & w5 & _ & _ & _ & Hloop &
          Hh4 & _ & _ & Huid & _ & Hpvs & Hviewed & Hcart)%session_record_parts.
  apply (for_each_inv (λ st w0, heap w0 = heap w ∧ views_refs (heap w) cats st))
    in Hloop.
  - destruct Hloop as [_ (Hv & Hc & Hpv)]. split_and!; [done| | |by rewrite Hpvs|].
    + intros pid Hin. apply Hv. rewrite Hviewed in Hin. unfold sorted_str in Hin.
      rewrite merge_sort_Permutation in Hin. by apply elem_of_elements in Hin.
    + intros pid Hin. apply Hc. rewrite Hcart in Hin. unfold PyDict.keys in *.
      eapply elem_of_sublist; [exact Hin|]. apply fmap_sublist, sublist_filter.
    + intros t ->.
      apply session_record_transaction in H
        as (items & subtotal & wa & wb & Hcommit & _ & Ht & _).
      apply make_transaction_record in Ht as (? & _ & _ & _ & _ & -> & -> & _).
      split; [done|]. intros it Hit.
      apply commit_lines_items in Hcommit as (new & E1 & _ & Hsub & _).
      simpl in E1. subst new.
      pose proof (elem_of_sublist _ _ _ Hit Hsub) as Hin.
      apply list_elem_of_fmap in Hin as ([pid entry] & -> & Hin).
      simpl. by apply (list_elem_of_fmap_2 fst) in Hin.
  - split; [done|]. split_and!; [by intros pid Hin%elem_of_empty| |constructor].
    by intros pid Hin%elem_of_nil.
  - clear. intros x st0 w0 st1 w1 _ [Hh Hrefs] Hstep.
    pose proof (keeps_heap_page_view_step _ _ _ _ _ _ _ _ Hstep) as [Hh1 _].
    split; [congruence|]. rewrite <-Hh in Hrefs |- *.
    by eapply page_view_step_refs.
Qed.

Lemma gen_orphan_transaction_lines u inv w t w' :
  gen_orphan_transaction u inv w = Ok (Some t, w') →
  Transaction.user_id t = User.user_id u ∧
  Forall (orphan_line (heap w)) (Transaction.items t).
Proof.
  unfold gen_orphan_transaction. intros H.
  apply bind_Ok in H as (n_items & w1 & Hn & H).
  pose proof (keeps_heap_random_randint _ _ _ _ _ Hn) as [Hh1 _].
  apply bind_Ok in H as ([items subtotal] & w2 & Hpicks & H).
  apply orphan_picks_lines in Hpicks as (new & E1 & _ & Hall & _).
  simpl in E1. subst items. rewrite Hh1 in Hall.
  destruct new as [|it new]; [by apply ret_Ok in H as [[=] _]|].
  apply bind_Ok in H as (t0 & w3 & Ht & H). apply ret_Ok in H as [[= <-] _].
  by apply make_transaction_record in Ht as (hex & _ & _ & _ & _ & -> & -> & _).
Qed.

Lemma ledger_steps_ids h h' :
  ledger_steps h h' → Product.product_id <$> h' = Product.product_id <$> h.
Proof.
  intros Hsteps. apply list_eq. intros l. rewrite !list_lookup_fmap.
  destruct (h !! l) as [p|] eqn:Hp.
  - destruct (ledger_steps_same_product _ _ Hsteps l p Hp) as (p' & -> & Hs & _).
    simpl. by rewrite Hs.
  - apply lookup_ge_None in Hp. rewrite <-(ledger_steps_length _ _ Hsteps) in Hp.
    apply lookup_ge_None in Hp. by rewrite Hp.
Qed.

Lemma gen_products_refs cats n w ps w' :
  gen_products cats n w = Ok (ps, w') → Forall (product_refs cats) ps.
Proof.
  unfold gen_products.
  apply (for_each_ind (λ _ ps _, Forall (product_refs cats) ps)); [constructor|].
  intros pre x acc w0 acc' w1 HI (p & -> & Hp)%gen_product_catalogue.
  apply Forall_app. split; [done|]. constructor; [|done].
  destruct Hp as (_ & (c & sub & Hc & Hsub & Hcid & Hsid) & _).
  exists c. split_and!; [done|done|]. rewrite Hsid. by apply list_elem_of_fmap_2.
Qed.

Lemma ledger_steps_product_refs cats h h' :
  ledger_steps h h' → Forall (product_refs cats) h → Forall (product_refs cats) h'.
Proof.
  intros Hsteps Hall. apply Forall_forall. intros p' Hp'.
  destruct (ledger_steps_origin _ _ _ Hsteps Hp') as (p & Hp & _ & Hc & Hs & _).
  destruct (proj1 (Forall_forall _ _) Hall p Hp) as (c & Hin & Hcid & Hsid).
  exists c. split_and!; [done|congruence|]. by rewrite Hs.
Qed.

(** In a state [h] reached from the created products [ps], the ids a
    session and its transaction carry resolve in the users, in [ps] and in
    the categories. *)
Lemma session_record_resolves users u cats inv ps w s tx w' :
  u ∈ users → Forall (product_refs cats) ps → ledger_steps ps (heap w) →
  session_record u cats inv w = Ok ((s, tx), w') →
  session_refs (User.user_id <$> users) (Product.product_id <$> ps)
    (Category.category_id <$> cats) s ∧
  ∀ t, tx = Some t →
    transaction_refs (User.user_id <$> users) (Product.product_id <$> ps) t.
Proof.
  intros Hu Hps Hsteps (Huid & Hv & Hc & Hpv & Htx)%session_record_refs.
  rewrite (ledger_steps_ids _ _ Hsteps) in Hv, Hc.
  split.
  - split_and!; [rewrite Huid; by apply list_elem_of_fmap_2|done|done|].
    intros pv Hin. pose proof (proj1 (Forall_forall _ _) Hpv pv Hin) as Hrefs.
    unfold page_view_refs in Hrefs.
    destruct (PageView.product_id pv) as [pid|].
    + destruct Hrefs as (p & Hp & Hid & Hcat).
      destruct (ledger_steps_origin _ _ _ Hsteps Hp) as (p0 & Hp0 & Hid0 & Hc0 & _).
      split.
      * intros ? [= <-]. rewrite <-Hid, Hid0. by apply list_elem_of_fmap_2.
      * intros cid Hcid. rewrite Hcat in Hcid. injection Hcid as <-.
        destruct (proj1 (Forall_forall _ _) Hps p0 Hp0) as (c & Hin' & Hcid' & _).
        rewrite Hc0, Hcid'. by apply list_elem_of_fmap_2.
    + split; [done|]. exact Hrefs.
  - intros t Ht. destruct (Htx t Ht) as [Hut Hitems]. split.
    + rewrite Hut. by apply list_elem_of_fmap_2.
    + intros it Hit. by apply Hc, Hitems.
Qed.

Lemma main_Ok_files fuel args w out w' cats w1 :
  gen_categories (num_categories args) (subcats_min args, subcats_max args) w
    = Ok (cats, w1) →
  main fuel args w = Ok (out, w') →
  written (categories_json out) = cats ∧
  written (users_json out) = gen_users (num_users args).
Proof.
  intros Hcats H. unfold main in H.
  erewrite bind_run in H by done.
  apply bind_Ok in H as (ps & w2 & Hps & H).
  apply bind_Ok in H as ([] & w2' & Hset & H).
  apply bind_Ok in H as (st1 & w3 & Hsess & H).
  apply bind_Ok in H as (st2 & w4 & Horph & H).
  apply bind_Ok in H as (h & w5 & Hh & H).
  apply ret_Ok in H as [<- _]. simpl.
  split; apply written_write_json_array.
Qed.

(** X21. Every reference in the files of a complete run resolves in the
    files of the same run: a product's category is a category of
    categories.json and its subcategory one of that category's; the user of
    a session or transaction is a user of users.json; the products a session
    viewed, put in its cart or shows on a page view, and the products on the
    lines of a transaction, are products of products.json; and the category
    on a page view is a category of categories.json. *)
Theorem references_between_files (fuel : nat) (args : config) (w : world)
    (out : outputs) (w' : world) :
  main fuel args w = Ok (out, w') → references_resolve out.
Proof.
  intros H.
  pose proof H as (cats & w1 & ps & w2 & st1 & w3 & st2 & Hcats & Hps & Hsess &
          Horph & Hsj & Htj & _ & _ & Hpj)%main_Ok.
  destruct (main_Ok_files _ _ _ _ _ _ _ Hcats H) as [Hcj Huj].
  pose proof (gen_products_NoDup _ _ _ _ _ Hps) as Hnd.
  pose proof (gen_products_refs _ _ _ _ _ Hps) as Hrefs.
  set (users := gen_users (num_users args)) in *.
  set (inv := Inventory.init ps) in *.
  assert (ledger_steps ps (heap w3) ∧
          Forall (session_refs (User.user_id <$> users) (Product.product_id <$> ps)
                    (Category.category_id <$> cats))
            (concat (written <$> sessions_files st1)) ∧
          Forall (transaction_refs (User.user_id <$> users) (Product.product_id <$> ps))
            (written (txf st1))) as (Hsteps1 & Hss & Hts).
  { revert Hsess.
    apply (session_chunks_inv (λ st w0,
      ledger_steps ps (heap w0) ∧
      Forall (session_refs (User.user_id <$> users) (Product.product_id <$> ps)
                (Category.category_id <$> cats))
        (concat (written <$> sessions_files st)) ∧
      Forall (transaction_refs (User.user_id <$> users) (Product.product_id <$> ps))
        (written (txf st)))).
    { simpl. split_and!; [done|constructor|constructor]. }
    clear -Hrefs. intros st w0 ys buf txw w4 (Hsteps & Hss & Hts) _ Hchunk.
    apply (iter_sessions_for_chunk_inv (λ acc w5,
      ledger_steps ps (heap w5) ∧
      Forall (session_refs (User.user_id <$> users) (Product.product_id <$> ps)
                (Category.category_id <$> cats)) acc.1.1 ∧
      Forall (transaction_refs (User.user_id <$> users) (Product.product_id <$> ps))
        acc.1.2)) in Hchunk.
    - destruct Hchunk as (Hsteps' & Hys & Hbuf). simpl in Hys, Hbuf.
      pose proof (written_write_json_array ys) as [Hw _].
      destruct (write_json_array ys) as [sf wrote]. simpl in Hw.
      cbn [sessions_files txf fst snd]. split_and!; [done| |].
      + rewrite fmap_app, concat_app. csimpl. rewrite app_nil_r, Hw.
        by apply Forall_app.
      + rewrite written_foldl_write_tx. by apply Forall_app.
    - simpl. split_and!; [done|constructor|constructor].
    - clear -Hrefs. intros ys buf txw w5 u w6 s tx w7 (Hsteps & Hys & Hbuf) Hu Hs.
      simpl in Hys, Hbuf.
      pose proof (keeps_heap_random_choice _ _ _ _ Hu) as [Hh _].
      apply random_choice_elem_of in Hu. rewrite <-Hh in Hsteps.
      pose proof (moves_session_record _ _ _ _ _ _ Hs) as Hm.
      destruct (session_record_resolves _ _ _ _ _ _ _ _ _ Hu Hrefs Hsteps Hs)
        as [Hsr Htr].
      assert (Forall (session_refs (User.user_id <$> users) (Product.product_id <$> ps)
                (Category.category_id <$> cats)) (ys ++ [s])) as Hys'.
      { apply Forall_app. split; [done|by constructor]. }
      destruct tx as [t|]; [destruct (decide _)|]; simpl;
        (split_and!; [by etrans|done|]); try done.
      apply Forall_app. split; [done|]. constructor; [by apply Htr|done]. }
  assert (ledger_steps ps (heap w') ∧
          sessions_files st2 = sessions_files st1 ∧
          Forall (transaction_refs (User.user_id <$> users) (Product.product_id <$> ps))
            (written (txf st2))) as (Hsteps2 & Hsf & Hts2).
  { revert Horph.
    apply (orphan_transactions_inv (λ st w0,
      ledger_steps ps (heap w0) ∧
      sessions_files st = sessions_files st1 ∧
      Forall (transaction_refs (User.user_id <$> users) (Product.product_id <$> ps))
        (written (txf st)))); [done| |].
    - clear. intros st w0 u w4 w5 (Hsteps & Hsf & Hts) _ Hu Htx.
      pose proof (keeps_heap_random_choice _ _ _ _ Hu) as [Hh _].
      pose proof (moves_gen_orphan_transaction _ _ _ _ _ Htx) as Hm.
      rewrite Hh in Hm. split_and!; [by etrans|done|done].
    - clear. intros st w0 u w4 tx w5 (Hsteps & Hsf & Hts) _ Hu Htx.
      pose proof (keeps_heap_random_choice _ _ _ _ Hu) as [Hh _].
      apply random_choice_elem_of in Hu.
      pose proof (moves_gen_orphan_transaction _ _ _ _ _ Htx) as Hm.
      rewrite Hh in Hm.
      apply gen_orphan_transaction_lines in Htx as [Hut Hlines]. rewrite Hh in Hlines.
      cbn [txf sessions_files]. rewrite written_write_tx.
      split_and!; [by etrans|done|].
      apply Forall_app. split; [done|]. constructor; [|done]. split.
      + rewrite Hut. by apply list_elem_of_fmap_2.
      + intros it Hit.
        destruct (proj1 (Forall_forall _ _) Hlines it Hit) as (_ & _ & p & Hp & Hid & _).
        rewrite <-Hid, <-(ledger_steps_ids _ _ Hsteps). by apply list_elem_of_fmap_2. }
  assert (written (products_json out) = heap w') as Hfinal.
  { rewrite Hpj. apply final_products_heap; [done|].
    by apply ledger_steps_length. }
  unfold references_resolve, emitted_sessions.
  rewrite Hcj, Huj, Hfinal, (ledger_steps_ids _ _ Hsteps2), Hsj, Hsf, Htj, written_app.
  simpl. rewrite app_nil_r.
  split_and!; [by eapply ledger_steps_product_refs|done|done].
Qed.

Lemma references_between_files_witness :
  ∃ out w',
    main 3 cfg_small (World (λ i, i) 0 []) = Ok (out, w') ∧ references_resolve out.
Proof.
  destruct (main 3 cfg_small (World (λ i, i) 0 [])) as [[out w']| |] eqn:E;
    [|by vm_compute in E..].
  exists out, w'. split; [reflexivity|].
  exact (references_between_files _ _ _ _ _ E).
Defined.

(** ** The profile of a session *)

(** X22. The fields of a session that are drawn from fixed lists take
    their values there: the device type, operating system and browser are
    entries of DEVICE_TYPES, OS_TYPES and BROWSERS, the referrer is one of
    the four referrers of REFERRERS, and the user id is the given user's. *)
Theorem session_profile_fields (u : user) (cats : list category) (inv : Inventory.t)
    (w : world) (s : session) (tx : option transaction) (w' : world) :
  session_record u cats inv w = Ok ((s, tx), w') →
  Session.user_id s = User.user_id u ∧
  Device.type (Session.device_profile s) ∈ DEVICE_TYPES ∧
  Device.os (Session.device_profile s) ∈ OS_TYPES ∧
  Device.browser (Session.device_profile s) ∈ BROWSERS ∧
  Session.referrer s ∈ REFERRERS.*1.
Proof.
  intros H. unfold session_record in H.
  apply bind_Ok in H as (hex & w1 & _ & H).
  apply bind_Ok in H as (d & w2 & _ & H).
  apply bind_Ok in H as (dev_type & w3 & Htype%random_choice_elem_of & H).
  apply bind_Ok in H as (dev_os & w4 & Hos%random_choice_elem_of & H).
  apply bind_Ok in H as (dev_browser & w5 & Hbrowser%random_choice_elem_of & H).
  apply bind_Ok in H as (slots & w6 & _ & H).
  apply bind_Ok in H as (st & w7 & _ & H).
  apply bind_Ok in H as (r & w8 & _ & H).
  apply bind_Ok in H as (referrer & w9 & [Href _]%weighted_choice_elem_of & H).
  destruct (_ && _).
  - apply bind_Ok in H as ([items subtotal] & w10 & _ & H).
    destruct items as [|it items].
    + by apply ret_Ok in H as [[= <- <-] _].
    + apply bind_Ok in H as (t & w11 & _ & H).
      by apply ret_Ok in H as [[= <- <-] _].
  - by apply ret_Ok in H as [[= <- <-] _].
Qed.

Lemma session_profile_fields_witness :
  ∃ s tx w',
    session_record first_user one_category (Inventory.init heap_viewing) w_viewing
      = Ok ((s, tx), w') ∧
    Session.user_id s = "user_000000" ∧ Session.referrer s ∈ REFERRERS.*1.
Proof.
  destruct (session_record first_user one_category (Inventory.init heap_viewing)
              w_viewing) as [[[s tx] w']| |] eqn:E; [|by vm_compute in E..].
  exists s, tx, w'. split; [reflexivity|].
  destruct (session_profile_fields _ _ _ _ _ _ _ E) as (Hu & _ & _ & _ & Href).
  by split.
Defined.

(** ** The ledger of a product list *)

Lemma init_go_app d start ps qs :
  Inventory.init_go d start (ps ++ qs)
  = Inventory.init_go (Inventory.init_go d start ps) (start + length ps) qs.
Proof.
  revert d start. induction ps as [|p ps IH]; intros d start; simpl.
  - by rewrite Nat.add_0_r.
  - rewrite IH. f_equal. lia.
Qed.

Lemma init_get_last (ps : list product) (pid : string) :
  Inventory.get (Inventory.init ps) ps pid
    = last (filter (λ p, Product.product_id p = pid) ps) ∧
  ∀ l, PyDict.get (Inventory.products (Inventory.init ps)) pid = Some l →
       (l < length ps)%nat.
Proof.
  unfold Inventory.get, Inventory.init. simpl.
  induction ps as [|p ps [IH1 IH2]] using rev_ind; [done|].
  rewrite init_go_app. simpl. rewrite filter_app, filter_cons, filter_nil.
  destruct (decide (Product.product_id p = pid)) as [<-|Hne].
  - rewrite PyDict_get_set_eq. simpl. split.
    + by rewrite list_lookup_middle, last_snoc.
    + intros l [= <-]. rewrite length_app. simpl. lia.
  - rewrite PyDict_get_set_ne by done. rewrite app_nil_r. split.
    + rewrite <-IH1.
      destruct (PyDict.get (Inventory.init_go [] 0 ps) pid) as [l|] eqn:Hl; [|done].
      simpl. by rewrite lookup_app_l by (by apply IH2).
    + intros l Hl%IH2. rewrite length_app. lia.
Qed.

(** X23. The ledger built from a product list finds, under an id, the last
    product of the list with that id (a later product replaces an earlier
    one with the same id), and nothing under an id no product has. *)
Theorem ledger_finds_last (ps : list product) (pid : string) :
  Inventory.get (Inventory.init ps) ps pid
    = last (filter (λ p, Product.product_id p = pid) ps) ∧
  (pid ∉ Product.product_id <$> ps →
     Inventory.get (Inventory.init ps) ps pid = None ∧
     ∀ qty, Inventory.in_stock_at (Inventory.init ps) ps pid qty = false).
Proof.
  destruct (init_get_last ps pid) as [Hget _]. split; [done|].
  intros Hnin.
  assert (Inventory.get (Inventory.init ps) ps pid = None) as Hnone.
  { rewrite Hget. destruct (last _) as [p|] eqn:E; [|done].
    apply last_Some_elem_of, list_elem_of_filter in E as [<- Hin].
    destruct Hnin. by apply list_elem_of_fmap_2. }
  split; [done|]. intros qty. unfold Inventory.in_stock_at. by rewrite Hnone.
Qed.

(** ** The order of the transactions *)

(** X24. In transactions.json the transactions of sessions come first and
    the orphan transactions after them: the file is a list of transactions
    that carry a session id followed by a list of transactions that carry
    none, and there are orphan transactions only when the sessions gave
    fewer transactions than the target. *)
Theorem linked_transactions_first (fuel : nat) (args : config) (w : world)
    (out : outputs) (w' : world) :
  main fuel args w = Ok (out, w') →
  ∃ linked orphans,
    written (transactions_json out) = linked ++ orphans ∧
    Forall (λ t, is_Some (Transaction.session_id t)) linked ∧
    Forall (λ t, Transaction.session_id t = None) orphans ∧
    (orphans = [] ∨ Z.of_nat (length linked) < num_transactions args).
Proof.
  intros (cats & w1 & ps & w2 & st1 & w3 & st2 & _ & _ & Hsess & Horph &
          _ & Htj & _)%main_Ok.
  apply session_chunks_transactions in Hsess as [Hlinked Hn1].
  assert (∃ orphans,
            written (txf st2) = written (txf st1) ++ orphans ∧
            Forall (λ t, Transaction.session_id t = None) orphans ∧
            tx_written st2 = tx_written st1 + Z.of_nat (length orphans) ∧
            (orphans = [] ∨ tx_written st1 < num_transactions args))
    as (orphans & Hw & Hnone & _ & Hneed).
  { revert Horph.
    apply (orphan_transactions_inv (λ st _,
      ∃ orphans,
        written (txf st) = written (txf st1) ++ orphans ∧
        Forall (λ t, Transaction.session_id t = None) orphans ∧
        tx_written st = tx_written st1 + Z.of_nat (length orphans) ∧
        (orphans = [] ∨ tx_written st1 < num_transactions args))).
    - exists []. rewrite app_nil_r. split_and!; [done|constructor|simpl; lia|by left].
    - done.
    - clear. intros st w u w1 tx w2 (orphans & Hw & Hnone & Hn & _) Hlt _
        Htx%gen_orphan_transaction_fields.
      exists (orphans ++ [tx]). cbn [txf tx_written].
      rewrite written_write_tx, length_app. simpl. split_and!.
      + by rewrite Hw, <-app_assoc.
      + apply Forall_app. split; [done|by constructor].
      + lia.
      + right. lia. }
  exists (written (txf st1)), orphans. rewrite Htj, written_app. simpl.
  rewrite app_nil_r. split_and!; [done| |done|by rewrite <-Hn1].
  apply Forall_forall. intros t Ht.
  apply (list_elem_of_fmap_2 Transaction.session_id) in Ht.
  rewrite Hlinked in Ht. by apply list_elem_of_fmap in Ht as (sid & -> & _).
Qed.

Lemma linked_transactions_first_witness :
  ∃ out w' t,
    main 1 (cfg_one_session 1) (World rng_converting 0 []) = Ok (out, w') ∧
    written (transactions_json out) = [t] ∧ is_Some (Transaction.session_id t).
Proof.
  destruct (main 1 (cfg_one_session 1) (World rng_converting 0 [])) as [[out w']| |] eqn:E;
    [|by vm_compute in E..].
  destruct (linked_transactions_first _ _ _ _ _ E)
    as (linked & orphans & Hw & Hlinked & Hnone & _).
  assert (∃ t, written (transactions_json out) = [t]) as (t & Ht).
  { vm_compute in E. injection E as <- _. by eexists. }
  exists out, w', t. split; [reflexivity|]. split; [exact Ht|].
  rewrite Ht in Hw.
  destruct linked as [|t' linked].
  - simpl in Hw. subst orphans. apply Forall_cons in Hnone as [Hnone _].
    exfalso. vm_compute in E. injection E as <- _. simpl in Ht. injection Ht as <-.
    discriminate Hnone.
  - simpl in Hw. injection Hw as <- _. by apply Forall_cons in Hlinked as [? _].
Defined.

(** ** Where the stock went *)



















(** ** Which cart lines a transaction takes *)

Lemma filter_ext_in {A} (P Q : A → Prop) `{!∀ x, Decision (P x)}
    `{!∀ x, Decision (Q x)} (l : list A) :
  (∀ x, x ∈ l → P x ↔ Q x) → filter P l = filter Q l.
Proof.
  induction l as [|x l IH]; intros Hext; [done|]. rewrite !filter_cons.
  rewrite IH by (intros y Hy; apply Hext; by right).
  destruct (decide (P x)) as [HP|HP], (decide (Q x)) as [HQ|HQ]; try done.
  - destruct HQ. apply Hext; [by left|done].
  - destruct HP. apply Hext; [by left|done].
Qed.

Lemma get_insert_other inv h l p' pid pid' :
  ledger_ok inv h → PyDict.get (Inventory.products inv) pid = Some l →
  pid' ≠ pid →
  Inventory.get inv (<[l := p']> h) pid' = Inventory.get inv h pid'.
Proof.
  intros [_ Hok] Hl Hne. unfold Inventory.get.
  destruct (PyDict.get _ pid') as [l'|] eqn:Hl'; simpl; [|done].
  rewrite list_lookup_insert_ne; [done|]. intros ->.
  destruct (Hok _ _ Hl) as (p & Hp & Hid).
  destruct (Hok _ _ Hl') as (q & Hq & Hid'). congruence.
Qed.

Lemma session_record_cart u cats inv w s tx w' :
  ledger_ok inv (heap w) →
  session_record u cats inv w = Ok ((s, tx), w') →
  cart_ok inv (heap w) (list_to_set (Session.viewed_products s))
    (Session.cart_contents s) ∧
  ∀ pid entry, (pid, entry) ∈ Session.cart_contents s → 0 < CartEntry.quantity entry.
Proof.
  intros Hok (hex & w1 & d & w2 & w3 & slots & w4 & st & w5 & _ & _ & _ & Hloop &
          Hh4 & _ & _ & _ & _ & _ & Hviewed & Hcart)%session_record_parts.
  apply (for_each_inv (λ st w0,
    heap w0 = heap w ∧
    cart_ok inv (heap w) (viewed_products st) (cart_contents st))) in Hloop.
  - destruct Hloop as [_ [Hnd Hall]]. rewrite Hcart, Hviewed. split.
    + split.
      * unfold PyDict.keys. eapply sublist_NoDup; [exact Hnd|].
        apply fmap_sublist, sublist_filter.
      * intros pid entry [_ Hin]%list_elem_of_filter.
        destruct (Hall pid entry Hin) as (Hv & Hp). split; [|done].
        apply elem_of_list_to_set. unfold sorted_str.
        rewrite merge_sort_Permutation. by apply elem_of_elements.
    + intros pid entry [Hpos _]%list_elem_of_filter.
      unfold positive_quantity in Hpos. by apply bool_decide_unpack in Hpos.
  - split; [done|]. split; [constructor|]. by intros pid entry Hin%elem_of_nil.
  - clear -Hok. intros x st0 w0 st1 w1 _ [Hh Hc] Hstep.
    pose proof (keeps_heap_page_view_step _ _ _ _ _ _ _ _ Hstep) as [Hh1 _].
    split; [congruence|]. rewrite <-Hh in Hok, Hc |- *.
    by eapply page_view_step_cart.
Qed.

Lemma commit_lines_active inv h lines acc w acc' w' :
  ledger_ok inv (heap w) → NoDup lines.*1 →
  (∀ pid e, (pid, e) ∈ lines →
     Inventory.get inv (heap w) pid = Inventory.get inv h pid ∧
     ∃ p, Inventory.get inv h pid = Some p ∧
          1 ≤ CartEntry.quantity e ≤ Product.current_stock p) →
  for_each lines (commit_line inv) acc w = Ok (acc', w') →
  acc'.1 = acc.1 ++ (item_of_line <$> filter (λ line, line_active inv h line) lines).
Proof.
  revert acc w. induction lines as [|[pid e] lines IH]; intros acc w Hok Hnd Hall H;
    simpl in H.
  { apply ret_Ok in H as [<- _]. by rewrite app_nil_r. }
  rewrite fmap_cons in Hnd. apply NoDup_cons in Hnd as [Hnin Hnd].
  destruct (Hall pid e ltac:(by left)) as (Hsame & p & Hp & Hq).
  apply bind_Ok in H as (acc1 & w1 & Hline & H).
  unfold commit_line in Hline. rewrite decide_False in Hline by lia.
  apply bind_Ok in Hline as (ok & w2 & Hres & Hline).
  pose proof Hres as Hdeb.
  eapply (reserve_debited _ _ _ _ _ _ (item_of_line (pid, e))) in Hdeb;
    [|done|lia|done..].
  pose proof (debited_ledger_ok _ _ _ _ Hdeb Hok) as Hok2.
  assert (line_active inv h (pid, e) = Product.is_active p) as Hla.
  { unfold line_active. simpl. by rewrite Hp. }
  rewrite filter_cons.
  assert (∀ pid' e', (pid', e') ∈ lines →
            Inventory.get inv (heap w2) pid' = Inventory.get inv h pid' ∧
            ∃ p, Inventory.get inv h pid' = Some p ∧
                 1 ≤ CartEntry.quantity e' ≤ Product.current_stock p) as Hall2.
  { intros pid' e' Hin. destruct (Hall pid' e' ltac:(by right)) as [Hs' Hp'].
    split; [|done]. rewrite <-Hs'.
    apply reserve_cases in Hres as [[_ ->]|(_ & l0 & p0 & (Hl0 & _) & ->)]; [done|].
    simpl. eapply get_insert_other; [done..|].
    intros ->. apply Hnin. by apply (list_elem_of_fmap_2 fst) in Hin. }
  rewrite <-Hsame in Hp. unfold Inventory.get in Hp.
  destruct (PyDict.get (Inventory.products inv) pid) as [l|] eqn:Hl; [|done].
  simpl in Hp.
  destruct (Product.is_active p) eqn:Hact.
  - rewrite (reserve_success _ _ _ _ l p) in Hres by (split_and!; [done..|lia]).
    injection Hres as <- <-. apply ret_Ok in Hline as [<- <-].
    rewrite decide_True by (by rewrite Hla).
    erewrite IH by done. simpl. by rewrite <-app_assoc.
  - rewrite reserve_fail in Hres.
    + injection Hres as <- <-. apply ret_Ok in Hline as [<- <-].
      rewrite decide_False by (rewrite Hla; exact id). by erewrite IH by done.
    + unfold Inventory.in_stock_at, Inventory.get. rewrite Hl. simpl.
      rewrite Hp, Hact. by rewrite andb_false_r.
Qed.

(** X26. Which cart lines the transaction of a session takes, the ledger
    indexing the products: exactly the lines whose product is active when
    the session is built, in the order of the cart. A cart never asks for
    more than the stock and never for a product twice, so a line is left out
    only because its product is inactive. *)
Theorem transaction_takes_active_lines (u : user) (cats : list category)
    (inv : Inventory.t) (w : world) (s : session) (t : transaction) (w' : world) :
  ledger_ok inv (heap w) →
  session_record u cats inv w = Ok ((s, Some t), w') →
  Transaction.items t
  = item_of_line <$> filter (λ line, line_active inv (heap w) line)
                       (PyDict.items (Session.cart_contents s)).
Proof.
  intros Hok H.
  pose proof (session_record_cart _ _ _ _ _ _ _ Hok H) as [[Hnd Hall] Hpos].
  apply session_record_transaction in H
    as (items & subtotal & wa & wb & Hloop & _ & Ht & Hh & _).
  apply make_transaction_record in Ht as (hex & _ & _ & _ & _ & _ & -> & _).
  eapply (commit_lines_active _ (heap w)) in Hloop; [done|by rewrite Hh|done|].
  intros pid e Hin. rewrite Hh. split; [done|].
  destruct (Hall pid e Hin) as (_ & p & Hp & _ & Hq & _).
  exists p. split; [done|]. specialize (Hpos pid e Hin). lia.
Qed.

Lemma transaction_takes_active_lines_witness :
  ∃ s t w',
    session_record first_user one_category (Inventory.init heap_viewing) w_viewing
      = Ok ((s, Some t), w') ∧
    Transaction.items t
    = item_of_line <$> filter (λ line, line_active (Inventory.init heap_viewing)
                                         heap_viewing line)
                         (PyDict.items (Session.cart_contents s)).
Proof.
  destruct (session_record first_user one_category (Inventory.init heap_viewing)
              w_viewing) as [[[s [t|]] w']| |] eqn:E; [|by vm_compute in E..].
  exists s, t, w'. split; [reflexivity|].
  assert (ledger_ok (Inventory.init heap_viewing) (heap w_viewing)) as Hok.
  { apply init_ledger_ok. apply NoDup_singleton. }
  exact (transaction_takes_active_lines _ _ _ _ _ _ _ Hok E).
Defined.
